(** * auth-sdk: session/token lifecycle, session store and access gate

    A shallow embedding of the TypeScript sources
      - the data model of [src/types/index.ts],
      - the [ProtectedRoute] component (access-control evaluator),
      - the reducer and the callbacks of [src/providers/AuthProvider.tsx],
      - the transport client and session service of
        [src/services/api.service.ts],
    followed by the properties established about them.

    Conventions.  A JavaScript value of type [string | null | undefined] is an
    [option string]; "truthy" on such a value means [Some s] with [s] non-empty.
    Object literals used as lookup tables ([roleHierarchy], [codeMap]) are
    finite maps over their own keys together with the members every object
    literal inherits from [Object.prototype]: indexing one with such a name
    yields the inherited member, not [undefined].  A response body is a JSON
    object, possibly with every field missing.  Asynchronous code is split
    at every [await]: the part before it issues a network call, the part
    after it is a continuation frame that consumes the settled result.  The
    event loop delivers one response at a time and runs the continuations
    it wakes to completion, which is how a single-threaded JavaScript
    runtime schedules them; the order in which responses arrive is
    arbitrary. *)

From Stdlib Require Import ZArith List Bool Lia.
From stdpp Require Import base option list strings gmap fin_maps.

Set Warnings "-register-all".
Open Scope string_scope.
Open Scope nat_scope.
Open Scope list_scope.

(* ===================================================================== *)
(** ** JavaScript helpers                                                *)
(* ===================================================================== *)

(** [!!s] for a possibly absent string. *)
Definition truthy (s : option string) : bool :=
  match s with
  | Some v => negb (bool_decide (v = ""))
  | None => false
  end.

(** [a || b] where [a] is a possibly absent string. *)
Definition or_str (a : option string) (b : string) : string :=
  match a with
  | Some v => if bool_decide (v = "") then b else v
  | None => b
  end.

(** [a || b] where [a] is a possibly missing number. *)
Definition or_num (a : option nat) (b : nat) : nat :=
  match a with
  | Some 0 => b
  | Some n => n
  | None => b
  end.

(** *** Object literals indexed by a string

    [table[key]] on an object literal finds the own property [key], or else
    walks the prototype chain, which for a literal is [Object.prototype]. *)

(** The properties of [Object.prototype]: eleven built-in functions and the
    accessor [__proto__], which yields the prototype object itself. *)
Definition objectPrototype : list string :=
  [ "constructor"; "hasOwnProperty"; "isPrototypeOf"; "propertyIsEnumerable";
    "toLocaleString"; "toString"; "valueOf";
    "__defineGetter__"; "__defineSetter__";
    "__lookupGetter__"; "__lookupSetter__"; "__proto__" ].

(** What [table[key]] evaluates to. *)
Inductive Property (A : Type) : Type :=
  | Own (v : A)                  (* the value stored under the key *)
  | Inherited (member : string)  (* [Object.prototype[member]], an object *)
  | Undefined.

Arguments Own {A} v.
Arguments Inherited {A} member.
Arguments Undefined {A}.

Definition property {A : Type} (table : gmap string A) (key : string)
    : Property A :=
  match table !! key with
  | Some v => Own v
  | None =>
      if bool_decide (key ∈ objectPrototype) then Inherited key else Undefined
  end.

(** [String(Object.prototype[member])], the primitive an inherited member
    converts to: the source text of a built-in function, which starts with
    [function] and the function's name ([Object] for [constructor]), and
    [[object Object]] for the prototype object.  The text is written as V8
    prints it; what is compared below is decided within the names. *)
Definition memberText (member : string) : string :=
  if bool_decide (member = "__proto__") then "[object Object]"
  else "function "
       +:+ (if bool_decide (member = "constructor") then "Object" else member)
       +:+ "() { [native code] }".

(** Values of type [any] (error details, custom data). *)
Inductive Json : Type :=
  | JNull
  | JBool (b : bool)
  | JNum (n : Z)
  | JStr (s : string)
  | JArr (items : list Json)
  | JObj (fields : list (string * Json)).

(* ===================================================================== *)
(** ** types/index.ts                                                    *)
(* ===================================================================== *)

Module UserRole.
Definition USER := "user".
Definition PREMIUM := "premium".
Definition MODERATOR := "moderator".
Definition ADMIN := "admin".
Definition SUPER_ADMIN := "super_admin".
End UserRole.

Module Permission.
Definition READ_PROFILE := "read:profile".
Definition WRITE_PROFILE := "write:profile".
Definition READ_USERS := "read:users".
Definition WRITE_USERS := "write:users".
Definition MANAGE_ROLES := "manage:roles".
Definition ADMIN_ACCESS := "admin:access".
Definition SUPER_ADMIN_ACCESS := "super_admin:access".
End Permission.

Module AuthErrorCode.
Definition INVALID_CREDENTIALS := "INVALID_CREDENTIALS".
Definition TOKEN_EXPIRED := "TOKEN_EXPIRED".
Definition INSUFFICIENT_PERMISSIONS := "INSUFFICIENT_PERMISSIONS".
Definition NETWORK_ERROR := "NETWORK_ERROR".
Definition VALIDATION_ERROR := "VALIDATION_ERROR".
Definition USER_NOT_FOUND := "USER_NOT_FOUND".
Definition EMAIL_ALREADY_EXISTS := "EMAIL_ALREADY_EXISTS".
Definition UNKNOWN_ERROR := "UNKNOWN_ERROR".

(** The members of the enum, in declaration order. *)
Definition taxonomy : list string :=
  [ INVALID_CREDENTIALS; TOKEN_EXPIRED; INSUFFICIENT_PERMISSIONS;
    NETWORK_ERROR; VALIDATION_ERROR; USER_NOT_FOUND;
    EMAIL_ALREADY_EXISTS; UNKNOWN_ERROR ].
End AuthErrorCode.

Record UserMetadata : Type := {
  createdAt : Z;
  updatedAt : Z;
  lastLoginAt : option Z;
  loginCount : Z;
  emailVerified : bool;
  phoneVerified : bool
}.

Record Notifications : Type := {
  notify_email : bool;
  notify_push : bool;
  notify_sms : bool
}.

Record Preferences : Type := {
  language : string;
  timezone : string;
  notifications : Notifications
}.

(** The role is a string at run time: the server may send a value outside
    the [UserRole] enum.  [permissions] may be missing, which the gate
    guards against with [user.permissions || []]. *)
Record User : Type := {
  uid : string;
  email : string;
  displayName : option string;
  photoURL : option string;
  phone : option string;
  role : string;
  permissions : option (list string);
  isActive : bool;
  metadata : UserMetadata;
  preferences : Preferences;
  customData : list (string * Json)
}.

Record AuthState : Type := {
  user : option User;
  token : option string;
  refreshToken : option string;
  loading : bool;
  error : option string;
  isAuthenticated : bool;
  isAdmin : bool;
  isSuperAdmin : bool
}.

(** The value found under [code] of an error object: declared to be an
    [AuthErrorCode], at run time whatever [mapErrorCode] returned, which is
    one of these strings or a member its table inherits. *)
Inductive Code : Type :=
  | CodeString (s : string)
  | CodeMember (member : string).

Coercion CodeString : string >-> Code.

Record AuthError : Type := {
  code : Code;
  message : string;
  details : option Json
}.

(* ===================================================================== *)
(** ** components/ProtectedRoute                                         *)
(* ===================================================================== *)

Module ProtectedRouteM.

(** What the component renders. *)
Inductive Rendered : Type :=
  | LoadingView          (* <div>Loading...</div> *)
  | FallbackView         (* the fallback prop *)
  | RoleDenied           (* "You don't have permission to access this page." *)
  | PermissionsDenied    (* "You don't have the required permissions ..." *)
  | Children.

(** The own properties of the literal [roleHierarchy]. *)
Definition roleHierarchy : gmap string nat :=
  list_to_map
    [ (UserRole.USER, 1); (UserRole.PREMIUM, 2); (UserRole.MODERATOR, 3);
      (UserRole.ADMIN, 4); (UserRole.SUPER_ADMIN, 5) ].

(** The value of [roleHierarchy[r] || 0]: a number, or the inherited member
    the lookup found, which is truthy and so survives the [||]. *)
Inductive Level : Type :=
  | Num (n : nat)
  | Obj (member : string).

(** [roleHierarchy[r] || 0] *)
Definition roleLevel (r : string) : Level :=
  match property roleHierarchy r with
  | Own n => Num (or_num (Some n) 0)
  | Inherited member => Obj member
  | Undefined => Num 0
  end.

(** [a < b] on two such values.  Two numbers compare as numbers.  An object
    is first converted to a primitive, here a string: against a number that
    string converts to NaN and the comparison is false; two strings compare
    by code units. *)
Definition lessThan (a b : Level) : bool :=
  match a, b with
  | Num x, Num y => x <? y
  | Obj x, Obj y => String.ltb (memberText x) (memberText y)
  | Num _, Obj _ | Obj _, Num _ => false
  end.

(** [userPermissions.includes(permission)] *)
Definition includes (l : list string) (p : string) : bool :=
  existsb (fun q => bool_decide (q = p)) l.

(** [requiredPermissions.every(p => userPermissions.includes(p))] *)
Definition every_included (required userPermissions : list string) : bool :=
  forallb (includes userPermissions) required.

Definition ProtectedRoute (auth : AuthState)
    (requiredRole : option string)
    (requiredPermissions : option (list string)) : Rendered :=
  if loading auth then LoadingView
  else
    match isAuthenticated auth, user auth with
    | true, Some u =>
        let role_ok :=
          match requiredRole with
          | Some required =>
              if truthy requiredRole && negb (bool_decide (role u = required))
              then
                let userRoleLevel := roleLevel (role u) in
                let requiredRoleLevel := roleLevel required in
                negb (lessThan userRoleLevel requiredRoleLevel)
              else true
          | None => true
          end in
        if negb role_ok then RoleDenied
        else
          match requiredPermissions with
          | Some required =>
              if 0 <? length required then
                let userPermissions := default [] (permissions u) in
                if every_included required userPermissions
                then Children else PermissionsDenied
              else Children
          | None => Children
          end
    | _, _ => FallbackView
    end.

End ProtectedRouteM.

(* ===================================================================== *)
(** ** providers/AuthProvider.tsx: the reducer                           *)
(* ===================================================================== *)

Module Store.

Inductive AuthAction : Type :=
  | SET_LOADING (payload : bool)
  | SET_USER (payload : option User)
  | SET_TOKEN (payload : option string)
  | SET_REFRESH_TOKEN (payload : option string)
  | SET_ERROR (payload : option string)
  | CLEAR_ERROR
  | LOGOUT.

Definition initialState : AuthState := {|
  user := None;
  token := None;
  refreshToken := None;
  loading := true;
  error := None;
  isAuthenticated := false;
  isAdmin := false;
  isSuperAdmin := false
|}.

(** [user?.role === r] *)
Definition role_is (u : option User) (r : string) : bool :=
  match u with
  | Some v => bool_decide (role v = r)
  | None => false
  end.

Definition authReducer (state : AuthState) (action : AuthAction) : AuthState :=
  match action with
  | SET_LOADING payload =>
      {| user := user state; token := token state;
         refreshToken := refreshToken state;
         loading := payload;
         error := error state;
         isAuthenticated := isAuthenticated state;
         isAdmin := isAdmin state;
         isSuperAdmin := isSuperAdmin state |}
  | SET_USER payload =>
      let u := payload in
      {| user := u; token := token state;
         refreshToken := refreshToken state;
         loading := false;
         error := None;
         isAuthenticated := match u with Some _ => true | None => false end;
         isAdmin := role_is u UserRole.ADMIN
                    || role_is u UserRole.SUPER_ADMIN || false;
         isSuperAdmin := role_is u UserRole.SUPER_ADMIN || false |}
  | SET_TOKEN payload =>
      {| user := user state; token := payload;
         refreshToken := refreshToken state;
         loading := loading state;
         error := error state;
         isAuthenticated := isAuthenticated state;
         isAdmin := isAdmin state;
         isSuperAdmin := isSuperAdmin state |}
  | SET_REFRESH_TOKEN payload =>
      {| user := user state; token := token state;
         refreshToken := payload;
         loading := loading state;
         error := error state;
         isAuthenticated := isAuthenticated state;
         isAdmin := isAdmin state;
         isSuperAdmin := isSuperAdmin state |}
  | SET_ERROR payload =>
      {| user := user state; token := token state;
         refreshToken := refreshToken state;
         loading := false;
         error := payload;
         isAuthenticated := isAuthenticated state;
         isAdmin := isAdmin state;
         isSuperAdmin := isSuperAdmin state |}
  | CLEAR_ERROR =>
      {| user := user state; token := token state;
         refreshToken := refreshToken state;
         loading := loading state;
         error := None;
         isAuthenticated := isAuthenticated state;
         isAdmin := isAdmin state;
         isSuperAdmin := isSuperAdmin state |}
  | LOGOUT =>
      {| user := user initialState; token := token initialState;
         refreshToken := refreshToken initialState;
         loading := false;
         error := error initialState;
         isAuthenticated := isAuthenticated initialState;
         isAdmin := isAdmin initialState;
         isSuperAdmin := isSuperAdmin initialState |}
  end.

(** A sequence of [dispatch] calls. *)
Definition dispatchAll (state : AuthState) (actions : list AuthAction) : AuthState :=
  fold_left authReducer actions state.

(** The store invariant relating the cached flags to [user]. *)
Definition flags_consistent (s : AuthState) : Prop :=
  (isAuthenticated s = true <-> user s <> None)
  /\ (isAdmin s = true -> isAuthenticated s = true)
  /\ (isSuperAdmin s = true -> isAdmin s = true).

End Store.

(* ===================================================================== *)
(** ** services/api.service.ts                                           *)
(* ===================================================================== *)

Module Api.

Record SdkConfig : Type := {
  apiUrl : string;
  tokenStorageKey : option string;
  refreshTokenStorageKey : option string;
  autoRefresh : option bool;
  onTokenExpired : bool   (* is a callback registered? *)
}.

(** *** The response envelope ([ApiResponse]) *)

Record ApiErrorBody : Type := {
  err_code : string;
  err_message : string;
  err_details : option Json
}.

Record Pagination : Type := {
  page : Z;
  limit : Z;
  total : Z;
  totalPages : Z
}.

(** [response.data.data]: an object with some of the fields [token],
    [refreshToken], [user], or a user record itself (profile calls). *)
Inductive Payload : Type :=
  | Fields (token : option string) (refreshToken : option string)
           (user : option User)
  | Profile (u : User).

Definition data_token (d : Payload) : option string :=
  match d with Fields t _ _ => t | Profile _ => None end.
Definition data_refreshToken (d : Payload) : option string :=
  match d with Fields _ r _ => r | Profile _ => None end.
Definition data_user (d : Payload) : option User :=
  match d with Fields _ _ u => u | Profile _ => None end.

Record ApiResponse : Type := {
  success : bool;
  data : option Payload;
  resp_message : option string;
  resp_error : option ApiErrorBody;
  pagination : option Pagination
}.

(** *** Requests and what the transport makes of them *)

Inductive HttpMethod : Type := GET | POST | PATCH | DELETE.

Record RegisterData : Type := {
  reg_email : string;
  reg_password : string;
  reg_displayName : option string;
  reg_role : option string;
  reg_customData : option (list (string * Json))
}.

Inductive Body : Type :=
  | NoBody
  | RegisterBody (userData : RegisterData)
  | LoginBody (email password : string)
  | FirebaseBody (idToken : string)
  | RefreshBody (refreshToken : option string).

(** An axios request config; [_retry] is the mark the response
    interceptor leaves on a config it has already retried. *)
Record Request : Type := {
  method : HttpMethod;
  url : string;
  body : Body;
  Authorization : option string;
  _retry : bool
}.

(** What comes back for one request: an HTTP response, no response at all
    (connectivity, timeout), or a request that could not be sent. *)
Inductive TransportResult : Type :=
  | Replied (status : Z) (envelope : ApiResponse)
  | NoReply
  | NotSent (msg : option string).

(** The error object axios rejects with: [error.response] set,
    only [error.request] set, or neither. *)
Inductive AxiosError : Type :=
  | ErrResponse (status : Z) (envelope : ApiResponse)
  | ErrRequest
  | ErrSetup (msg : option string).

(** axios' default [validateStatus]: 2xx resolves, anything else rejects. *)
Definition settle (r : TransportResult) : ApiResponse + AxiosError :=
  match r with
  | Replied status envelope =>
      if ((200 <=? status) && (status <? 300))%Z then inl envelope
      else inr (ErrResponse status envelope)
  | NoReply => inr ErrRequest
  | NotSent msg => inr (ErrSetup msg)
  end.

(** *** Thrown values and settled promises *)

Inductive Thrown : Type :=
  | ThrownAuthError (e : AuthError)   (* the object built by [handleError] *)
  | ThrownError (msg : string)        (* [new Error(msg)] *)
  | ThrownTypeError.                  (* property access on [undefined] *)

Definition typeErrorMessage : string := "Cannot read properties of undefined".

(** [thrown.message] *)
Definition thrown_message (t : Thrown) : string :=
  match t with
  | ThrownAuthError e => message e
  | ThrownError msg => msg
  | ThrownTypeError => typeErrorMessage
  end.

(** The settled result of an awaited [this.api(...)] call. *)
Inductive ApiOutcome : Type :=
  | Fulfilled (response : ApiResponse)
  | Rejected (t : Thrown).

Inductive Result : Type :=
  | RSession (user : option User) (token refreshToken : option string)
  | RUser (u : option User)
  | RBool (b : bool)
  | RVoid
  | RData (d : option Payload).

Inductive Settled : Type :=
  | Resolved (r : Result)
  | Threw (t : Thrown).

(** *** Operations *)

(** Methods of [ApiService]. *)
Inductive ServiceMethod : Type :=
  | register (userData : RegisterData)
  | login (email password : string)
  | loginWithFirebase (idToken : string)
  | refreshAccessToken
  | logout
  | verifyToken
  | getProfile.

(** Callbacks of [AuthProvider] that wrap a service method with
    [dispatch] calls. *)
Inductive ProviderMethod : Type :=
  | provider_login (email password : string)
  | provider_register (userData : RegisterData)
  | provider_logout
  | provider_refreshAccessToken.

Inductive Op : Type :=
  | Direct (m : ServiceMethod)
  | ViaProvider (p : ProviderMethod).

(** Who awaits a network call.  [Return call op]: the body of operation
    [op], started as call number [call].  [Intercept401 originalRequest
    error k]: [refreshAccessToken], itself awaited by the response
    interceptor that is handling [error] of [originalRequest]; what the
    interceptor returns settles [k]. *)
Inductive Cont : Type :=
  | Return (call : nat) (op : Op)
  | Intercept401 (originalRequest : Request) (error : AxiosError) (k : Cont).

(** The service instance, the browser storage, the session store, and the
    bookkeeping of the event loop. *)
Record World : Type := {
  this_config : SdkConfig;
  this_token : option string;
  this_refreshToken : option string;
  localStorage : gmap string string;
  store : AuthState;
  sent : list Request;                    (* every network call, in order *)
  pending : gmap nat (Request * Cont);    (* calls awaiting their response *)
  nextRequest : nat;
  nextCall : nat;
  outcomes : list (nat * Op * Settled);   (* settled operations, in order *)
  tokenExpiredCalls : nat                 (* invocations of onTokenExpired *)
}.

(** Assign [this.token], [this.refreshToken] and the storage. *)
Definition with_credentials (t r : option string) (ls : gmap string string)
    (w : World) : World :=
  {| this_config := this_config w; this_token := t; this_refreshToken := r;
     localStorage := ls; store := store w; sent := sent w;
     pending := pending w; nextRequest := nextRequest w;
     nextCall := nextCall w; outcomes := outcomes w;
     tokenExpiredCalls := tokenExpiredCalls w |}.

(** Replace the reducer state. *)
Definition with_store (st : AuthState) (w : World) : World :=
  {| this_config := this_config w; this_token := this_token w;
     this_refreshToken := this_refreshToken w;
     localStorage := localStorage w; store := st; sent := sent w;
     pending := pending w; nextRequest := nextRequest w;
     nextCall := nextCall w; outcomes := outcomes w;
     tokenExpiredCalls := tokenExpiredCalls w |}.

(** [dispatch(a)] of [useReducer(authReducer, initialState)]. *)
Definition dispatch (a : Store.AuthAction) (w : World) : World :=
  with_store (Store.authReducer (store w) a) w.

(** [this.config.tokenStorageKey || 'spirit_ai_token'] and its sibling. *)
Definition tokenKey (w : World) : string :=
  or_str (tokenStorageKey (this_config w)) "spirit_ai_token".
Definition refreshTokenKey (w : World) : string :=
  or_str (refreshTokenStorageKey (this_config w)) "spirit_ai_refresh_token".

(** [String(v)] for a field read from a payload: a missing field is
    [undefined]. *)
Definition js_string (v : option string) : string :=
  match v with Some s => s | None => "undefined" end.

Definition saveTokensToStorage (t r : option string) (w : World) : World :=
  with_credentials t r
    (<[refreshTokenKey w := js_string r]>
       (<[tokenKey w := js_string t]> (localStorage w))) w.

Definition clearTokensFromStorage (w : World) : World :=
  with_credentials None None
    (delete (refreshTokenKey w) (delete (tokenKey w) (localStorage w))) w.

(** The constructor: [loadTokensFromStorage] on a fresh instance. *)
Definition newApiService (config : SdkConfig) (ls : gmap string string) : World :=
  {| this_config := config;
     this_token := ls !! or_str (tokenStorageKey config) "spirit_ai_token";
     this_refreshToken :=
       ls !! or_str (refreshTokenStorageKey config) "spirit_ai_refresh_token";
     localStorage := ls; store := Store.initialState; sent := [];
     pending := ∅; nextRequest := 0; nextCall := 0; outcomes := [];
     tokenExpiredCalls := 0 |}.

Definition getToken (w : World) : option string := this_token w.

(** *** Error normalisation *)

(** The own properties of the table local to [mapErrorCode]. *)
Definition codeMap : gmap string string :=
  list_to_map
    [ ("INVALID_CREDENTIALS", AuthErrorCode.INVALID_CREDENTIALS);
      ("TOKEN_EXPIRED", AuthErrorCode.TOKEN_EXPIRED);
      ("INSUFFICIENT_PERMISSIONS", AuthErrorCode.INSUFFICIENT_PERMISSIONS);
      ("VALIDATION_ERROR", AuthErrorCode.VALIDATION_ERROR);
      ("USER_NOT_FOUND", AuthErrorCode.USER_NOT_FOUND);
      ("EMAIL_ALREADY_EXISTS", AuthErrorCode.EMAIL_ALREADY_EXISTS) ].

(** [codeMap[code] || AuthErrorCode.UNKNOWN_ERROR]: an inherited member is
    truthy and is returned as it is. *)
Definition mapErrorCode (c : string) : Code :=
  match property codeMap c with
  | Own v => CodeString (or_str (Some v) AuthErrorCode.UNKNOWN_ERROR)
  | Inherited member => CodeMember member
  | Undefined => CodeString AuthErrorCode.UNKNOWN_ERROR
  end.

(** The three branches on [error.response], [error.request], neither. *)
Definition handleError (error : AxiosError) : AuthError :=
  match error with
  | ErrResponse _ data =>
      {| code := mapErrorCode
                   (or_str (err_code <$> resp_error data) "UNKNOWN_ERROR");
         message := or_str (resp_message data) "An error occurred";
         details := resp_error data ≫= err_details |}
  | ErrRequest =>
      {| code := AuthErrorCode.NETWORK_ERROR;
         message := "Network error occurred";
         details := None |}
  | ErrSetup msg =>
      {| code := AuthErrorCode.UNKNOWN_ERROR;
         message := or_str msg "Unknown error occurred";
         details := None |}
  end.

(** [error.response?.status === 401] *)
Definition is401 (error : AxiosError) : bool :=
  match error with
  | ErrResponse status _ => (status =? 401)%Z
  | _ => false
  end.

(** *** The axios instance: request interceptor and dispatch of a call *)

(** [`Bearer ${this.token}`].  The interceptors build it only from a truthy
    token or from the token a successful refresh has just assigned, which is
    [undefined] when the payload has none. *)
Definition bearer (t : option string) : string := "Bearer " +:+ js_string t.

(** [config.headers.Authorization = h] *)
Definition with_Authorization (h : option string) (config : Request) : Request :=
  {| method := method config; url := url config; body := body config;
     Authorization := h; _retry := _retry config |}.

(** [originalRequest._retry = true].  [this.api(originalRequest)] merges
    the config it is given, so the call issued again carries the mark. *)
Definition mark_retry (config : Request) : Request :=
  {| method := method config; url := url config; body := body config;
     Authorization := Authorization config; _retry := true |}.

(** The handler of [interceptors.request.use]. *)
Definition requestInterceptor (w : World) (config : Request) : Request :=
  if truthy (this_token w)
  then with_Authorization (Some (bearer (this_token w))) config
  else config.

(** [this.api(config)]: run the request interceptor, put the call on the
    wire and park its continuation until the response arrives. *)
Definition api (config : Request) (k : Cont) (w : World) : World :=
  let req := requestInterceptor w config in
  {| this_config := this_config w; this_token := this_token w;
     this_refreshToken := this_refreshToken w;
     localStorage := localStorage w; store := store w;
     sent := sent w ++ [req];
     pending := <[nextRequest w := (req, k)]> (pending w);
     nextRequest := S (nextRequest w);
     nextCall := nextCall w; outcomes := outcomes w;
     tokenExpiredCalls := tokenExpiredCalls w |}.

(** Call [id] is no longer awaiting its response. *)
Definition unpark (id : nat) (w : World) : World :=
  {| this_config := this_config w; this_token := this_token w;
     this_refreshToken := this_refreshToken w;
     localStorage := localStorage w; store := store w; sent := sent w;
     pending := delete id (pending w);
     nextRequest := nextRequest w;
     nextCall := nextCall w; outcomes := outcomes w;
     tokenExpiredCalls := tokenExpiredCalls w |}.

(** The promise returned to the caller of [op] settles with [s]. *)
Definition finish (call : nat) (op : Op) (s : Settled) (w : World) : World :=
  {| this_config := this_config w; this_token := this_token w;
     this_refreshToken := this_refreshToken w;
     localStorage := localStorage w; store := store w; sent := sent w;
     pending := pending w; nextRequest := nextRequest w;
     nextCall := nextCall w;
     outcomes := outcomes w ++ [(call, op, s)];
     tokenExpiredCalls := tokenExpiredCalls w |}.

(** A fresh number for the next operation called. *)
Definition next_call (w : World) : World :=
  {| this_config := this_config w; this_token := this_token w;
     this_refreshToken := this_refreshToken w;
     localStorage := localStorage w; store := store w; sent := sent w;
     pending := pending w; nextRequest := nextRequest w;
     nextCall := S (nextCall w); outcomes := outcomes w;
     tokenExpiredCalls := tokenExpiredCalls w |}.

(** [if (this.config.onTokenExpired) this.config.onTokenExpired()] *)
Definition notifyTokenExpired (w : World) : World :=
  if onTokenExpired (this_config w) then
    {| this_config := this_config w; this_token := this_token w;
       this_refreshToken := this_refreshToken w;
       localStorage := localStorage w; store := store w; sent := sent w;
       pending := pending w; nextRequest := nextRequest w;
       nextCall := nextCall w; outcomes := outcomes w;
       tokenExpiredCalls := S (tokenExpiredCalls w) |}
  else w.

(** *** Service methods, split at their single [await] *)

(** The config that [this.api.get/post(u, b)] starts from. *)
Definition request (m : HttpMethod) (u : string) (b : Body) : Request :=
  {| method := m; url := u; body := b; Authorization := None; _retry := false |}.

Inductive Started : Type :=
  | Awaiting (config : Request)   (* reached the [await this.api...] *)
  | Finished (s : Settled).       (* settled before any network call *)

(** The body of each method up to its [await]: the guard, if it has one,
    and the call it makes. *)
Definition start (m : ServiceMethod) (w : World) : Started :=
  match m with
  | register userData =>
      Awaiting (request POST "/api/auth/register" (RegisterBody userData))
  | login email password =>
      Awaiting (request POST "/api/auth/login" (LoginBody email password))
  | loginWithFirebase idToken =>
      Awaiting (request POST "/api/auth/login/firebase" (FirebaseBody idToken))
  | refreshAccessToken =>
      if negb (truthy (this_refreshToken w))
      then Finished (Threw (ThrownError "No refresh token available"))
      else Awaiting (request POST "/api/auth/refresh"
                       (RefreshBody (this_refreshToken w)))
  | logout => Awaiting (request POST "/api/auth/logout" NoBody)
  | verifyToken =>
      if negb (truthy (this_token w))
      then Finished (Resolved (RUser None))
      else Awaiting (request GET "/api/auth/verify" NoBody)
  | getProfile => Awaiting (request GET "/api/users/profile" NoBody)
  end.

(** The common tail of [register], [login] and [loginWithFirebase]. *)
Definition session_resume (fallback : string) (o : ApiOutcome) (w : World)
    : World * Settled :=
  match o with
  | Fulfilled response =>
      if success response then
        match data response with
        | Some d =>
            (saveTokensToStorage (data_token d) (data_refreshToken d) w,
             Resolved (RSession (data_user d) (data_token d)
                                (data_refreshToken d)))
        | None => (w, Threw ThrownTypeError)
        end
      else (w, Threw (ThrownError (or_str (resp_message response) fallback)))
  | Rejected t => (w, Threw t)
  end.

(** The body of each method from its [await] on, given how the awaited
    call settled: the new state and what the method returns or throws. *)
Definition resume (m : ServiceMethod) (o : ApiOutcome) (w : World)
    : World * Settled :=
  match m with
  | register _ => session_resume "Registration failed" o w
  | login _ _ => session_resume "Login failed" o w
  | loginWithFirebase _ => session_resume "Firebase login failed" o w
  | refreshAccessToken =>
      match o with
      | Fulfilled response =>
          if success response then
            match data response with
            | Some d =>
                (with_credentials (data_token d) (this_refreshToken w)
                   (<[tokenKey w := js_string (data_token d)]> (localStorage w))
                   w,
                 Resolved (RBool true))
            | None => (w, Threw ThrownTypeError)
            end
          else (clearTokensFromStorage w, Resolved (RBool false))
      | Rejected t => (w, Threw t)
      end
  | logout =>
      (* try { await post } catch { }  then clear *)
      (clearTokensFromStorage w, Resolved RVoid)
  | verifyToken =>
      match o with
      | Fulfilled response =>
          if success response then
            match data response with
            | Some d => (w, Resolved (RUser (data_user d)))
            | None => (clearTokensFromStorage w, Resolved (RUser None))
            end
          else (w, Resolved (RUser None))
      | Rejected _ => (clearTokensFromStorage w, Resolved (RUser None))
      end
  | getProfile =>
      match o with
      | Fulfilled response =>
          if success response then (w, Resolved (RData (data response)))
          else (w, Threw (ThrownError
                            (or_str (resp_message response)
                                    "Failed to get profile")))
      | Rejected t => (w, Threw t)
      end
  end.

(** *** Provider callbacks around a service method *)

Definition service_of (p : ProviderMethod) : ServiceMethod :=
  match p with
  | provider_login email password => login email password
  | provider_register userData => register userData
  | provider_logout => logout
  | provider_refreshAccessToken => refreshAccessToken
  end.

(** Dispatches made before the service method is called. *)
Definition before (p : ProviderMethod) (w : World) : World :=
  match p with
  | provider_login _ _ | provider_register _ =>
      dispatch Store.CLEAR_ERROR (dispatch (Store.SET_LOADING true) w)
  | provider_logout | provider_refreshAccessToken => w
  end.

Definition session_after (fallback : string) (s : Settled) (w : World)
    : World * Settled :=
  let failed t :=
    (dispatch (Store.SET_ERROR
                 (Some (or_str (Some (thrown_message t)) fallback))) w,
     Resolved (RBool false)) in
  match s with
  | Resolved (RSession u t r) =>
      (dispatch (Store.SET_REFRESH_TOKEN r)
         (dispatch (Store.SET_TOKEN t) (dispatch (Store.SET_USER u) w)),
       Resolved (RBool true))
  | Resolved _ => failed ThrownTypeError
  | Threw t => failed t
  end.

(** Dispatches made once the service method has settled with [s]. *)
Definition after (p : ProviderMethod) (s : Settled) (w : World)
    : World * Settled :=
  match p with
  | provider_login _ _ => session_after "Login failed" s w
  | provider_register _ => session_after "Registration failed" s w
  | provider_logout =>
      (* catch logs to the console; finally dispatches *)
      (dispatch Store.LOGOUT w, Resolved RVoid)
  | provider_refreshAccessToken =>
      match s with
      | Resolved (RBool true) =>
          (dispatch (Store.SET_TOKEN (getToken w)) w, Resolved (RBool true))
      | _ => (dispatch Store.LOGOUT w, Resolved (RBool false))
      end
  end.

(** The awaited call of operation [op] has settled with [o]: run the rest
    of its body and record what the caller gets. *)
Definition complete (call : nat) (op : Op) (o : ApiOutcome) (w : World) : World :=
  match op with
  | Direct m =>
      let '(w1, s) := resume m o w in finish call op s w1
  | ViaProvider p =>
      let '(w1, s) := resume (service_of p) o w in
      let '(w2, s') := after p s w1 in
      finish call op s' w2
  end.

(** *** The response interceptor *)

(** The rejection branch after [await this.refreshAccessToken()] has
    settled with [s]; [settle_k] settles the promise the interceptor
    returned for [originalRequest]. *)
Definition afterRefresh (settle_k : ApiOutcome -> World -> World)
    (originalRequest : Request) (error : AxiosError) (k : Cont)
    (s : Settled) (w : World) : World :=
  match s with
  | Resolved (RBool true) =>
      api (with_Authorization (Some (bearer (this_token w))) originalRequest) k w
  | Resolved _ =>
      settle_k (Rejected (ThrownAuthError (handleError error))) w
  | Threw _ =>
      settle_k (Rejected (ThrownAuthError (handleError error)))
               (notifyTokenExpired (clearTokensFromStorage w))
  end.

(** A network call awaited by [k] has settled with [o]. *)
Fixpoint resumeCall (k : Cont) (o : ApiOutcome) (w : World) : World :=
  match k with
  | Return call op => complete call op o w
  | Intercept401 originalRequest error k' =>
      let '(w1, s) := resume refreshAccessToken o w in
      afterRefresh (resumeCall k') originalRequest error k' s w1
  end.

(** The rejected handler of [interceptors.response.use]. *)
Definition onRejected (config : Request) (error : AxiosError) (k : Cont)
    (w : World) : World :=
  if is401 error && truthy (this_refreshToken w) && negb (_retry config) then
    let originalRequest := mark_retry config in
    match start refreshAccessToken w with
    | Awaiting refresh => api refresh (Intercept401 originalRequest error k) w
    | Finished s => afterRefresh (resumeCall k) originalRequest error k s w
    end
  else resumeCall k (Rejected (ThrownAuthError (handleError error))) w.

Definition responseInterceptor (config : Request) (r : TransportResult)
    (k : Cont) (w : World) : World :=
  match settle r with
  | inl response => resumeCall k (Fulfilled response) w
  | inr error => onRejected config error k w
  end.

(** *** The event loop *)

(** Calling an operation runs it up to its first [await]. *)
Definition invoke (op : Op) (w : World) : World :=
  let call := nextCall w in
  let w0 := next_call w in
  match op with
  | Direct m =>
      match start m w0 with
      | Awaiting config => api config (Return call op) w0
      | Finished s => finish call op s w0
      end
  | ViaProvider p =>
      let w1 := before p w0 in
      match start (service_of p) w1 with
      | Awaiting config => api config (Return call op) w1
      | Finished s => let '(w2, s') := after p s w1 in finish call op s' w2
      end
  end.

(** The response to network call [id] arrives. *)
Definition deliver (id : nat) (r : TransportResult) (w : World) : World :=
  match pending w !! id with
  | Some (config, k) => responseInterceptor config r k (unpark id w)
  | None => w
  end.

Inductive Event : Type :=
  | Call (op : Op)
  | Reply (id : nat) (r : TransportResult).

Definition step (w : World) (e : Event) : World :=
  match e with
  | Call op => invoke op w
  | Reply id r => deliver id r w
  end.

Definition run (events : list Event) (w : World) : World :=
  fold_left step events w.

(** *** Observations on a world *)

Definition is_refresh (config : Request) : bool :=
  bool_decide (url config = "/api/auth/refresh").

(** Number of refresh calls put on the wire so far. *)
Definition refreshCalls (w : World) : nat :=
  length (filter (fun c => is_refresh c = true) (sent w)).

Definition outcome_of (call : nat) (w : World) : option Settled :=
  match list_find (fun e => fst (fst e) = call) (outcomes w) with
  | Some (_, (_, _, s)) => Some s
  | None => None
  end.

Definition credentials_cleared (w : World) : Prop :=
  this_token w = None /\ this_refreshToken w = None
  /\ localStorage w !! tokenKey w = None
  /\ localStorage w !! refreshTokenKey w = None.

End Api.

(* ===================================================================== *)
(** ** providers/AuthProvider.tsx: initialisation on mount               *)
(* ===================================================================== *)

Module Provider.
Import Api.




End Provider.

(* ===================================================================== *)
(** ** components/RegisterForm and components/LoginForm: validation      *)
(* ===================================================================== *)

(** Strings are sequences of one-unit characters with codes below 256, so
    [s.length] is [String.length s]; of the line terminators that the
    regular-expression dot excludes, line feed and carriage return are in
    this alphabet. *)
Module Forms.
Import Stdlib.Strings.Ascii.

(** [s.includes(c)] for a needle of one character. *)
Fixpoint includes_char (c : ascii) (s : string) : bool :=
  match s with
  | EmptyString => false
  | String a rest => bool_decide (a = c) || includes_char c rest
  end.

Definition between (lo hi : nat) (c : ascii) : bool :=
  (lo <=? nat_of_ascii c) && (nat_of_ascii c <=? hi).

(** [[a-z]], [[A-Z]], [\d], [[@$!%*?&]] *)
Definition lower (c : ascii) : bool := between 97 122 c.
Definition upper (c : ascii) : bool := between 65 90 c.
Definition digit (c : ascii) : bool := between 48 57 c.
Definition special (c : ascii) : bool := includes_char c "@$!%*?&".

(** [[A-Za-z\d@$!%*?&]] *)
Definition allowed (c : ascii) : bool :=
  upper c || lower c || digit c || special c.

(** What [.] does not match. *)
Definition lineTerminator (c : ascii) : bool :=
  (nat_of_ascii c =? 10) || (nat_of_ascii c =? 13).

(** [(?=.*[cls])] at the start of [s]: some character of the class is
    reached from the start across characters that [.] matches. *)
Fixpoint lookahead (cls : ascii -> bool) (s : string) : bool :=
  match s with
  | EmptyString => false
  | String c rest => cls c || (negb (lineTerminator c) && lookahead cls rest)
  end.

(** [passwordRegex.test(password)] for
    [/^(?=.*[a-z])(?=.*[A-Z])(?=.*\d)(?=.*[@$!%*?&])[A-Za-z\d@$!%*?&]/]:
    four lookaheads at position 0, then one character of the class. *)
Definition passwordRegex_test (password : string) : bool :=
  lookahead lower password && lookahead upper password
  && lookahead digit password && lookahead special password
  && match password with
     | String c _ => allowed c
     | EmptyString => false
     end.

(** [!s] for a string. *)
Definition blank (s : string) : bool := bool_decide (s = "").

(** The state of [RegisterForm]. *)
Record FormData : Type := {
  email : string;
  password : string;
  confirmPassword : string;
  displayName : string
}.

(** [validateForm] of [RegisterForm]: the first failing check names the
    error, [None] is [null]. *)
Definition validateForm (formData : FormData) : option string :=
  if blank (email formData) || blank (password formData)
     || blank (displayName formData)
  then Some "Please fill in all required fields"
  else if negb (includes_char "@" (email formData))
  then Some "Please enter a valid email address"
  else if String.length (password formData) <? 8
  then Some "Password must be at least 8 characters long"
  else if negb (bool_decide (password formData = confirmPassword formData))
  then Some "Passwords do not match"
  else if negb (passwordRegex_test (password formData))
  then Some "Password must contain at least one uppercase letter, one lowercase letter, one number, and one special character"
  else None.

(** [handleSubmit] of [RegisterForm] up to its [await]: either the local
    error it shows (and passes to [onError]), or the data it calls
    [register] with. *)
Definition register_handleSubmit (formData : FormData) (defaultRole : string)
    : string + Api.RegisterData :=
  match validateForm formData with
  | Some validationError => inl validationError
  | None =>
      inr {| Api.reg_email := email formData;
             Api.reg_password := password formData;
             Api.reg_displayName := Some (displayName formData);
             Api.reg_role := Some defaultRole;
             Api.reg_customData := None |}
  end.

(** [handleSubmit] of [LoginForm] up to its [await]: either the local error,
    or the pair it calls [login] with. *)
Definition login_handleSubmit (email password : string)
    : string + (string * string) :=
  if blank email || blank password then inl "Please fill in all fields"
  else if negb (includes_char "@" email)
  then inl "Please enter a valid email address"
  else inr (email, password).

End Forms.

(* ===================================================================== *)
(** ** hooks/useUsers: the list state behind the users table             *)
(* ===================================================================== *)

Module UseUsers.
Import Api.

(** The four [useState] cells of the hook. *)
Record State : Type := {
  users : list User;
  loading : bool;
  error : option string;
  pagination : Pagination
}.

Definition initial : State := {|
  users := [];
  loading := false;
  error := None;
  pagination := {| page := 1; limit := 20; total := 0; totalPages := 0 |}
|}.

Definition setUsers (f : list User -> list User) (st : State) : State :=
  {| users := f (users st); loading := loading st; error := error st;
     pagination := pagination st |}.
Definition setLoading (b : bool) (st : State) : State :=
  {| users := users st; loading := b; error := error st;
     pagination := pagination st |}.
Definition setError (e : option string) (st : State) : State :=
  {| users := users st; loading := loading st; error := e;
     pagination := pagination st |}.
Definition setPagination (p : Pagination) (st : State) : State :=
  {| users := users st; loading := loading st; error := error st;
     pagination := p |}.

(** The settled result of the awaited service call. *)
Inductive Awaited (A : Type) : Type :=
  | Returned (a : A)
  | Failed (t : Thrown).
Arguments Returned {A} a.
Arguments Failed {A} t.

(** A callback up to its [await]: it stopped at the token guard, or it made
    its service call. *)
Inductive Entered : Type :=
  | Refused (st : State)
  | Called (st : State).

(** [authError.message || fallback] *)
Definition failure_message (t : Thrown) (fallback : string) : string :=
  or_str (Some (thrown_message t)) fallback.

(** [fetchUsers] and [searchUsers] up to the [await]. *)
Definition enter_loading (token : option string) (st : State) : Entered :=
  if negb (truthy token)
  then Refused (setError (Some "Authentication required") st)
  else Called (setError None (setLoading true st)).

(** [updateUser], [changeUserRole] and [deleteUser] up to the [await]. *)
Definition enter (token : option string) (st : State) : Entered :=
  if negb (truthy token)
  then Refused (setError (Some "Authentication required") st)
  else Called (setError None st).

(** [fetchUsers] from the [await] on. *)
Definition fetchUsers_resume (result : Awaited (list User * Pagination))
    (st : State) : State :=
  setLoading false
    match result with
    | Returned (us, p) => setPagination p (setUsers (fun _ => us) st)
    | Failed t => setError (Some (failure_message t "Failed to fetch users")) st
    end.

(** [searchUsers] from the [await] on. *)
Definition searchUsers_resume (result : Awaited (list User)) (st : State)
    : State :=
  setLoading false
    match result with
    | Returned us =>
        setPagination
          {| page := 1; limit := Z.of_nat (length us);
             total := Z.of_nat (length us); totalPages := 1 |}
          (setUsers (fun _ => us) st)
    | Failed t => setError (Some (failure_message t "Failed to search users")) st
    end.

(** [updateUser(uid, data)] from the [await] on, with what it returns. *)
Definition updateUser_resume (id : string) (result : Awaited User) (st : State)
    : State * bool :=
  match result with
  | Returned updatedUser =>
      (setUsers
         (map (fun u => if bool_decide (uid u = id) then updatedUser else u))
         st,
       true)
  | Failed t =>
      (setError (Some (failure_message t "Failed to update user")) st, false)
  end.

(** [{ ...user, role }] *)
Definition with_role (r : string) (u : User) : User :=
  {| uid := uid u; email := email u; displayName := displayName u;
     photoURL := photoURL u; phone := phone u; role := r;
     permissions := permissions u; isActive := isActive u;
     metadata := metadata u; preferences := preferences u;
     customData := customData u |}.

(** [changeUserRole(uid, role)] from the [await] on. *)
Definition changeUserRole_resume (id : string) (r : string)
    (result : Awaited unit) (st : State) : State * bool :=
  match result with
  | Returned _ =>
      (setUsers
         (map (fun u => if bool_decide (uid u = id) then with_role r u else u))
         st,
       true)
  | Failed t =>
      (setError (Some (failure_message t "Failed to change user role")) st,
       false)
  end.

(** [deleteUser(uid)] from the [await] on. *)
Definition deleteUser_resume (id : string) (result : Awaited unit) (st : State)
    : State * bool :=
  match result with
  | Returned _ =>
      (setUsers (List.filter (fun u => negb (bool_decide (uid u = id)))) st,
       true)
  | Failed t =>
      (setError (Some (failure_message t "Failed to delete user")) st, false)
  end.

End UseUsers.

(* ===================================================================== *)
(** * Vocabulary of the statements                                       *)
(* ===================================================================== *)

(** Concrete data used to exercise the statements. *)
Module Sample.

Definition someUser (r : string) (ps : list string) : User := {|
  uid := "u1"; email := "a@b.com"; displayName := Some "A"; photoURL := None;
  phone := None; role := r; permissions := Some ps; isActive := true;
  metadata := {| createdAt := 0; updatedAt := 0; lastLoginAt := None;
                 loginCount := 1; emailVerified := true;
                 phoneVerified := false |};
  preferences := {| language := "en"; timezone := "UTC";
                    notifications := {| notify_email := true;
                                        notify_push := false;
                                        notify_sms := false |} |};
  customData := []
|}.

Definition moderator : User :=
  someUser UserRole.MODERATOR [Permission.READ_PROFILE; Permission.READ_USERS].

Definition signedIn (u : User) : AuthState :=
  Store.authReducer Store.initialState (Store.SET_USER (Some u)).

End Sample.

(** Configurations, storage contents and server answers used as concrete
    inputs. *)
Module SampleApi.
Import Api.

Definition config : SdkConfig := {|
  apiUrl := "https://auth.example";
  tokenStorageKey := None;
  refreshTokenStorageKey := None;
  autoRefresh := None;
  onTokenExpired := true
|}.

(** Storage left behind by an earlier session. *)
Definition storage : gmap string string :=
  <["spirit_ai_token" := "old"]> (<["spirit_ai_refresh_token" := "r"]> ∅).

(** A service constructed over that storage: token and refresh token loaded. *)
Definition service : World := newApiService config storage.

(** A service constructed over empty storage. *)
Definition anonymous : World := newApiService config ∅.

Definition envelope (ok : bool) (d : option Payload) (msg : option string)
    (e : option ApiErrorBody) : ApiResponse :=
  {| success := ok; data := d; resp_message := msg; resp_error := e;
     pagination := None |}.

(** The envelope of an expired access token. *)
Definition expired : ApiResponse :=
  envelope false None (Some "jwt expired")
    (Some {| err_code := "TOKEN_EXPIRED"; err_message := "jwt expired";
             err_details := None |}).

Definition unauthorized : TransportResult := Replied 401 expired.

Definition forbidden : TransportResult :=
  Replied 403
    (envelope false None (Some "refresh token revoked")
       (Some {| err_code := "TOKEN_EXPIRED";
                err_message := "refresh token revoked";
                err_details := None |})).

(** A refusal stated in the envelope. *)
Definition refusal (msg : string) (c : string) : ApiResponse :=
  envelope false None (Some msg)
    (Some {| err_code := c; err_message := msg; err_details := None |}).

(** HTTP 200 carrying a refusal in the envelope. *)
Definition refused (msg : string) (c : string) : TransportResult :=
  Replied 200 (refusal msg c).

Definition refreshed (t : string) : TransportResult :=
  Replied 200 (envelope true (Some (Fields (Some t) None None)) None None).

Definition registration : RegisterData := {|
  reg_email := "a@b.com"; reg_password := "Secret1!";
  reg_displayName := Some "A"; reg_role := None; reg_customData := None
|}.

Definition session (u : User) (t r : string) : TransportResult :=
  Replied 200
    (envelope true (Some (Fields (Some t) (Some r) (Some u))) None None).

End SampleApi.

Section Vocabulary.
Import Api.

(** The gate has got past the loading and authentication checks with
    user [u]. *)
Definition signed_in (auth : AuthState) (u : User) : Prop :=
  loading auth = false /\ isAuthenticated auth = true /\ user auth = Some u.

(** The level of a role in the hierarchy of the gate: the number
    [roleHierarchy] stores for it, 0 for a string it has no entry for. *)
Definition rank (r : string) : nat :=
  or_num (ProtectedRouteM.roleHierarchy !! r) 0.

(** The server codes that [codeMap] has an entry for. *)
Definition mappedCodes : list string :=
  [ "INVALID_CREDENTIALS"; "TOKEN_EXPIRED"; "INSUFFICIENT_PERMISSIONS";
    "VALIDATION_ERROR"; "USER_NOT_FOUND"; "EMAIL_ALREADY_EXISTS" ].

(** The code the server put in the envelope of a failed call, if any. *)
Definition serverCode (error : AxiosError) : option string :=
  match error with
  | ErrResponse _ envelope => err_code <$> resp_error envelope
  | ErrRequest | ErrSetup _ => None
  end.

(** An [AuthError] that is thrown is one that [handleError] built. *)
Definition thrown_ok (t : Thrown) : Prop :=
  match t with
  | ThrownAuthError e => exists error, e = handleError error
  | ThrownError _ | ThrownTypeError => True
  end.

(** The same for the settled result of an awaited call. *)
Definition outcome_ok (o : ApiOutcome) : Prop :=
  match o with
  | Rejected t => thrown_ok t
  | Fulfilled _ => True
  end.

(** Per operation: which settlements its caller can observe. *)
Definition settled_ok (op : Op) (s : Settled) : Prop :=
  match s with
  | Threw t =>
      thrown_ok t
      /\ match op with
         | Direct logout | Direct verifyToken | ViaProvider _ => False
         | Direct _ => True
         end
  | Resolved r =>
      match op with
      | Direct logout | ViaProvider provider_logout => r = RVoid
      | Direct verifyToken => exists u, r = RUser u
      | ViaProvider _ => exists b, r = RBool b
      | Direct _ => True
      end
  end.

(** Every operation settled so far settled in an allowed way. *)
Definition all_ok (w : World) : Prop :=
  Forall (fun e => settled_ok (snd (fst e)) (snd e)) (outcomes w).

(** An error that the response interceptor does not answer with a refresh:
    not a 401, or no refresh token stored, or a config already retried. *)
Definition passes_through (config : Request) (error : AxiosError) (w : World)
    : Prop :=
  is401 error && truthy (this_refreshToken w) && negb (_retry config) = false.

(** The uniform shape with a code of the taxonomy. *)
Definition normalized (t : Thrown) : Prop :=
  exists e c, t = ThrownAuthError e /\ code e = CodeString c
              /\ c ∈ AuthErrorCode.taxonomy.

(** Service methods whose body lets a rejected call propagate. *)
Definition propagates (m : ServiceMethod) : bool :=
  match m with
  | logout | verifyToken => false
  | _ => true
  end.

(** The store after LOGOUT: the initial state with [loading] off. *)
Definition loggedOut : AuthState := {|
  user := None; token := None; refreshToken := None; loading := false;
  error := None; isAuthenticated := false; isAdmin := false;
  isSuperAdmin := false
|}.

(** [logout], called on the service or through the provider. *)
Definition is_logout (op : Op) : Prop :=
  op = Direct logout \/ op = ViaProvider provider_logout.

(** The config [refreshAccessToken] passes to [this.api.post]. *)
Definition refreshRequest (w : World) : Request :=
  request POST "/api/auth/refresh" (RefreshBody (this_refreshToken w)).

(** The parts of the world that a method body cannot touch: the wire, the
    parked calls and the expiry callback. *)
Definition same_wire (w w' : World) : Prop :=
  sent w' = sent w /\ pending w' = pending w
  /\ nextRequest w' = nextRequest w
  /\ tokenExpiredCalls w' = tokenExpiredCalls w
  /\ this_config w' = this_config w.

(** A batch of 401 answers, one per request id. *)
Definition unauthorized_replies (batch : list (nat * ApiResponse)) : list Event :=
  map (fun b => Reply (fst b) (Replied 401 (snd b))) batch.

(** Request [id] is on the wire and its config has not been retried. *)
Definition in_flight (w : World) (id : nat) : Prop :=
  id < nextRequest w
  /\ exists config k, pending w !! id = Some (config, k) /\ _retry config = false.

(** Two profile requests on the wire. *)
Definition twoInFlight : World :=
  run [Call (Direct getProfile); Call (Direct getProfile)] SampleApi.service.

(** A 401 for each of them. *)
Definition twoUnauthorized : list (nat * ApiResponse) :=
  [(0, SampleApi.expired); (1, SampleApi.expired)].

(** The world once request [id] has come back 401 and the refresh call of
    its interceptor is on the wire. *)
Definition intercepted (id : nat) (config : Request) (k : Cont)
    (envelope : ApiResponse) (w : World) : World :=
  api (refreshRequest w)
    (Intercept401 (mark_retry config) (ErrResponse 401 envelope) k)
    (unpark id w).

(** One profile request on the wire. *)
Definition oneInFlight : World :=
  run [Call (Direct getProfile)] SampleApi.service.

(** The server answers 401 to call [first] and to each of the [n - 1] calls
    issued after it. *)
Fixpoint unauthorized_rounds (n first : nat) (envelope : ApiResponse)
    : list Event :=
  match n with
  | 0 => []
  | S n' =>
      Reply first (Replied 401 envelope)
      :: unauthorized_rounds n' (S first) envelope
  end.

(** The store after [login("a@b.com", "Secret1!")] through the provider,
    answered with a session for user [u]. *)
Definition storeAfterLogin (u : User) : AuthState :=
  store (run [Call (ViaProvider (provider_login "a@b.com" "Secret1!"));
              Reply 0 (SampleApi.session u "t1" "r1")]
           SampleApi.anonymous).

End Vocabulary.

Section MoreVocabulary.
Import Api.

(** The role requirement of the gate, as a proposition about the user.
    Between two strings that name no inherited property the levels decide.
    When exactly one of them names an inherited property the requirement is
    met.  When both do, the requirement is met unless the text of the
    user's member sorts before the text of the required one. *)
Definition role_met (requiredRole : option string) (u : User) : Prop :=
  match requiredRole with
  | Some r =>
      r = role u
      \/ match bool_decide (role u ∈ objectPrototype),
               bool_decide (r ∈ objectPrototype) with
         | false, false => rank r <= rank (role u)
         | true, true =>
             String.ltb (memberText (role u)) (memberText r) = false
         | _, _ => True
         end
  | None => True
  end.

(** The permission requirement of the gate, as a proposition about the user. *)
Definition permissions_met (requiredPermissions : option (list string))
    (u : User) : Prop :=
  match requiredPermissions with
  | Some l => forall p, p ∈ l -> p ∈ default [] (permissions u)
  | None => True
  end.

(** Actions that are neither SET_USER nor LOGOUT. *)
Definition keeps_identity (a : Store.AuthAction) : bool :=
  match a with
  | Store.SET_USER _ | Store.LOGOUT => false
  | _ => true
  end.

(** A page reload: a new service over the storage and config of [w]. *)
Definition reload (w : World) : World :=
  newApiService (this_config w) (localStorage w).

(** [register], [login] and [loginWithFirebase]. *)
Definition opens_session (m : ServiceMethod) : bool :=
  match m with
  | register _ | login _ _ | loginWithFirebase _ => true
  | _ => false
  end.

(** The storage of [w'] differs from that of [w] at most at the two
    configured keys, and the configuration is the same. *)
Definition same_storage_elsewhere (w w' : World) : Prop :=
  this_config w' = this_config w
  /\ forall k, k <> tokenKey w -> k <> refreshTokenKey w ->
       localStorage w' !! k = localStorage w !! k.

(** How the awaited call of a request settles once its response [r] has
    passed the response interceptor without a refresh. *)
Definition settled_call (r : TransportResult) : ApiOutcome :=
  match settle r with
  | inl response => Fulfilled response
  | inr error => Rejected (ThrownAuthError (handleError error))
  end.

(** The answer [r] is one that the response interceptor of [w] hands on as
    it is: not a 401 while a refresh token is stored. *)
Definition handed_on (r : TransportResult) (w : World) : Prop :=
  forall error,
    settle r = inr error -> is401 error && truthy (this_refreshToken w) = false.

(** The answer [r] to a refresh call is neither a 401 nor a success that
    carries a payload. *)
Definition refresh_failed (r : TransportResult) : Prop :=
  (forall error, settle r = inr error -> is401 error = false)
  /\ (forall response,
        settle r = inl response -> success response = true ->
        data response = None).

(** The logout called as operation [nextCall w] in [w] has returned in
    [w']: it resolved, the credentials are gone, and the provider's store,
    if the call went through the provider, is the logged-out state. *)
Definition logout_done (op : Op) (w w' : World) : Prop :=
  outcomes w' = outcomes w ++ [(nextCall w, op, Resolved RVoid)]
  /\ credentials_cleared w'
  /\ (op = ViaProvider provider_logout -> store w' = loggedOut).

(** The credentials and the store of [w'] are those of [w]. *)
Definition same_session (w w' : World) : Prop :=
  this_token w' = this_token w
  /\ this_refreshToken w' = this_refreshToken w
  /\ localStorage w' = localStorage w
  /\ store w' = store w.

(** [provider_login] and [provider_register]. *)
Definition provider_opens_session (p : ProviderMethod) : bool :=
  match p with
  | provider_login _ _ | provider_register _ => true
  | _ => false
  end.

End MoreVocabulary.

Section FormVocabulary.
Import Stdlib.Strings.Ascii.
Import Forms.

(** Some character of [s] is in the class. *)
Fixpoint any_char (cls : ascii -> bool) (s : string) : bool :=
  match s with
  | EmptyString => false
  | String c rest => cls c || any_char cls rest
  end.

(** The first character of [s] is in the class. *)
Definition first_char (cls : ascii -> bool) (s : string) : bool :=
  match s with
  | String c _ => cls c
  | EmptyString => false
  end.

(** What the registration form asks of its fields, stated on the strings. *)
Definition well_formed (formData : FormData) : Prop :=
  email formData <> "" /\ displayName formData <> ""
  /\ any_char (fun c => bool_decide (c = "@"%char)) (email formData) = true
  /\ 8 <= String.length (password formData)
  /\ password formData = confirmPassword formData
  /\ any_char lower (password formData) = true
  /\ any_char upper (password formData) = true
  /\ any_char digit (password formData) = true
  /\ any_char special (password formData) = true
  /\ first_char allowed (password formData) = true.

(** The form with [p] typed into both password fields. *)
Definition with_password (p : string) (formData : FormData) : FormData :=
  {| email := email formData; password := p; confirmPassword := p;
     displayName := displayName formData |}.

End FormVocabulary.


(* ===================================================================== *)
(** * Properties                                                         *)
(* ===================================================================== *)

(** ** The access gate *)

Section AccessControl.
Import ProtectedRouteM.

(** No role of the hierarchy is the name of an inherited property. *)
Lemma roleHierarchy_not_inherited (r : string) (n : nat) :
  roleHierarchy !! r = Some n -> r ∉ objectPrototype.
Proof.
  intros H. apply elem_of_list_to_map_2 in H. rewrite !elem_of_cons in H.
  repeat destruct H as [[= -> ->] | H]; try (inversion H; fail);
    apply (bool_decide_eq_false_1 _); vm_compute; reflexivity.
Qed.

(** The two shapes of [roleHierarchy[r] || 0]. *)
Lemma roleLevel_spec (r : string) :
  (r ∈ objectPrototype /\ roleLevel r = Obj r)
  \/ ((r ∉ objectPrototype) /\ roleLevel r = Num (rank r)).
Proof.
  unfold roleLevel, property, rank.
  destruct (roleHierarchy !! r) as [n |] eqn:E.
  - right. split; [exact (roleHierarchy_not_inherited r n E) | reflexivity].
  - destruct (bool_decide_reflect (r ∈ objectPrototype)) as [Hin | Hout].
    + left. split; [exact Hin | reflexivity].
    + right. split; [exact Hout | reflexivity].
Qed.

Lemma roleLevel_inherited (r : string) :
  r ∈ objectPrototype -> roleLevel r = Obj r.
Proof.
  intros Hin. destruct (roleLevel_spec r) as [[_ H] | [Hout _]];
    [exact H | now contradiction Hout].
Qed.

Lemma roleLevel_ordinary (r : string) :
  r ∉ objectPrototype -> roleLevel r = Num (rank r).
Proof.
  intros Hout. destruct (roleLevel_spec r) as [[Hin _] | [_ H]];
    [now contradiction Hout | exact H].
Qed.

Lemma rank_empty : rank "" = 0.
Proof. reflexivity. Qed.

Lemma rank_unknown (r : string) : roleHierarchy !! r = None -> rank r = 0.
Proof. unfold rank. intros ->. reflexivity. Qed.

Lemma rank_inherited (r : string) : r ∈ objectPrototype -> rank r = 0.
Proof.
  intros Hin. apply rank_unknown.
  destruct (roleHierarchy !! r) as [n |] eqn:E; [| reflexivity].
  contradiction (roleHierarchy_not_inherited r n E).
Qed.

Lemma rank_chain :
  rank UserRole.USER = 1 /\ rank UserRole.PREMIUM = 2
  /\ rank UserRole.MODERATOR = 3 /\ rank UserRole.ADMIN = 4
  /\ rank UserRole.SUPER_ADMIN = 5.
Proof. repeat split; reflexivity. Qed.

Lemma empty_not_inherited : "" ∉ objectPrototype.
Proof. apply (bool_decide_eq_false_1 _). vm_compute. reflexivity. Qed.

(** The boolean computed by the role block of the component, for two role
    strings that name no inherited property. *)
Lemma role_block_spec (actual required : string) :
  actual ∉ objectPrototype -> required ∉ objectPrototype ->
  (if truthy (Some required) && negb (bool_decide (actual = required))
   then negb (lessThan (roleLevel actual) (roleLevel required)) else true) = true
  <-> rank required <= rank actual.
Proof.
  intros Ha Hr. rewrite (roleLevel_ordinary _ Ha), (roleLevel_ordinary _ Hr).
  unfold truthy, lessThan.
  destruct (bool_decide_reflect (required = "")) as [-> | Hne]; simpl.
  - rewrite rank_empty. split; [lia | reflexivity].
  - destruct (bool_decide_reflect (actual = required)) as [-> | Hdiff]; simpl.
    + split; [lia | reflexivity].
    + rewrite negb_true_iff, Nat.ltb_ge. reflexivity.
Qed.

(** The same block when exactly one of the two names an inherited
    property: the comparison involves NaN and nothing is denied. *)
Lemma role_block_mixed (actual required : string) :
  (actual ∈ objectPrototype /\ (required ∉ objectPrototype))
  \/ ((actual ∉ objectPrototype) /\ required ∈ objectPrototype) ->
  (if truthy (Some required) && negb (bool_decide (actual = required))
   then negb (lessThan (roleLevel actual) (roleLevel required)) else true) = true.
Proof.
  intros [[Ha Hr] | [Ha Hr]].
  - rewrite (roleLevel_inherited _ Ha), (roleLevel_ordinary _ Hr).
    now destruct (_ && _).
  - rewrite (roleLevel_ordinary _ Ha), (roleLevel_inherited _ Hr).
    now destruct (_ && _).
Qed.

Lemma includes_spec (l : list string) (p : string) :
  includes l p = true <-> p ∈ l.
Proof.
  unfold includes. rewrite existsb_exists. split.
  - intros (q & Hin & Heq). apply bool_decide_eq_true in Heq. subst q.
    now apply list_elem_of_In.
  - intros Hin. exists p. split; [now apply list_elem_of_In |].
    now apply bool_decide_eq_true.
Qed.

Lemma every_included_spec (required owned : list string) :
  every_included required owned = true <-> (forall p, p ∈ required -> p ∈ owned).
Proof.
  unfold every_included. rewrite forallb_forall. split.
  - intros H p Hp. apply includes_spec, H. now apply list_elem_of_In.
  - intros H p Hp. apply includes_spec, H. now apply list_elem_of_In.
Qed.

(** The permission block of the component, as a boolean. *)
Lemma permission_block_spec (required owned : list string) :
  (if 0 <? length required then every_included required owned else true) = true
  <-> (forall p, p ∈ required -> p ∈ owned).
Proof.
  destruct required as [| q required]; simpl length.
  - simpl. split; [| reflexivity]. intros _ p Hp. inversion Hp.
  - replace (0 <? S (length required)) with true by reflexivity.
    apply every_included_spec.
Qed.

(** How the component's result reads off the two blocks. *)
Lemma ProtectedRoute_signed_in (auth : AuthState) (u : User)
    (required : string) (perms : option (list string)) :
  signed_in auth u ->
  ProtectedRoute auth (Some required) perms =
    if negb (if truthy (Some required) && negb (bool_decide (role u = required))
             then negb (lessThan (roleLevel (role u)) (roleLevel required))
             else true)
    then RoleDenied
    else match perms with
         | Some l =>
             if (if 0 <? length l
                 then every_included l (default [] (permissions u)) else true)
             then Children else PermissionsDenied
         | None => Children
         end.
Proof.
  intros (Hl & Ha & Hu). unfold ProtectedRoute. rewrite Hl, Ha, Hu.
  destruct (negb _); [reflexivity |].
  destruct perms as [l |]; [| reflexivity].
  destruct (0 <? length l); reflexivity.
Qed.


(** The role block decides between [RoleDenied] and the rest, whatever the
    permission requirement. *)
Lemma role_block_decides (auth : AuthState) (u : User) (required : string)
    (perms : option (list string)) :
  signed_in auth u ->
  (ProtectedRoute auth (Some required) perms <> RoleDenied
   <-> (if truthy (Some required) && negb (bool_decide (role u = required))
        then negb (lessThan (roleLevel (role u)) (roleLevel required))
        else true) = true)
  /\ (ProtectedRoute auth (Some required) None = Children
      <-> ProtectedRoute auth (Some required) perms <> RoleDenied).
Proof.
  intros Hin.
  rewrite (ProtectedRoute_signed_in auth u required perms Hin).
  rewrite (ProtectedRoute_signed_in auth u required None Hin).
  destruct (if truthy (Some required) && _ then _ else _); simpl.
  - assert (H : match perms with
                | Some l =>
                    if (if 0 <? length l
                        then every_included l (default [] (permissions u))
                        else true)
                    then Children else PermissionsDenied
                | None => Children
                end <> RoleDenied).
    { destruct perms as [l |]; [| discriminate].
      destruct (if 0 <? length l then _ else _); discriminate. }
    split; split; intros _; first [reflexivity | exact H].
  - split; split; try discriminate; intros H; now contradiction H.
Qed.

(** C2. The role check of the gate, against the level order of the claim:
    USER=1 < PREMIUM=2 < MODERATOR=3 < ADMIN=4 < SUPER_ADMIN=5, every other
    role 0.  For a signed-in user whose role, like the required role, does
    not name a property that object literals inherit (the five roles and
    every ordinary string), the check passes exactly when the level of the
    user's role is at least the level of the required role; with no
    permission requirement this decides the rendering of the children; ADMIN
    passes a MODERATOR requirement and USER fails an ADMIN requirement.
    At a role that does name an inherited property ([constructor],
    [toString], ...) the code departs from the claim: that role is not in
    the hierarchy, so its level is 0, and yet the check passes against
    every required role that is not such a name itself, ADMIN and
    SUPER_ADMIN included. *)
Theorem role_check_by_level_unless_inherited (auth : AuthState) (u : User)
    (required : string) (perms : option (list string)) :
  signed_in auth u ->
  (role u ∉ objectPrototype -> required ∉ objectPrototype ->
   (ProtectedRoute auth (Some required) perms <> RoleDenied
    <-> rank required <= rank (role u))
   /\ (ProtectedRoute auth (Some required) None = Children
       <-> rank required <= rank (role u)))
  /\ (rank UserRole.USER < rank UserRole.PREMIUM
      /\ rank UserRole.PREMIUM < rank UserRole.MODERATOR
      /\ rank UserRole.MODERATOR < rank UserRole.ADMIN
      /\ rank UserRole.ADMIN < rank UserRole.SUPER_ADMIN)
  /\ (forall r, roleHierarchy !! r = None -> rank r = 0)
  /\ (role u = UserRole.ADMIN ->
      ProtectedRoute auth (Some UserRole.MODERATOR) None = Children)
  /\ (role u = UserRole.USER ->
      ProtectedRoute auth (Some UserRole.ADMIN) None = RoleDenied)
  /\ (role u ∈ objectPrototype -> required ∉ objectPrototype ->
      rank (role u) = 0
      /\ ProtectedRoute auth (Some required) perms <> RoleDenied
      /\ ProtectedRoute auth (Some required) None = Children).
Proof.
  intros Hin.
  destruct (role_block_decides auth u required perms Hin) as [Hblock Hnone].
  split; [| split; [| split; [| split; [| split]]]].
  - intros Hu Hr. rewrite Hnone, Hblock. split; now apply role_block_spec.
  - repeat split; vm_compute; lia.
  - apply rank_unknown.
  - intros Hr. rewrite (ProtectedRoute_signed_in auth u _ None Hin), Hr.
    reflexivity.
  - intros Hr. rewrite (ProtectedRoute_signed_in auth u _ None Hin), Hr.
    reflexivity.
  - intros Hu Hr. split; [now apply rank_inherited |].
    assert (H : ProtectedRoute auth (Some required) perms <> RoleDenied).
    { apply Hblock, role_block_mixed. left. now split. }
    split; [exact H | now apply Hnone].
Qed.


End AccessControl.

(** C2 at the failing input: a signed-in user whose role is the string
    [constructor], against an ADMIN requirement. *)
Lemma role_check_by_level_unless_inherited_witness :
  signed_in (Sample.signedIn (Sample.someUser "constructor" []))
    (Sample.someUser "constructor" [])
  /\ rank "constructor" = 0
  /\ rank UserRole.ADMIN = 4
  /\ ProtectedRouteM.ProtectedRoute
       (Sample.signedIn (Sample.someUser "constructor" []))
       (Some UserRole.ADMIN) None = ProtectedRouteM.Children.
Proof.
  assert (H : signed_in (Sample.signedIn (Sample.someUser "constructor" []))
                (Sample.someUser "constructor" []))
    by (repeat split; reflexivity).
  split; [exact H |].
  destruct (role_check_by_level_unless_inherited _ _ UserRole.ADMIN None H)
    as (_ & _ & _ & _ & _ & Hbug).
  assert (Hu : "constructor" ∈ objectPrototype)
    by (apply (bool_decide_eq_true_1 _); vm_compute; reflexivity).
  assert (Hr : UserRole.ADMIN ∉ objectPrototype)
    by (apply (bool_decide_eq_false_1 _); vm_compute; reflexivity).
  destruct (Hbug Hu Hr) as (Hrank & _ & Hc).
  split; [exact Hrank |]. split; [reflexivity | exact Hc].
Defined.


(** ** The session store *)

Section SessionStore.
Import Store.

Lemma role_is_spec (u : option User) (r : string) :
  role_is u r = true <-> exists v, u = Some v /\ role v = r.
Proof.
  destruct u as [v |]; simpl.
  - rewrite bool_decide_eq_true. split.
    + intros H. exists v. split; [reflexivity | exact H].
    + intros (v' & [= <-] & H). exact H.
  - split; [discriminate | intros (v & [=] & _)].
Qed.

(** C8. Whatever the prior state and whatever the assigned user (possibly
    null), SET_USER stores the user, recomputes isAuthenticated (user is
    non-null), isAdmin (role is ADMIN or SUPER_ADMIN) and isSuperAdmin (role
    is SUPER_ADMIN) from it, and clears loading and error, leaving the
    mirrored tokens alone.  Hence role "user" gives isAuthenticated=true,
    isAdmin=false, and role "super_admin" gives isAdmin=true,
    isSuperAdmin=true. *)
Theorem setUser_recomputes_flags (state : AuthState) (u : option User) :
  let s := authReducer state (SET_USER u) in
  user s = u
  /\ (isAuthenticated s = true <-> u <> None)
  /\ (isAdmin s = true
      <-> exists v, u = Some v
            /\ (role v = UserRole.ADMIN \/ role v = UserRole.SUPER_ADMIN))
  /\ (isSuperAdmin s = true
      <-> exists v, u = Some v /\ role v = UserRole.SUPER_ADMIN)
  /\ loading s = false /\ error s = None
  /\ token s = token state /\ refreshToken s = refreshToken state
  /\ (forall v, u = Some v -> role v = "user" ->
        isAuthenticated s = true /\ isAdmin s = false /\ isSuperAdmin s = false)
  /\ (forall v, u = Some v -> role v = "super_admin" ->
        isAuthenticated s = true /\ isAdmin s = true /\ isSuperAdmin s = true).
Proof.
  cbn zeta. simpl.
  split; [reflexivity |].
  split; [destruct u; split; congruence |].
  split.
  { rewrite !orb_false_r, orb_true_iff, !role_is_spec. split.
    - intros [(v & Hu & Hr) | (v & Hu & Hr)]; exists v; auto.
    - intros (v & Hu & [Hr | Hr]); [left | right]; exists v; auto. }
  split; [rewrite orb_false_r; apply role_is_spec |].
  do 4 (split; [reflexivity |]).
  split; intros v -> Hr; simpl; rewrite Hr; repeat split; reflexivity.
Qed.

Lemma authReducer_preserves (s : AuthState) (a : AuthAction) :
  flags_consistent s -> flags_consistent (authReducer s a).
Proof.
  intros (Hauth & Hadmin & Hsuper).
  destruct a as [b | u | t | t | e | |]; unfold flags_consistent; simpl;
    try (split; [exact Hauth | split; [exact Hadmin | exact Hsuper]]).
  - (* SET_USER *)
    rewrite !orb_false_r. destruct u as [v |]; simpl.
    + split; [split; congruence |]. split; [reflexivity |].
      intros ->. apply orb_true_r.
    + split; [split; congruence |]. split; discriminate.
  - (* LOGOUT *)
    split; [split; congruence |]. split; discriminate.
Qed.

Lemma initialState_consistent : flags_consistent initialState.
Proof.
  unfold flags_consistent. simpl.
  split; [split; congruence |]. split; discriminate.
Qed.

Lemma dispatchAll_preserves (actions : list AuthAction) (s : AuthState) :
  flags_consistent s -> flags_consistent (dispatchAll s actions).
Proof.
  revert s. induction actions as [| a actions IH]; intros s Hs; simpl.
  - exact Hs.
  - apply IH, authReducer_preserves, Hs.
Qed.

(** C10. In every store state reached from the initial state by any
    sequence of reducer actions, isAuthenticated holds exactly when user is
    non-null, isAdmin implies isAuthenticated, and isSuperAdmin implies
    isAdmin. *)
Theorem reachable_flags_consistent (actions : list AuthAction) :
  let s := dispatchAll initialState actions in
  (isAuthenticated s = true <-> user s <> None)
  /\ (isAdmin s = true -> isAuthenticated s = true)
  /\ (isSuperAdmin s = true -> isAdmin s = true).
Proof.
  exact (dispatchAll_preserves actions initialState initialState_consistent).
Qed.

End SessionStore.

(** ** Error normalisation *)

Section Normalisation.
Import Api.

(** Membership in a literal list, up to unfolding of the constants. *)
Ltac in_literal_list :=
  repeat first [ apply list_elem_of_here | apply list_elem_of_further ].

Lemma mappedCodes_taxonomy (c : string) :
  c ∈ mappedCodes -> c ∈ AuthErrorCode.taxonomy.
Proof.
  unfold mappedCodes. intros H. rewrite !elem_of_cons in H.
  repeat destruct H as [-> | H]; try (inversion H; fail);
    in_literal_list.
Qed.

(** The three ways [codeMap[code] || UNKNOWN_ERROR] comes out: an own entry,
    which maps the code to itself; a member inherited from
    [Object.prototype]; the default. *)
Lemma mapErrorCode_spec (c : string) :
  (c ∈ mappedCodes /\ mapErrorCode c = CodeString c)
  \/ (c ∈ objectPrototype /\ mapErrorCode c = CodeMember c)
  \/ ((c ∉ mappedCodes) /\ (c ∉ objectPrototype)
      /\ mapErrorCode c = CodeString AuthErrorCode.UNKNOWN_ERROR).
Proof.
  unfold mapErrorCode, property. destruct (codeMap !! c) as [v |] eqn:E.
  - left. apply elem_of_list_to_map_2 in E. rewrite !elem_of_cons in E.
    repeat destruct E as [[= -> ->] | E]; try (inversion E; fail);
      (split; [in_literal_list | reflexivity]).
  - assert (Hout : c ∉ mappedCodes).
    { unfold mappedCodes. rewrite !elem_of_cons. intros H.
      repeat destruct H as [-> | H]; try (inversion H; fail);
        vm_compute in E; discriminate. }
    destruct (bool_decide_reflect (c ∈ objectPrototype)) as [Hin | Hno].
    + right. left. split; [exact Hin | reflexivity].
    + right. right. split; [exact Hout |]. split; [exact Hno | reflexivity].
Qed.

Lemma or_str_cases (a : option string) (b : string) :
  or_str a b = b \/ a = Some (or_str a b).
Proof.
  unfold or_str. destruct a as [v |]; [| now left].
  destruct (bool_decide (v = "")); [now left | now right].
Qed.

Lemma unknown_not_inherited : AuthErrorCode.UNKNOWN_ERROR ∉ objectPrototype.
Proof. apply (bool_decide_eq_false_1 _). vm_compute. reflexivity. Qed.

(** The code [handleError] reports, provided the server did not name an
    inherited property as its code. *)
Lemma handleError_taxonomy (error : AxiosError) :
  (forall c, serverCode error = Some c -> c ∉ objectPrototype) ->
  exists c, code (handleError error) = CodeString c
            /\ c ∈ AuthErrorCode.taxonomy.
Proof.
  destruct error as [status envelope | | msg]; simpl; intros Hc.
  - destruct (mapErrorCode_spec
                (or_str (err_code <$> resp_error envelope) "UNKNOWN_ERROR"))
      as [[Hin ->] | [[Hin _] | (_ & _ & ->)]].
    + eexists. split; [reflexivity | now apply mappedCodes_taxonomy].
    + exfalso.
      destruct (or_str_cases (err_code <$> resp_error envelope) "UNKNOWN_ERROR")
        as [Heq | Heq].
      * rewrite Heq in Hin. exact (unknown_not_inherited Hin).
      * exact (Hc _ Heq Hin).
    + eexists. split; [reflexivity | in_literal_list].
  - eexists. split; [reflexivity | in_literal_list].
  - eexists. split; [reflexivity | in_literal_list].
Qed.

End Normalisation.

(** ** What an operation can hand to its caller *)

Section Outcomes.
Import Api.

Lemma resume_settled (m : ServiceMethod) (o : ApiOutcome) (w : World) :
  outcome_ok o ->
  outcomes (fst (resume m o w)) = outcomes w
  /\ settled_ok (Direct m) (snd (resume m o w)).
Proof.
  intros Ho.
  destruct m; destruct o as [response | t]; simpl in *;
    try destruct (success response); try destruct (data response);
    simpl; eauto.
Qed.

Lemma after_settled (p : ProviderMethod) (s : Settled) (w : World) :
  outcomes (fst (after p s w)) = outcomes w
  /\ settled_ok (ViaProvider p) (snd (after p s w)).
Proof.
  destruct p; simpl; unfold session_after;
    repeat (match goal with
            | |- context [match ?x with _ => _ end] => destruct x
            end); simpl; eauto.
Qed.

Lemma finish_ok (call : nat) (op : Op) (s : Settled) (w : World) :
  all_ok w -> settled_ok op s -> all_ok (finish call op s w).
Proof.
  unfold all_ok. simpl. intros Hw Hs. apply Forall_app. split; [exact Hw |].
  constructor; [exact Hs | constructor].
Qed.

Lemma all_ok_same (w w' : World) :
  outcomes w' = outcomes w -> all_ok w -> all_ok w'.
Proof. unfold all_ok. now intros ->. Qed.

Lemma complete_ok (call : nat) (op : Op) (o : ApiOutcome) (w : World) :
  outcome_ok o -> all_ok w -> all_ok (complete call op o w).
Proof.
  intros Ho Hw. unfold complete. destruct op as [m | p].
  - destruct (resume_settled m o w Ho) as [Hsame Hs].
    destruct (resume m o w) as [w1 s]. simpl in *.
    apply finish_ok; [now apply (all_ok_same w) | exact Hs].
  - destruct (resume_settled (service_of p) o w Ho) as [Hsame _].
    destruct (resume (service_of p) o w) as [w1 s]. simpl in *.
    destruct (after_settled p s w1) as [Hsame' Hs'].
    destruct (after p s w1) as [w2 s']. simpl in *.
    apply finish_ok; [| exact Hs'].
    apply (all_ok_same w); [congruence | exact Hw].
Qed.

Lemma handleError_ok (error : AxiosError) :
  outcome_ok (Rejected (ThrownAuthError (handleError error))).
Proof. simpl. now exists error. Qed.

Lemma afterRefresh_ok (settle_k : ApiOutcome -> World -> World)
    (originalRequest : Request) (error : AxiosError) (k : Cont)
    (s : Settled) (w : World) :
  (forall o w', outcome_ok o -> all_ok w' -> all_ok (settle_k o w')) ->
  all_ok w -> all_ok (afterRefresh settle_k originalRequest error k s w).
Proof.
  intros Hk Hw. unfold afterRefresh.
  destruct s as [[| | [] | |] | t];
    try (apply Hk; [apply handleError_ok | exact Hw]).
  - apply (all_ok_same w); [reflexivity | exact Hw].
  - apply Hk; [apply handleError_ok |].
    apply (all_ok_same w); [| exact Hw].
    unfold notifyTokenExpired. simpl. now destruct (onTokenExpired _).
Qed.

Lemma resumeCall_Intercept401 (originalRequest : Request) (error : AxiosError)
    (k : Cont) (o : ApiOutcome) (w : World) :
  resumeCall (Intercept401 originalRequest error k) o w =
  afterRefresh (resumeCall k) originalRequest error k
    (snd (resume refreshAccessToken o w)) (fst (resume refreshAccessToken o w)).
Proof.
  cbn [resumeCall]. destruct (resume refreshAccessToken o w). reflexivity.
Qed.

Lemma resumeCall_ok (k : Cont) :
  forall (o : ApiOutcome) (w : World),
    outcome_ok o -> all_ok w -> all_ok (resumeCall k o w).
Proof.
  induction k as [call op | originalRequest error k IH]; intros o w Ho Hw.
  - now apply complete_ok.
  - rewrite resumeCall_Intercept401.
    destruct (resume_settled refreshAccessToken o w Ho) as [Hsame _].
    destruct (resume refreshAccessToken o w) as [w1 s]. simpl in Hsame.
    apply afterRefresh_ok; [exact IH |].
    now apply (all_ok_same w).
Qed.

Lemma deliver_ok (id : nat) (r : TransportResult) (w : World) :
  all_ok w -> all_ok (deliver id r w).
Proof.
  intros Hw. unfold deliver.
  destruct (pending w !! id) as [[config k] |]; [| exact Hw].
  assert (Ht : all_ok (unpark id w)) by exact Hw.
  unfold responseInterceptor. destruct (settle r) as [response | error].
  - now apply resumeCall_ok.
  - unfold onRejected. destruct (_ && _ && _).
    + destruct (start refreshAccessToken (unpark id w)) as [refresh | s].
      * exact Ht.
      * apply afterRefresh_ok; [apply resumeCall_ok | exact Ht].
    + apply resumeCall_ok; [apply handleError_ok | exact Ht].
Qed.

Lemma start_settled (m : ServiceMethod) (w : World) (s : Settled) :
  start m w = Finished s -> settled_ok (Direct m) s.
Proof.
  destruct m; simpl; try discriminate.
  - destruct (negb _); [| discriminate]. intros [= <-]. simpl. auto.
  - destruct (negb _); [| discriminate]. intros [= <-]. simpl. eauto.
Qed.

Lemma invoke_ok (op : Op) (w : World) : all_ok w -> all_ok (invoke op w).
Proof.
  intros Hw. unfold invoke. destruct op as [m | p].
  - destruct (start m (next_call w)) as [config | s] eqn:E.
    + exact Hw.
    + apply finish_ok; [exact Hw | now apply (start_settled m (next_call w))].
  - destruct (start _ _) as [config | s].
    + apply (all_ok_same w); [| exact Hw]. destruct p; reflexivity.
    + destruct (after_settled p s (before p (next_call w))) as [Hsame Hs].
      destruct (after p s _) as [w2 s']. simpl in *.
      apply finish_ok; [| exact Hs].
      apply (all_ok_same w); [| exact Hw]. rewrite Hsame.
      destruct p; reflexivity.
Qed.

Lemma run_ok (events : list Event) :
  forall w : World, all_ok w -> all_ok (run events w).
Proof.
  induction events as [| e events IH]; intros w Hw; simpl.
  - exact Hw.
  - apply IH. destruct e as [op | id r]; [now apply invoke_ok | now apply deliver_ok].
Qed.

Lemma newApiService_ok (config : SdkConfig) (ls : gmap string string) :
  all_ok (newApiService config ls).
Proof. constructor. Qed.

End Outcomes.

(** ** One operation answered once *)

Section RoundTrip.
Import Api.

(** What the caller of a service method observes when its call is answered
    with [r]: the request goes out, the response comes back through the
    response interceptor. *)
Lemma call_reply (m : ServiceMethod) (config : Request) (r : TransportResult)
    (w : World) :
  start m (next_call w) = Awaiting config ->
  run [Call (Direct m); Reply (nextRequest w) r] w =
  responseInterceptor (requestInterceptor w config) r
    (Return (nextCall w) (Direct m))
    (unpark (nextRequest w)
       (api config (Return (nextCall w) (Direct m)) (next_call w))).
Proof.
  intros Hstart. unfold run. simpl. unfold invoke. rewrite Hstart.
  unfold deliver. simpl. rewrite lookup_insert_eq. reflexivity.
Qed.

Lemma provider_call_reply (p : ProviderMethod) (config : Request)
    (r : TransportResult) (w : World) :
  start (service_of p) (before p (next_call w)) = Awaiting config ->
  run [Call (ViaProvider p); Reply (nextRequest w) r] w =
  responseInterceptor (requestInterceptor w config) r
    (Return (nextCall w) (ViaProvider p))
    (unpark (nextRequest w)
       (api config (Return (nextCall w) (ViaProvider p))
          (before p (next_call w)))).
Proof.
  intros Hstart. unfold run. simpl. unfold invoke. rewrite Hstart.
  unfold deliver.
  replace (nextRequest w) with (nextRequest (before p (next_call w)))
    by (destruct p; reflexivity).
  simpl. rewrite lookup_insert_eq.
  replace (requestInterceptor (before p (next_call w)) config)
    with (requestInterceptor w config) by (destruct p; reflexivity).
  reflexivity.
Qed.

Lemma responseInterceptor_pass (config : Request) (r : TransportResult)
    (error : AxiosError) (k : Cont) (w : World) :
  settle r = inr error -> passes_through config error w ->
  responseInterceptor config r k w =
  resumeCall k (Rejected (ThrownAuthError (handleError error))) w.
Proof.
  intros Hr Hpass. unfold responseInterceptor, onRejected. rewrite Hr.
  unfold passes_through in Hpass. rewrite Hpass. reflexivity.
Qed.

Lemma responseInterceptor_ok (config : Request) (r : TransportResult)
    (response : ApiResponse) (k : Cont) (w : World) :
  settle r = inl response ->
  responseInterceptor config r k w = resumeCall k (Fulfilled response) w.
Proof. intros Hr. unfold responseInterceptor. rewrite Hr. reflexivity. Qed.

End RoundTrip.

Section NormalisedFailures.
Import Api.

Lemma resume_rejected (m : ServiceMethod) (t : Thrown) (w : World) :
  propagates m = true -> resume m (Rejected t) w = (w, Threw t).
Proof. destruct m; simpl; intros H; try discriminate; reflexivity. Qed.

(** C9, counterexample.  [register] answered with HTTP 200 and
    [success: false] fails with [new Error(message)]: a value with a message
    but no code, although the server named EMAIL_ALREADY_EXISTS. *)
Lemma register_refusal_is_plain_error :
  outcome_of 0
    (run [Call (Direct (register SampleApi.registration));
          Reply 0 (SampleApi.refused "Email already registered"
                     "EMAIL_ALREADY_EXISTS")]
       SampleApi.anonymous)
  = Some (Threw (ThrownError "Email already registered"))
  /\ ~ normalized (ThrownError "Email already registered").
Proof.
  split; [vm_compute; reflexivity |].
  intros (e & c & He & _). discriminate He.
Qed.

(** C9, amended.  In any run of the service, a failure handed to a caller is
    either the error object that [handleError] built from a failed call, or
    a plain [Error]/[TypeError] raised by the method body.  The code of the
    former belongs to the taxonomy whenever the code the server sent is not
    the name of a property that the code table inherits: a server code
    outside the taxonomy then becomes UNKNOWN_ERROR, and a missing response
    becomes NETWORK_ERROR.  A call that fails at the transport and is not
    answered with a refresh surfaces as exactly [handleError] of that
    failure from every method that lets rejections through, whereas a 2xx
    envelope with [success: false] makes [register] throw a plain [Error]
    with the envelope's message. *)
Theorem failures_normalized_or_plain :
  (forall events config ls call op t,
      (call, op, Threw t) ∈ outcomes (run events (newApiService config ls)) ->
      (exists error, t = ThrownAuthError (handleError error))
      \/ (exists msg, t = ThrownError msg) \/ t = ThrownTypeError)
  /\ (forall error,
        (forall c, serverCode error = Some c -> c ∉ objectPrototype) ->
        exists c, code (handleError error) = CodeString c
                  /\ c ∈ AuthErrorCode.taxonomy)
  /\ (forall status envelope c,
        err_code <$> resp_error envelope = Some c ->
        c ∉ objectPrototype ->
        c ∉ AuthErrorCode.taxonomy ->
        code (handleError (ErrResponse status envelope))
        = AuthErrorCode.UNKNOWN_ERROR)
  /\ code (handleError ErrRequest) = AuthErrorCode.NETWORK_ERROR
  /\ (forall m config r error w,
        propagates m = true ->
        start m (next_call w) = Awaiting config ->
        settle r = inr error ->
        passes_through (requestInterceptor w config) error w ->
        outcomes (run [Call (Direct m); Reply (nextRequest w) r] w)
        = outcomes w
          ++ [(nextCall w, Direct m,
               Threw (ThrownAuthError (handleError error)))])
  /\ (forall userData status envelope w,
        settle (Replied status envelope) = inl envelope ->
        success envelope = false ->
        outcomes (run [Call (Direct (register userData));
                       Reply (nextRequest w) (Replied status envelope)] w)
        = outcomes w
          ++ [(nextCall w, Direct (register userData),
               Threw (ThrownError
                        (or_str (resp_message envelope)
                                "Registration failed")))]).
Proof.
  split; [| split; [| split; [| split; [| split]]]].
  - intros events config ls call op t Hin.
    pose proof (run_ok events _ (newApiService_ok config ls)) as Hall.
    unfold all_ok in Hall. rewrite Forall_forall in Hall.
    specialize (Hall _ Hin). simpl in Hall. destruct Hall as [Ht _].
    destruct t as [e | msg |]; [left | right; left | right; right].
    + destruct Ht as [error ->]. now exists error.
    + now exists msg.
    + reflexivity.
  - apply handleError_taxonomy.
  - intros status envelope c Hc Hno Hout. simpl. rewrite Hc. unfold or_str.
    destruct (bool_decide_reflect (c = "")) as [-> | Hne].
    + reflexivity.
    + destruct (mapErrorCode_spec c)
        as [[Hin _] | [[Hin _] | (_ & _ & ->)]]; [| | reflexivity].
      * contradiction Hout. now apply mappedCodes_taxonomy.
      * now contradiction Hno.
  - reflexivity.
  - intros m config r error w Hm Hstart Hr Hpass.
    rewrite (call_reply m config r w Hstart).
    rewrite (responseInterceptor_pass _ r error); [| exact Hr | exact Hpass].
    cbn [resumeCall complete]. rewrite resume_rejected by exact Hm.
    reflexivity.
  - intros userData status envelope w Hr Hs.
    rewrite (call_reply (register userData) _ _ w eq_refl).
    rewrite (responseInterceptor_ok _ _ envelope) by exact Hr.
    cbn [resumeCall complete resume session_resume]. rewrite Hs. reflexivity.
Qed.

(** C9 (amended) at a concrete input: a call answered HTTP 429 with the
    server code RATE_LIMITED, which the taxonomy does not have. *)
Lemma failures_normalized_or_plain_witness :
  err_code <$> resp_error (SampleApi.refusal "Too many requests" "RATE_LIMITED")
  = Some "RATE_LIMITED"
  /\ ("RATE_LIMITED" ∉ objectPrototype)
  /\ ("RATE_LIMITED" ∉ AuthErrorCode.taxonomy)
  /\ code (handleError
             (ErrResponse 429
                (SampleApi.refusal "Too many requests" "RATE_LIMITED")))
     = AuthErrorCode.UNKNOWN_ERROR.
Proof.
  assert (H1 : "RATE_LIMITED" ∉ objectPrototype)
    by (apply (bool_decide_eq_false_1 _); vm_compute; reflexivity).
  assert (H2 : "RATE_LIMITED" ∉ AuthErrorCode.taxonomy)
    by (apply (bool_decide_eq_false_1 _); vm_compute; reflexivity).
  split; [reflexivity |]. split; [exact H1 |]. split; [exact H2 |].
  destruct failures_normalized_or_plain as (_ & _ & Hunknown & _).
  exact (Hunknown 429%Z
           (SampleApi.refusal "Too many requests" "RATE_LIMITED")
           "RATE_LIMITED" eq_refl H1 H2).
Defined.

End NormalisedFailures.

(** ** Clearing credentials *)

Section Credentials.
Import Api.

Lemma clearTokensFromStorage_cleared (w : World) :
  credentials_cleared (clearTokensFromStorage w).
Proof.
  unfold credentials_cleared, clearTokensFromStorage, tokenKey, refreshTokenKey.
  simpl. repeat split.
  - destruct (decide (or_str (refreshTokenStorageKey (this_config w))
                        "spirit_ai_refresh_token"
                      = or_str (tokenStorageKey (this_config w))
                          "spirit_ai_token")) as [-> | Hne].
    + apply lookup_delete_eq.
    + rewrite lookup_delete_ne by exact Hne. apply lookup_delete_eq.
  - apply lookup_delete_eq.
Qed.

(** Only the service fields and the storage matter. *)
Lemma credentials_cleared_same (w w' : World) :
  this_config w' = this_config w -> this_token w' = this_token w ->
  this_refreshToken w' = this_refreshToken w ->
  localStorage w' = localStorage w ->
  credentials_cleared w -> credentials_cleared w'.
Proof.
  unfold credentials_cleared, tokenKey, refreshTokenKey.
  intros -> -> -> ->. tauto.
Qed.

End Credentials.

(** ** verifyToken *)

Section VerifyToken.
Import Api.

(** C6. At the failing input the code departs from the claim: when the
    verify call is answered with a 2xx envelope whose [success] is false,
    [verifyToken] resolves with null but leaves token, refresh token and
    storage exactly as they were (only the [catch] branch clears them). *)
Theorem verifyToken_refusal_keeps_credentials (w : World) (status : Z)
    (envelope : ApiResponse) :
  truthy (this_token w) = true ->
  settle (Replied status envelope) = inl envelope ->
  success envelope = false ->
  let w' := run [Call (Direct verifyToken);
                 Reply (nextRequest w) (Replied status envelope)] w in
  outcomes w'
  = outcomes w ++ [(nextCall w, Direct verifyToken, Resolved (RUser None))]
  /\ this_token w' = this_token w
  /\ this_refreshToken w' = this_refreshToken w
  /\ localStorage w' = localStorage w.
Proof.
  intros Ht Hr Hs. cbn zeta.
  assert (Hstart : start verifyToken (next_call w)
                   = Awaiting (request GET "/api/auth/verify" NoBody)).
  { simpl. rewrite Ht. reflexivity. }
  rewrite (call_reply verifyToken _ _ w Hstart).
  rewrite (responseInterceptor_ok _ _ envelope) by exact Hr.
  cbn [resumeCall complete resume]. rewrite Hs. repeat split.
Qed.

(** C6 at a concrete input: stored tokens "old" and "r", the verify call
    answered HTTP 200 with [success: false]. *)
Lemma verifyToken_refusal_keeps_credentials_witness :
  truthy (this_token SampleApi.service) = true
  /\ (let w' := run [Call (Direct verifyToken);
                     Reply 0 (SampleApi.refused "invalid token" "TOKEN_EXPIRED")]
                  SampleApi.service in
      outcomes w' = [(0, Direct verifyToken, Resolved (RUser None))]
      /\ this_token w' = Some "old"
      /\ this_refreshToken w' = Some "r"
      /\ localStorage w' = SampleApi.storage).
Proof.
  split; [reflexivity |].
  exact (verifyToken_refusal_keeps_credentials SampleApi.service 200
           (SampleApi.refusal "invalid token" "TOKEN_EXPIRED")
           eq_refl eq_refl eq_refl).
Defined.

End VerifyToken.

(** ** refreshAccessToken *)

Section RefreshAccessToken.
Import Api.

Lemma start_refresh (w : World) :
  truthy (this_refreshToken w) = true ->
  start refreshAccessToken w = Awaiting (refreshRequest w).
Proof. intros H. simpl. rewrite H. reflexivity. Qed.

(** C5, counterexample.  The server rejects the refresh with HTTP 403:
    [refreshAccessToken] throws the normalized error instead of returning
    false, and both credentials stay stored. *)
Lemma refresh_rejected_by_status_throws :
  let w' := run [Call (Direct refreshAccessToken); Reply 0 SampleApi.forbidden]
              SampleApi.service in
  outcome_of 0 w'
  = Some (Threw (ThrownAuthError
                   {| code := "TOKEN_EXPIRED";
                      message := "refresh token revoked";
                      details := None |}))
  /\ outcome_of 0 w' <> Some (Resolved (RBool false))
  /\ this_token w' = Some "old" /\ this_refreshToken w' = Some "r"
  /\ ~ credentials_cleared w'.
Proof.
  cbn zeta. split; [vm_compute; reflexivity |].
  split; [vm_compute; discriminate |].
  split; [vm_compute; reflexivity |].
  split; [vm_compute; reflexivity |].
  intros (Ht & _). vm_compute in Ht. discriminate Ht.
Qed.

(** C5, amended.  Without a stored refresh token [refreshAccessToken] fails
    at once (it throws) and no network call is made.  With one, a refresh
    call answered by a 2xx envelope whose [success] is false makes it clear
    token, refresh token and both storage keys and resolve with false; a
    refresh call that fails at the transport (any error status but 401, or
    no response) makes it throw the normalized error and leave the
    credentials as they are. *)
Theorem refreshAccessToken_failures (w : World) :
  (truthy (this_refreshToken w) = false ->
     let w' := run [Call (Direct refreshAccessToken)] w in
     outcomes w'
     = outcomes w
       ++ [(nextCall w, Direct refreshAccessToken,
            Threw (ThrownError "No refresh token available"))]
     /\ sent w' = sent w /\ pending w' = pending w
     /\ this_token w' = this_token w
     /\ this_refreshToken w' = this_refreshToken w)
  /\ (truthy (this_refreshToken w) = true ->
      forall status envelope,
        settle (Replied status envelope) = inl envelope ->
        success envelope = false ->
        let w' := run [Call (Direct refreshAccessToken);
                       Reply (nextRequest w) (Replied status envelope)] w in
        outcomes w'
        = outcomes w
          ++ [(nextCall w, Direct refreshAccessToken, Resolved (RBool false))]
        /\ credentials_cleared w'
        /\ sent w' = sent w ++ [requestInterceptor w (refreshRequest w)])
  /\ (truthy (this_refreshToken w) = true ->
      forall r error,
        settle r = inr error ->
        is401 error = false ->
        let w' := run [Call (Direct refreshAccessToken);
                       Reply (nextRequest w) r] w in
        outcomes w'
        = outcomes w
          ++ [(nextCall w, Direct refreshAccessToken,
               Threw (ThrownAuthError (handleError error)))]
        /\ this_token w' = this_token w
        /\ this_refreshToken w' = this_refreshToken w
        /\ localStorage w' = localStorage w).
Proof.
  split; [| split].
  - intros Hno. cbn zeta. unfold run. simpl. unfold invoke. simpl.
    rewrite Hno. simpl. repeat split.
  - intros Hrt status envelope Hr Hs. cbn zeta.
    rewrite (call_reply refreshAccessToken _ _ w (start_refresh _ Hrt)).
    rewrite (responseInterceptor_ok _ _ envelope) by exact Hr.
    cbn [resumeCall complete resume]. rewrite Hs.
    split; [reflexivity |]. split; [| reflexivity].
    apply (credentials_cleared_same (clearTokensFromStorage w));
      try reflexivity.
    apply clearTokensFromStorage_cleared.
  - intros Hrt r error Hr H401. cbn zeta.
    rewrite (call_reply refreshAccessToken _ _ w (start_refresh _ Hrt)).
    rewrite (responseInterceptor_pass _ r error);
      [| exact Hr | unfold passes_through; now rewrite H401].
    cbn [resumeCall complete resume]. repeat split.
Qed.

(** C5 (amended) at a concrete input: the refresh call answered HTTP 200
    with [success: false]. *)
Lemma refreshAccessToken_failures_witness :
  truthy (this_refreshToken SampleApi.service) = true
  /\ (let w' := run [Call (Direct refreshAccessToken);
                     Reply 0 (SampleApi.refused "refresh token revoked"
                                "TOKEN_EXPIRED")]
                  SampleApi.service in
      outcomes w' = [(0, Direct refreshAccessToken, Resolved (RBool false))]
      /\ credentials_cleared w').
Proof.
  split; [reflexivity |].
  destruct (refreshAccessToken_failures SampleApi.service) as (_ & Hrefused & _).
  destruct (Hrefused eq_refl 200%Z
              (SampleApi.refusal "refresh token revoked" "TOKEN_EXPIRED")
              eq_refl eq_refl) as (Ho & Hc & _).
  split; [exact Ho | exact Hc].
Defined.

End RefreshAccessToken.

(** ** The 401 interception *)

Section Interception.
Import Api.

(** Case analysis on every [match] and [if] of the goal. *)
Ltac split_cases :=
  repeat match goal with
         | |- context [match ?x with _ => _ end] => destruct x
         end.

Lemma same_wire_refl (w : World) : same_wire w w.
Proof. repeat split. Qed.

Lemma same_wire_trans (w1 w2 w3 : World) :
  same_wire w1 w2 -> same_wire w2 w3 -> same_wire w1 w3.
Proof. unfold same_wire. intuition congruence. Qed.

Lemma resume_frame (m : ServiceMethod) (o : ApiOutcome) (w : World) :
  same_wire w (fst (resume m o w)).
Proof.
  destruct m; destruct o; simpl; unfold session_resume; split_cases;
    repeat split.
Qed.

Lemma after_frame (p : ProviderMethod) (s : Settled) (w : World) :
  same_wire w (fst (after p s w)).
Proof.
  destruct p; simpl; unfold session_after; split_cases; repeat split.
Qed.

(** Finishing an operation body touches neither the wire nor the callback. *)
Lemma complete_frame (call : nat) (op : Op) (o : ApiOutcome) (w : World) :
  same_wire w (complete call op o w).
Proof.
  unfold complete. destruct op as [m | p].
  - pose proof (resume_frame m o w) as H.
    destruct (resume m o w) as [w1 s]. exact H.
  - pose proof (resume_frame (service_of p) o w) as H.
    destruct (resume (service_of p) o w) as [w1 s].
    pose proof (after_frame p s w1) as H'.
    destruct (after p s w1) as [w2 s'].
    exact (same_wire_trans _ _ _ H H').
Qed.

(** A method body either leaves the credentials alone or clears them when
    its call was rejected. *)
Lemma resume_rejected_cleared (m : ServiceMethod) (t : Thrown) (w : World) :
  credentials_cleared w -> credentials_cleared (fst (resume m (Rejected t) w)).
Proof.
  intros Hc. destruct m; simpl; try exact Hc;
    apply (credentials_cleared_same (clearTokensFromStorage w));
    try reflexivity; apply clearTokensFromStorage_cleared.
Qed.

Lemma after_cleared (p : ProviderMethod) (s : Settled) (w : World) :
  credentials_cleared w -> credentials_cleared (fst (after p s w)).
Proof.
  intros Hc. destruct p; simpl; unfold session_after; split_cases;
    (apply (credentials_cleared_same w); [reflexivity .. | exact Hc]).
Qed.

Lemma complete_rejected_cleared (call : nat) (op : Op) (t : Thrown) (w : World) :
  credentials_cleared w -> credentials_cleared (complete call op (Rejected t) w).
Proof.
  intros Hc. unfold complete. destruct op as [m | p].
  - pose proof (resume_rejected_cleared m t w Hc) as H.
    destruct (resume m (Rejected t) w) as [w1 s].
    apply (credentials_cleared_same w1); [reflexivity .. | exact H].
  - pose proof (resume_rejected_cleared (service_of p) t w Hc) as H.
    destruct (resume (service_of p) (Rejected t) w) as [w1 s].
    pose proof (after_cleared p s w1 H) as H'.
    destruct (after p s w1) as [w2 s'].
    apply (credentials_cleared_same w2); [reflexivity .. | exact H'].
Qed.

(** A request that comes back 401 while a refresh token is stored and the
    config is not marked: the config is marked and a refresh call goes out,
    with the interceptor parked behind it. *)
Lemma deliver_intercepted (id : nat) (config : Request) (k : Cont)
    (envelope : ApiResponse) (w : World) :
  pending w !! id = Some (config, k) ->
  _retry config = false ->
  truthy (this_refreshToken w) = true ->
  deliver id (Replied 401 envelope) w =
  api (refreshRequest w)
    (Intercept401 (mark_retry config) (ErrResponse 401 envelope) k)
    (unpark id w).
Proof.
  intros Hp Hretry Hrt. unfold deliver. rewrite Hp.
  unfold responseInterceptor, onRejected. simpl settle. cbn iota.
  replace (is401 (ErrResponse 401 envelope)) with true by reflexivity.
  replace (this_refreshToken (unpark id w)) with (this_refreshToken w)
    by reflexivity.
  rewrite Hrt, Hretry. simpl andb. cbn iota.
  rewrite (start_refresh (unpark id w)) by exact Hrt. reflexivity.
Qed.

(** The answer to a parked refresh call. *)
Lemma deliver_refresh (id : nat) (refresh originalRequest : Request)
    (error : AxiosError) (k : Cont) (r : TransportResult) (w : World) :
  pending w !! id = Some (refresh, Intercept401 originalRequest error k) ->
  forall o,
    (settle r = inl o
     -> deliver id r w
        = afterRefresh (resumeCall k) originalRequest error k
            (snd (resume refreshAccessToken (Fulfilled o) (unpark id w)))
            (fst (resume refreshAccessToken (Fulfilled o) (unpark id w)))).
Proof.
  intros Hp o Hr. unfold deliver. rewrite Hp.
  rewrite (responseInterceptor_ok _ _ o) by exact Hr.
  apply resumeCall_Intercept401.
Qed.

End Interception.

Section RefreshAndRetry.
Import Api.

Lemma requestInterceptor_url (w : World) (config : Request) :
  url (requestInterceptor w config) = url config.
Proof. unfold requestInterceptor. now destruct (truthy _). Qed.

Lemma requestInterceptor_retry (w : World) (config : Request) :
  _retry (requestInterceptor w config) = _retry config.
Proof. unfold requestInterceptor. now destruct (truthy _). Qed.

Lemma refreshCalls_sent (w w' : World) (new : list Request) :
  sent w' = sent w ++ new ->
  refreshCalls w'
  = refreshCalls w + length (filter (fun c => is_refresh c = true) new).
Proof.
  unfold refreshCalls. intros ->. now rewrite filter_app, length_app.
Qed.

Lemma filter_refresh_replicate (n : nat) (c : Request) :
  is_refresh c = true ->
  length (filter (fun c => is_refresh c = true) (replicate n c)) = n.
Proof.
  intros Hc. induction n as [| n IH]; [reflexivity |].
  simpl replicate. rewrite filter_cons_True by exact Hc. simpl. now rewrite IH.
Qed.

Lemma is_refresh_refreshRequest (w w0 : World) :
  is_refresh (requestInterceptor w (refreshRequest w0)) = true.
Proof.
  unfold is_refresh. rewrite requestInterceptor_url. reflexivity.
Qed.

Lemma notifyTokenExpired_frame (w : World) :
  sent (notifyTokenExpired w) = sent w
  /\ this_token (notifyTokenExpired w) = this_token w
  /\ this_refreshToken (notifyTokenExpired w) = this_refreshToken w
  /\ localStorage (notifyTokenExpired w) = localStorage w
  /\ this_config (notifyTokenExpired w) = this_config w
  /\ outcomes (notifyTokenExpired w) = outcomes w
  /\ tokenExpiredCalls (notifyTokenExpired w)
     = tokenExpiredCalls w + (if onTokenExpired (this_config w) then 1 else 0).
Proof.
  unfold notifyTokenExpired. destruct (onTokenExpired _); simpl;
    repeat split; lia.
Qed.

(** An error travelling down the chain of waiting interceptors never puts
    anything on the wire. *)
Lemma resumeCall_rejected_sent (k : Cont) :
  forall (t : Thrown) (w : World), sent (resumeCall k (Rejected t) w) = sent w.
Proof.
  induction k as [call op | originalRequest error k IH]; intros t w.
  - apply complete_frame.
  - rewrite resumeCall_Intercept401. cbn [resume fst snd afterRefresh].
    rewrite IH.
    now destruct (notifyTokenExpired_frame (clearTokensFromStorage w)) as [-> _].
Qed.

Lemma unauthorized_batch (batch : list (nat * ApiResponse)) :
  forall w : World,
    NoDup (map fst batch) ->
    truthy (this_refreshToken w) = true ->
    (forall b, b ∈ batch -> in_flight w (fst b)) ->
    let w' := run (unauthorized_replies batch) w in
    sent w'
    = sent w ++ replicate (length batch) (requestInterceptor w (refreshRequest w))
    /\ outcomes w' = outcomes w
    /\ tokenExpiredCalls w' = tokenExpiredCalls w.
Proof.
  induction batch as [| [id envelope] batch IH]; intros w Hnd Hrt Hfl; cbn zeta.
  - simpl. rewrite app_nil_r. repeat split.
  - simpl map in Hnd. apply NoDup_cons in Hnd. destruct Hnd as [Hid Hnd].
    destruct (Hfl (id, envelope)) as (Hlt & config & k & Hp & Hretry);
      [apply list_elem_of_here |]. simpl in Hlt, Hp.
    change (run (unauthorized_replies ((id, envelope) :: batch)) w)
      with (run (unauthorized_replies batch)
              (deliver id (Replied 401 envelope) w)).
    rewrite (deliver_intercepted id config k envelope w Hp Hretry Hrt).
    set (w1 := api _ _ _).
    assert (Hrt1 : truthy (this_refreshToken w1) = true) by exact Hrt.
    assert (Hfl1 : forall b, b ∈ batch -> in_flight w1 (fst b)).
    { intros b Hb.
      destruct (Hfl b) as (Hlt' & config' & k' & Hp' & Hretry');
        [now apply list_elem_of_further |].
      split; [simpl; lia |].
      exists config', k'. split; [| exact Hretry'].
      unfold w1. simpl.
      rewrite lookup_insert_ne by lia.
      rewrite lookup_delete_ne; [exact Hp' |].
      intros ->. apply Hid. apply list_elem_of_fmap. now exists b. }
    destruct (IH w1 Hnd Hrt1 Hfl1) as (Hsent & Hout & Hexp).
    rewrite Hsent, Hout, Hexp. repeat split.
    unfold w1. simpl. rewrite <- app_assoc. reflexivity.
Qed.

End RefreshAndRetry.

Section SingleFlight.
Import Api.

(** C1, counterexample.  Two requests are in flight and both come back 401:
    two refresh calls go out, not one. *)
Lemma two_unauthorized_two_refreshes :
  let w' := run [Call (Direct getProfile); Call (Direct getProfile);
                 Reply 0 SampleApi.unauthorized; Reply 1 SampleApi.unauthorized]
              SampleApi.service in
  refreshCalls w' = 2 /\ refreshCalls w' <> 1.
Proof. cbn zeta. split; [vm_compute; reflexivity | vm_compute; discriminate]. Qed.

(** C1, amended.  The refresh is per request, not shared.
    (1) When N distinct in-flight requests, none retried yet, all come back
        401 while a refresh token is stored, exactly N network calls go out,
        each of them a refresh call; nothing settles and nothing is retried
        before a refresh is answered.
    (2) When the refresh call parked for a request is answered successfully,
        that request, and only that one, is sent again, carrying the token
        of this answer and the retry mark.
    (3) A request carrying the retry mark that fails again is not retried:
        nothing goes on the wire, and a method that lets rejections through
        hands the normalized error to its caller. *)
Theorem refresh_per_request :
  (forall batch w,
      NoDup (map fst batch) ->
      truthy (this_refreshToken w) = true ->
      (forall b, b ∈ batch -> in_flight w (fst b)) ->
      let w' := run (unauthorized_replies batch) w in
      sent w'
      = sent w
        ++ replicate (length batch) (requestInterceptor w (refreshRequest w))
      /\ refreshCalls w' = refreshCalls w + length batch
      /\ outcomes w' = outcomes w)
  /\ (forall w id refresh config error k status envelope d,
        pending w !! id
        = Some (refresh, Intercept401 (mark_retry config) error k) ->
        settle (Replied status envelope) = inl envelope ->
        success envelope = true ->
        data envelope = Some d ->
        let w' := deliver id (Replied status envelope) w in
        let retried :=
          {| method := method config; url := url config; body := body config;
             Authorization := Some (bearer (data_token d)); _retry := true |} in
        sent w' = sent w ++ [retried]
        /\ this_token w' = data_token d
        /\ pending w' !! nextRequest w = Some (retried, k)
        /\ outcomes w' = outcomes w)
  /\ (forall w id config k r error,
        pending w !! id = Some (config, k) ->
        _retry config = true ->
        settle r = inr error ->
        sent (deliver id r w) = sent w
        /\ (forall call m,
              k = Return call (Direct m) -> propagates m = true ->
              outcomes (deliver id r w)
              = outcomes w
                ++ [(call, Direct m,
                     Threw (ThrownAuthError (handleError error)))])).
Proof.
  split; [| split].
  - intros batch w Hnd Hrt Hfl.
    destruct (unauthorized_batch batch w Hnd Hrt Hfl) as (Hsent & Hout & _).
    cbn zeta. split; [exact Hsent |]. split; [| exact Hout].
    rewrite (refreshCalls_sent w _ _ Hsent).
    rewrite filter_refresh_replicate; [reflexivity |].
    apply is_refresh_refreshRequest.
  - intros w id refresh config error k status envelope d Hp Hr Hs Hd. cbn zeta.
    rewrite (deliver_refresh id refresh _ error k _ w Hp envelope Hr).
    cbn [resume]. rewrite Hs, Hd. cbn [fst snd afterRefresh].
    unfold api, requestInterceptor. cbn [this_token with_credentials unpark].
    destruct (truthy (data_token d)); simpl;
      (split; [reflexivity |]; split; [reflexivity |];
       split; [apply lookup_insert_eq | reflexivity]).
  - intros w id config k r error Hp Hretry Hr.
    assert (Hpass : passes_through config error (unpark id w)).
    { unfold passes_through. rewrite Hretry. simpl. apply andb_false_r. }
    assert (Hd : deliver id r w
                 = resumeCall k (Rejected (ThrownAuthError (handleError error)))
                     (unpark id w)).
    { unfold deliver. rewrite Hp.
      now apply (responseInterceptor_pass config r error). }
    rewrite Hd. split; [now rewrite resumeCall_rejected_sent |].
    intros call m -> Hm. cbn [resumeCall complete].
    rewrite resume_rejected by exact Hm. reflexivity.
Qed.

(** C1 (amended) at a concrete input: two profile requests in flight, both
    answered 401. *)
Lemma refresh_per_request_witness :
  NoDup (map fst twoUnauthorized)
  /\ truthy (this_refreshToken twoInFlight) = true
  /\ refreshCalls (run (unauthorized_replies twoUnauthorized) twoInFlight)
     = refreshCalls twoInFlight + 2.
Proof.
  assert (Hnd : NoDup (map fst twoUnauthorized)).
  { simpl. apply NoDup_cons. split.
    - rewrite elem_of_cons. intros [H | H]; [discriminate | inversion H].
    - apply NoDup_cons. split; [intros H; inversion H | apply NoDup_nil_2]. }
  split; [exact Hnd |]. split; [reflexivity |].
  destruct refresh_per_request as (Hbatch & _).
  refine (proj1 (proj2 (Hbatch twoUnauthorized twoInFlight Hnd eq_refl _))).
  intros b Hb. unfold twoUnauthorized in Hb. rewrite !elem_of_cons in Hb.
  destruct Hb as [-> | [-> | Hb]]; [| | inversion Hb].
  - split; [simpl; lia |]. eexists _, _. split; reflexivity.
  - split; [simpl; lia |]. eexists _, _. split; reflexivity.
Defined.

End SingleFlight.

Section RefreshFailure.
Import Api.

Lemma intercepted_pending (id : nat) (config : Request) (k : Cont)
    (envelope : ApiResponse) (w : World) :
  pending (intercepted id config k envelope w) !! nextRequest w
  = Some (requestInterceptor w (refreshRequest w),
          Intercept401 (mark_retry config) (ErrResponse 401 envelope) k).
Proof. unfold intercepted. simpl. apply lookup_insert_eq. Qed.

(** C4. At the failing input the code departs from the claim.  A request of
    a method that lets rejections through comes back 401 while a refresh
    token is stored, and the refresh call is then answered with a 2xx
    envelope whose [success] is false: the original failure is surfaced
    (normalized) and the credentials are cleared, but [onTokenExpired] is not
    invoked at all.  The sibling path, a refresh call that fails at the
    transport with another status or without response, does invoke it once
    when it is registered. *)
Theorem refresh_refusal_skips_expiry_callback (w : World) (id call : nat)
    (config : Request) (m : ServiceMethod) (unauthorized : ApiResponse) :
  pending w !! id = Some (config, Return call (Direct m)) ->
  _retry config = false ->
  truthy (this_refreshToken w) = true ->
  propagates m = true ->
  (forall status envelope,
      settle (Replied status envelope) = inl envelope ->
      success envelope = false ->
      let w' := run [Reply id (Replied 401 unauthorized);
                     Reply (nextRequest w) (Replied status envelope)] w in
      outcomes w'
      = outcomes w
        ++ [(call, Direct m,
             Threw (ThrownAuthError
                      (handleError (ErrResponse 401 unauthorized))))]
      /\ credentials_cleared w'
      /\ tokenExpiredCalls w' = tokenExpiredCalls w)
  /\ (forall r error,
        settle r = inr error ->
        is401 error = false ->
        let w' := run [Reply id (Replied 401 unauthorized);
                       Reply (nextRequest w) r] w in
        outcomes w'
        = outcomes w
          ++ [(call, Direct m,
               Threw (ThrownAuthError
                        (handleError (ErrResponse 401 unauthorized))))]
        /\ credentials_cleared w'
        /\ tokenExpiredCalls w'
           = tokenExpiredCalls w
             + (if onTokenExpired (this_config w) then 1 else 0)).
Proof.
  intros Hp Hretry Hrt Hm.
  set (k := Return call (Direct m)).
  set (t := ThrownAuthError (handleError (ErrResponse 401 unauthorized))).
  assert (Hfirst : forall r,
             run [Reply id (Replied 401 unauthorized);
                  Reply (nextRequest w) r] w
             = deliver (nextRequest w) r
                 (intercepted id config k unauthorized w)).
  { intros r. unfold run. simpl.
    now rewrite (deliver_intercepted id config k unauthorized w Hp Hretry Hrt). }
  assert (Hfinal : forall w0,
             credentials_cleared w0 ->
             outcomes (complete call (Direct m) (Rejected t) w0)
             = outcomes w0 ++ [(call, Direct m, Threw t)]
             /\ credentials_cleared (complete call (Direct m) (Rejected t) w0)
             /\ tokenExpiredCalls (complete call (Direct m) (Rejected t) w0)
                = tokenExpiredCalls w0).
  { intros w0 Hc. split; [| split].
    - cbn [complete]. rewrite resume_rejected by exact Hm. reflexivity.
    - now apply complete_rejected_cleared.
    - apply complete_frame. }
  split.
  - intros status envelope Hr Hs. cbn zeta. rewrite Hfirst.
    rewrite (deliver_refresh _ _ _ _ _ _ _
               (intercepted_pending id config k unauthorized w) envelope Hr).
    cbn [resume]. rewrite Hs. cbn [fst snd afterRefresh resumeCall k].
    set (w1 := unpark _ _).
    destruct (Hfinal (clearTokensFromStorage w1)) as (Ho & Hc & He).
    { apply (credentials_cleared_same (clearTokensFromStorage w));
        try reflexivity.
      apply clearTokensFromStorage_cleared. }
    split; [exact Ho |]. split; [exact Hc | exact He].
  - intros r error Hr H401. cbn zeta. rewrite Hfirst.
    unfold deliver. rewrite intercepted_pending.
    rewrite (responseInterceptor_pass _ r error);
      [| exact Hr | unfold passes_through; now rewrite H401].
    rewrite resumeCall_Intercept401.
    cbn [resume fst snd afterRefresh resumeCall k].
    set (w1 := unpark _ _).
    destruct (notifyTokenExpired_frame (clearTokensFromStorage w1))
      as (_ & Ht & Hrf & Hls & Hcf & Hout & Hcalls).
    destruct (Hfinal (notifyTokenExpired (clearTokensFromStorage w1)))
      as (Ho & Hc & He).
    { apply (credentials_cleared_same (clearTokensFromStorage w));
        [exact Hcf | exact Ht | exact Hrf | exact Hls |].
      apply clearTokensFromStorage_cleared. }
    split; [etransitivity; [exact Ho | now rewrite Hout] |].
    split; [exact Hc |]. etransitivity; [exact He | exact Hcalls].
Qed.

(** C4 at a concrete input: a profile request answered 401, then the
    refresh call answered HTTP 200 with [success: false], with a callback
    registered. *)
Lemma refresh_refusal_skips_expiry_callback_witness :
  truthy (this_refreshToken oneInFlight) = true
  /\ onTokenExpired (this_config oneInFlight) = true
  /\ (let w' := run [Reply 0 SampleApi.unauthorized;
                     Reply 1 (SampleApi.refused "refresh token revoked"
                                "TOKEN_EXPIRED")] oneInFlight in
      outcomes w'
      = [(0, Direct getProfile,
          Threw (ThrownAuthError
                   {| code := "TOKEN_EXPIRED"; message := "jwt expired";
                      details := None |}))]
      /\ credentials_cleared w'
      /\ tokenExpiredCalls w' = 0).
Proof.
  split; [reflexivity |]. split; [reflexivity |].
  refine (proj1 (refresh_refusal_skips_expiry_callback oneInFlight 0 0
                   (requestInterceptor SampleApi.service
                      (request GET "/api/users/profile" NoBody))
                   getProfile SampleApi.expired
                   eq_refl eq_refl eq_refl eq_refl)
            200%Z (SampleApi.refusal "refresh token revoked" "TOKEN_EXPIRED")
            eq_refl eq_refl).
Defined.

(** A refresh call that is itself answered 401 passes through the same
    interceptor with an unmarked config: another refresh call goes out and
    nothing settles, for as many rounds as the server keeps answering 401. *)
Lemma refresh_answered_401_repeats (n : nat) (envelope : ApiResponse) :
  forall (w : World) (id : nat) (config : Request) (k : Cont),
    pending w !! id = Some (config, k) ->
    _retry config = false ->
    truthy (this_refreshToken w) = true ->
    nextRequest w = S id ->
    let w' := run (unauthorized_rounds n id envelope) w in
    outcomes w' = outcomes w
    /\ refreshCalls w' = refreshCalls w + n
    /\ tokenExpiredCalls w' = tokenExpiredCalls w
    /\ this_token w' = this_token w
    /\ this_refreshToken w' = this_refreshToken w.
Proof.
  induction n as [| n IH]; intros w id config k Hp Hretry Hrt Hnext; cbn zeta.
  - simpl. repeat split. lia.
  - change (run (unauthorized_rounds (S n) id envelope) w)
      with (run (unauthorized_rounds n (S id) envelope)
              (deliver id (Replied 401 envelope) w)).
    rewrite (deliver_intercepted id config k envelope w Hp Hretry Hrt).
    fold (intercepted id config k envelope w).
    destruct (IH (intercepted id config k envelope w) (S id)
                (requestInterceptor w (refreshRequest w))
                (Intercept401 (mark_retry config) (ErrResponse 401 envelope) k))
      as (Ho & Hc & He & Ht & Hr).
    + rewrite <- Hnext. apply intercepted_pending.
    + now rewrite requestInterceptor_retry.
    + exact Hrt.
    + simpl. now rewrite Hnext.
    + rewrite Ho, Hc, He, Ht, Hr. repeat split.
      rewrite (refreshCalls_sent w (intercepted id config k envelope w)
                 [requestInterceptor w (refreshRequest w)] eq_refl).
      rewrite filter_cons_True by apply is_refresh_refreshRequest.
      simpl. lia.
Qed.

End RefreshFailure.

(** ** Operations followed to the end, through the interceptor *)

Section EndToEnd.
Import Api.

(** An answer that the interceptor hands on wakes the continuation with the
    settled call. *)
Lemma deliver_handed_on (id : nat) (config : Request) (k : Cont)
    (r : TransportResult) (w : World) :
  pending w !! id = Some (config, k) ->
  (forall error, settle r = inr error -> passes_through config error w) ->
  deliver id r w = resumeCall k (settled_call r) (unpark id w).
Proof.
  intros Hp Hpass. unfold deliver, settled_call. rewrite Hp.
  destruct (settle r) as [response | error] eqn:Hr.
  - now rewrite (responseInterceptor_ok _ _ response).
  - rewrite (responseInterceptor_pass _ r error); [reflexivity | exact Hr |].
    apply (Hpass error eq_refl).
Qed.

Lemma handed_on_passes (config : Request) (r : TransportResult) (w : World) :
  handed_on r w ->
  forall error, settle r = inr error -> passes_through config error w.
Proof.
  intros H error Hr. unfold passes_through. now rewrite (H error Hr).
Qed.

Lemma retried_passes (config : Request) (w : World) :
  _retry config = true -> forall error, passes_through config error w.
Proof.
  intros Hretry error. unfold passes_through. rewrite Hretry.
  apply andb_false_r.
Qed.

(** Calling an operation that reaches its [await]: the request is on the
    wire, parked under the next request number. *)
Lemma invoke_awaiting (op : Op) (w : World) (config : Request) :
  match op with
  | Direct m => start m (next_call w) = Awaiting config
  | ViaProvider p => start (service_of p) (before p (next_call w)) = Awaiting config
  end ->
  let w0 := invoke op w in
  pending w0 !! nextRequest w
  = Some (requestInterceptor w config, Return (nextCall w) op)
  /\ nextRequest w0 = S (nextRequest w)
  /\ sent w0 = sent w ++ [requestInterceptor w config]
  /\ outcomes w0 = outcomes w
  /\ this_token w0 = this_token w
  /\ this_refreshToken w0 = this_refreshToken w
  /\ localStorage w0 = localStorage w
  /\ this_config w0 = this_config w
  /\ tokenExpiredCalls w0 = tokenExpiredCalls w
  /\ store w0 = match op with
                | Direct _ => store w
                | ViaProvider p => store (before p w)
                end.
Proof.
  intros Hstart. cbn zeta. unfold invoke. destruct op as [m | p].
  - rewrite Hstart. simpl. rewrite lookup_insert_eq. repeat split.
  - rewrite Hstart.
    replace (requestInterceptor (before p (next_call w)) config)
      with (requestInterceptor w config) by (destruct p; reflexivity).
    destruct p; simpl; rewrite lookup_insert_eq; repeat split.
Qed.

(** The refresh call parked behind a 401 fails: the interceptor gives up,
    the credentials are gone, and the continuation is woken with the
    original failure. *)
Lemma deliver_refresh_failed (id : nat) (refresh originalRequest : Request)
    (error : AxiosError) (k : Cont) (r : TransportResult) (w : World) :
  pending w !! id = Some (refresh, Intercept401 originalRequest error k) ->
  refresh_failed r ->
  exists w1,
    deliver id r w
    = resumeCall k (Rejected (ThrownAuthError (handleError error))) w1
    /\ credentials_cleared w1
    /\ outcomes w1 = outcomes w /\ store w1 = store w
    /\ sent w1 = sent w /\ this_config w1 = this_config w.
Proof.
  intros Hp [Herr Hok].
  assert (Hcleared : credentials_cleared (clearTokensFromStorage (unpark id w))).
  { apply (credentials_cleared_same (clearTokensFromStorage w));
      try reflexivity.
    apply clearTokensFromStorage_cleared. }
  assert (Hnotified :
            credentials_cleared
              (notifyTokenExpired (clearTokensFromStorage (unpark id w)))).
  { destruct (notifyTokenExpired_frame (clearTokensFromStorage (unpark id w)))
      as (_ & Ht & Hrf & Hls & Hcf & _).
    now apply (credentials_cleared_same (clearTokensFromStorage (unpark id w))). }
  destruct (notifyTokenExpired_frame (clearTokensFromStorage (unpark id w)))
    as (Hsent & _ & _ & _ & Hcf & Hout & _).
  assert (Hstore : store (notifyTokenExpired (clearTokensFromStorage (unpark id w)))
                   = store w).
  { unfold notifyTokenExpired. now destruct (onTokenExpired _). }
  destruct (settle r) as [response | e] eqn:Hr.
  - rewrite (deliver_refresh id refresh _ error k r w Hp response Hr).
    cbn [resume].
    destruct (success response) eqn:Hs.
    + rewrite (Hok response eq_refl Hs). cbn [fst snd afterRefresh].
      eexists. split; [reflexivity |]. split; [exact Hnotified |].
      repeat split; assumption.
    + cbn [fst snd afterRefresh].
      eexists. split; [reflexivity |]. split; [exact Hcleared |].
      repeat split.
  - unfold deliver. rewrite Hp.
    rewrite (responseInterceptor_pass _ r e);
      [| exact Hr | unfold passes_through; now rewrite (Herr e eq_refl)].
    rewrite resumeCall_Intercept401. cbn [resume fst snd afterRefresh].
    eexists. split; [reflexivity |]. split; [exact Hnotified |].
    repeat split; assumption.
Qed.

(** The refresh call parked behind a 401 succeeds: the request is sent
    again, marked and with the new token. *)
Lemma deliver_refresh_succeeded (id : nat) (refresh originalRequest : Request)
    (error : AxiosError) (k : Cont) (status : Z) (envelope : ApiResponse)
    (d : Payload) (w : World) :
  pending w !! id = Some (refresh, Intercept401 originalRequest error k) ->
  settle (Replied status envelope) = inl envelope ->
  success envelope = true ->
  data envelope = Some d ->
  let retried := with_Authorization (Some (bearer (data_token d)))
                   originalRequest in
  let w' := deliver id (Replied status envelope) w in
  pending w' !! nextRequest w = Some (retried, k)
  /\ nextRequest w' = S (nextRequest w)
  /\ sent w' = sent w ++ [retried]
  /\ outcomes w' = outcomes w /\ store w' = store w
  /\ this_config w' = this_config w
  /\ this_refreshToken w' = this_refreshToken w.
Proof.
  intros Hp Hr Hs Hd. cbn zeta.
  rewrite (deliver_refresh id refresh _ error k _ w Hp envelope Hr).
  cbn [resume]. rewrite Hs, Hd. cbn [fst snd afterRefresh].
  unfold api, requestInterceptor. cbn [this_token with_credentials unpark].
  destruct (truthy (data_token d)); simpl;
    (split; [apply lookup_insert_eq |]); repeat split.
Qed.

(** The body of [logout] after its [await], on the service and through the
    provider: whatever the call settled with, the credentials are cleared
    and the operation resolves. *)
Lemma complete_logout (call : nat) (op : Op) (o : ApiOutcome) (w : World) :
  is_logout op ->
  let w' := complete call op o w in
  outcomes w' = outcomes w ++ [(call, op, Resolved RVoid)]
  /\ credentials_cleared w'
  /\ (op = ViaProvider provider_logout -> store w' = loggedOut).
Proof.
  intros [-> | ->]; cbn zeta; cbn [complete service_of resume after].
  - split; [reflexivity |]. split; [| discriminate].
    apply (credentials_cleared_same (clearTokensFromStorage w));
      try reflexivity.
    apply clearTokensFromStorage_cleared.
  - split; [reflexivity |]. split; [| reflexivity].
    apply (credentials_cleared_same (clearTokensFromStorage w));
      try reflexivity.
    apply clearTokensFromStorage_cleared.
Qed.

(** Rounds of 401: the call parked as [id] comes back 401, a refresh call
    goes out, comes back 401 in its turn, and so on.  Nothing settles and
    nothing changes but the wire. *)
Lemma unauthorized_rounds_pending (n : nat) (envelope : ApiResponse) :
  forall (w : World) (id : nat) (config : Request) (k : Cont),
    pending w !! id = Some (config, k) ->
    _retry config = false ->
    truthy (this_refreshToken w) = true ->
    nextRequest w = S id ->
    let w' := run (unauthorized_rounds n id envelope) w in
    outcomes w' = outcomes w
    /\ same_session w w'
    /\ refreshCalls w' = refreshCalls w + n
    /\ tokenExpiredCalls w' = tokenExpiredCalls w.
Proof.
  induction n as [| n IH]; intros w id config k Hp Hretry Hrt Hnext; cbn zeta.
  - simpl. repeat split. lia.
  - change (run (unauthorized_rounds (S n) id envelope) w)
      with (run (unauthorized_rounds n (S id) envelope)
              (deliver id (Replied 401 envelope) w)).
    rewrite (deliver_intercepted id config k envelope w Hp Hretry Hrt).
    fold (intercepted id config k envelope w).
    destruct (IH (intercepted id config k envelope w) (S id)
                (requestInterceptor w (refreshRequest w))
                (Intercept401 (mark_retry config) (ErrResponse 401 envelope) k))
      as (Ho & (Ht & Hr & Hls & Hst) & Hc & He).
    + rewrite <- Hnext. apply intercepted_pending.
    + now rewrite requestInterceptor_retry.
    + exact Hrt.
    + simpl. now rewrite Hnext.
    + rewrite Ho, Hc, He. unfold same_session. rewrite Ht, Hr, Hls, Hst.
      repeat split.
      rewrite (refreshCalls_sent w (intercepted id config k envelope w)
                 [requestInterceptor w (refreshRequest w)] eq_refl).
      rewrite filter_cons_True by apply is_refresh_refreshRequest.
      simpl. lia.
Qed.

Lemma start_logout (op : Op) (w : World) :
  is_logout op ->
  match op with
  | Direct m => start m (next_call w)
                = Awaiting (request POST "/api/auth/logout" NoBody)
  | ViaProvider p => start (service_of p) (before p (next_call w))
                     = Awaiting (request POST "/api/auth/logout" NoBody)
  end
  /\ store (invoke op w) = store w.
Proof. intros [-> | ->]; split; reflexivity. Qed.

(** C7.  [logout], on the service and through the provider, followed from
    the call to its return.
    (1) When the remote call is answered with anything that the response
        interceptor hands on (a success, or any failure other than a 401
        met while a refresh token is stored), [logout] resolves, the
        credentials are cleared and the provider's store is logged out.
    (2) When it is answered 401 while a refresh token is stored, the
        interceptor first refreshes.  If that refresh fails other than by a
        401, is refused in the envelope or carries no data, [logout]
        resolves all the same, with the same effects;
    (3) if the refresh succeeds, the logout call is made again, and
        whatever answers it, [logout] resolves with the same effects.
    (4) At the failing input the code departs from the claim: while the
        refresh calls are themselves answered 401, each answer only sends
        the next refresh call; [logout] does not return, and token, refresh
        token, storage and store stay as they were, for as many rounds as
        the server answers so.
    (5) In no run does a [logout] settle with an error: when it returns,
        it resolves. *)
Theorem logout_clears_unless_refresh_unauthorized (op : Op) (w : World) :
  is_logout op ->
  (forall r,
      handed_on r w ->
      logout_done op w (run [Call op; Reply (nextRequest w) r] w))
  /\ (truthy (this_refreshToken w) = true ->
      (forall unauthorized r,
          refresh_failed r ->
          logout_done op w
            (run [Call op; Reply (nextRequest w) (Replied 401 unauthorized);
                  Reply (S (nextRequest w)) r] w))
      /\ (forall unauthorized status refreshed d r,
            settle (Replied status refreshed) = inl refreshed ->
            success refreshed = true ->
            data refreshed = Some d ->
            logout_done op w
              (run [Call op; Reply (nextRequest w) (Replied 401 unauthorized);
                    Reply (S (nextRequest w)) (Replied status refreshed);
                    Reply (S (S (nextRequest w))) r] w))
      /\ (forall n unauthorized,
            let w' := run (Call op
                             :: unauthorized_rounds (S n) (nextRequest w)
                                  unauthorized) w in
            outcomes w' = outcomes w
            /\ same_session w w'
            /\ refreshCalls w' = refreshCalls w + S n))
  /\ (forall events config ls call op' s,
        (call, op', s) ∈ outcomes (run events (newApiService config ls)) ->
        is_logout op' -> s = Resolved RVoid).
Proof.
  intros Hop.
  assert (Hnever : forall events config ls call op' s,
             (call, op', s) ∈ outcomes (run events (newApiService config ls)) ->
             is_logout op' -> s = Resolved RVoid).
  { intros events config ls call op' s Hin Hop'.
    pose proof (run_ok events _ (newApiService_ok config ls)) as Hall.
    unfold all_ok in Hall. rewrite Forall_forall in Hall.
    specialize (Hall _ Hin). simpl in Hall.
    destruct Hop' as [-> | ->]; destruct s as [res | t]; simpl in Hall.
    - now rewrite Hall.
    - destruct Hall as [_ []].
    - now rewrite Hall.
    - destruct Hall as [_ []]. }
  destruct (start_logout op w Hop) as [Hstart Hstore].
  destruct (invoke_awaiting op w _ Hstart)
    as (Hp & Hnext & Hsent & Hout & Ht & Hrt & Hls & Hcf & Hexp & _).
  set (w0 := invoke op w) in *.
  set (config := requestInterceptor w (request POST "/api/auth/logout" NoBody))
    in *.
  set (k := Return (nextCall w) op) in *.
  assert (Hretry : _retry config = false)
    by (unfold config; now rewrite requestInterceptor_retry).
  assert (Hdone : forall o w1,
             outcomes w1 = outcomes w ->
             logout_done op w (resumeCall k o w1)).
  { intros o w1 Ho. unfold k. cbn [resumeCall].
    destruct (complete_logout (nextCall w) op o w1 Hop) as (H1 & H2 & H3).
    unfold logout_done. rewrite H1, Ho.
    split; [reflexivity |]. split; assumption. }
  split; [| split; [| exact Hnever]].
  - intros r Hr.
    change (run [Call op; Reply (nextRequest w) r] w)
      with (deliver (nextRequest w) r w0).
    rewrite (deliver_handed_on _ config k r w0 Hp).
    + apply Hdone. exact Hout.
    + apply handed_on_passes. intros error He. rewrite Hrt. now apply Hr.
  - intros Hrefresh.
    assert (Hrt0 : truthy (this_refreshToken w0) = true) by now rewrite Hrt.
    assert (Hfirst : forall unauthorized,
               deliver (nextRequest w) (Replied 401 unauthorized) w0
               = intercepted (nextRequest w) config k unauthorized w0).
    { intros unauthorized.
      now rewrite (deliver_intercepted _ config k unauthorized w0 Hp Hretry Hrt0). }
    assert (Hparked : forall unauthorized,
               pending (intercepted (nextRequest w) config k unauthorized w0)
                 !! S (nextRequest w)
               = Some (requestInterceptor w0 (refreshRequest w0),
                       Intercept401 (mark_retry config)
                         (ErrResponse 401 unauthorized) k)).
    { intros unauthorized. rewrite <- Hnext. apply intercepted_pending. }
    split; [| split].
    + intros unauthorized r Hr.
      change (run [Call op; Reply (nextRequest w) (Replied 401 unauthorized);
                   Reply (S (nextRequest w)) r] w)
        with (deliver (S (nextRequest w)) r
                (deliver (nextRequest w) (Replied 401 unauthorized) w0)).
      rewrite Hfirst.
      destruct (deliver_refresh_failed _ _ _ _ _ r _ (Hparked unauthorized) Hr)
        as (w1 & -> & _ & Ho & _).
      apply Hdone. rewrite Ho. exact Hout.
    + intros unauthorized status refreshed d r Hr Hs Hd.
      change (run [Call op; Reply (nextRequest w) (Replied 401 unauthorized);
                   Reply (S (nextRequest w)) (Replied status refreshed);
                   Reply (S (S (nextRequest w))) r] w)
        with (deliver (S (S (nextRequest w))) r
                (deliver (S (nextRequest w)) (Replied status refreshed)
                   (deliver (nextRequest w) (Replied 401 unauthorized) w0))).
      rewrite Hfirst.
      destruct (deliver_refresh_succeeded _ _ _ _ _ status refreshed d _
                  (Hparked unauthorized) Hr Hs Hd)
        as (Hp2 & _ & _ & Ho2 & _).
      replace (nextRequest
                 (intercepted (nextRequest w) config k unauthorized w0))
        with (S (S (nextRequest w))) in Hp2
        by (unfold intercepted; simpl; now rewrite Hnext).
      rewrite (deliver_handed_on _ _ k r _ Hp2).
      * apply Hdone. cbn [unpark outcomes]. rewrite Ho2. exact Hout.
      * intros error _. apply retried_passes. reflexivity.
    + intros n unauthorized. cbn zeta.
      change (run (Call op
                     :: unauthorized_rounds (S n) (nextRequest w) unauthorized)
                w)
        with (run (unauthorized_rounds (S n) (nextRequest w) unauthorized) w0).
      destruct (unauthorized_rounds_pending (S n) unauthorized w0
                  (nextRequest w) config k Hp Hretry Hrt0 Hnext)
        as (Ho & (H1 & H2 & H3 & H4) & Hc & _).
      rewrite Ho, Hc. unfold same_session. rewrite H1, H2, H3, H4.
      split; [exact Hout |]. split; [repeat split; assumption |].
      rewrite (refreshCalls_sent w w0 _ Hsent).
      unfold config. unfold is_refresh at 1.
      rewrite filter_cons_False; [simpl; lia |].
      rewrite requestInterceptor_url. simpl. discriminate.
Qed.

(** C7 at the failing input: the provider's [logout] with tokens stored,
    answered 401, and the three refresh calls that follow answered 401. *)
Lemma logout_clears_unless_refresh_unauthorized_witness :
  is_logout (ViaProvider provider_logout)
  /\ (let w' := run [Call (ViaProvider provider_logout);
                     Reply 0 SampleApi.unauthorized;
                     Reply 1 SampleApi.unauthorized;
                     Reply 2 SampleApi.unauthorized;
                     Reply 3 SampleApi.unauthorized] SampleApi.service in
      outcomes w' = []
      /\ this_token w' = Some "old" /\ this_refreshToken w' = Some "r"
      /\ localStorage w' = SampleApi.storage
      /\ store w' = Store.initialState
      /\ refreshCalls w' = 4).
Proof.
  assert (Hop : is_logout (ViaProvider provider_logout)) by (right; reflexivity).
  split; [exact Hop |].
  destruct (logout_clears_unless_refresh_unauthorized
              (ViaProvider provider_logout) SampleApi.service Hop)
    as (_ & Hstale & _).
  destruct (Hstale eq_refl) as (_ & _ & Hloop).
  destruct (Hloop 3 SampleApi.expired) as (Ho & (Ht & Hr & Hls & Hst) & Hc).
  repeat split; assumption.
Defined.

End EndToEnd.

(** ** Scenarios *)

Section Scenarios.
Import Api.

(** Login as a plain user and as a super admin. *)
Lemma login_scenarios :
  (isAuthenticated (storeAfterLogin (Sample.someUser "user" [])) = true
   /\ isAdmin (storeAfterLogin (Sample.someUser "user" [])) = false
   /\ loading (storeAfterLogin (Sample.someUser "user" [])) = false
   /\ token (storeAfterLogin (Sample.someUser "user" [])) = Some "t1"
   /\ refreshToken (storeAfterLogin (Sample.someUser "user" [])) = Some "r1")
  /\ (isAdmin (storeAfterLogin (Sample.someUser "super_admin" [])) = true
      /\ isSuperAdmin (storeAfterLogin (Sample.someUser "super_admin" []))
         = true).
Proof. repeat split; vm_compute; reflexivity. Qed.

(** [logout] whose remote call comes back 401: the interceptor tries a
    refresh first.  Whether that refresh is rejected, or succeeds and the
    retried logout call then gets no response, the client ends logged out
    and the caller sees no error. *)
Lemma logout_through_interception :
  (let w' := run [Call (ViaProvider provider_logout);
                  Reply 0 SampleApi.unauthorized; Reply 1 SampleApi.forbidden]
               SampleApi.service in
   outcomes w' = [(0, ViaProvider provider_logout, Resolved RVoid)]
   /\ store w' = loggedOut
   /\ this_token w' = None /\ this_refreshToken w' = None
   /\ localStorage w' = ∅)
  /\ (let w' := run [Call (ViaProvider provider_logout);
                     Reply 0 SampleApi.unauthorized;
                     Reply 1 (SampleApi.refreshed "t2"); Reply 2 NoReply]
                  SampleApi.service in
      outcomes w' = [(0, ViaProvider provider_logout, Resolved RVoid)]
      /\ store w' = loggedOut
      /\ this_token w' = None /\ this_refreshToken w' = None
      /\ localStorage w' = ∅).
Proof. cbn zeta. repeat split; vm_compute; reflexivity. Qed.

(** One 401, a successful refresh, and the retried request succeeds: one
    refresh call, the retry carries the new token, the caller gets the data. *)
Lemma single_unauthorized_then_retry :
  let w' := run [Call (Direct getProfile); Reply 0 SampleApi.unauthorized;
                 Reply 1 (SampleApi.refreshed "t2");
                 Reply 2 (Replied 200
                            (SampleApi.envelope true
                               (Some (Profile Sample.moderator)) None None))]
              SampleApi.service in
  refreshCalls w' = 1
  /\ Authorization <$> last (sent w') = Some (Some "Bearer t2")
  /\ outcomes w'
     = [(0, Direct getProfile,
         Resolved (RData (Some (Profile Sample.moderator))))]
  /\ this_token w' = Some "t2" /\ this_refreshToken w' = Some "r".
Proof. cbn zeta. repeat split; vm_compute; reflexivity. Qed.

End Scenarios.

(* ===================================================================== *)
(** * Further properties                                                 *)
(* ===================================================================== *)

(** ** The access gate, beyond a signed-in user *)

Section Gate.
Import ProtectedRouteM.

Lemma inherited_truthy (r : string) :
  r ∈ objectPrototype -> truthy (Some r) = true.
Proof.
  intros Hin. unfold truthy.
  destruct (bool_decide_reflect (r = "")) as [-> | Hne]; [| reflexivity].
  contradiction (empty_not_inherited Hin).
Qed.

Lemma role_met_block (requiredRole : option string) (u : User) :
  match requiredRole with
  | Some required =>
      if truthy requiredRole && negb (bool_decide (role u = required))
      then negb (lessThan (roleLevel (role u)) (roleLevel required)) else true
  | None => true
  end = true <-> role_met requiredRole u.
Proof.
  destruct requiredRole as [r |]; simpl role_met; [| tauto].
  destruct (bool_decide_reflect (role u ∈ objectPrototype)) as [Hu | Hu];
    destruct (bool_decide_reflect (r ∈ objectPrototype)) as [Hr | Hr].
  - rewrite (inherited_truthy r Hr).
    rewrite (roleLevel_inherited _ Hu), (roleLevel_inherited _ Hr).
    unfold lessThan. cbn [andb].
    destruct (bool_decide_reflect (role u = r)) as [He | Hne]; cbn [negb].
    + split; [intros _; left; now symmetry | reflexivity].
    + rewrite negb_true_iff. split; [now right |].
      intros [He | H]; [now contradiction Hne | exact H].
  - split; [intros _; now right |]. intros _.
    apply role_block_mixed. left. now split.
  - split; [intros _; now right |]. intros _.
    apply role_block_mixed. right. now split.
  - rewrite (role_block_spec (role u) r Hu Hr). split; [now right |].
    intros [-> | H]; [lia | exact H].
Qed.

Lemma permissions_met_block (requiredPermissions : option (list string))
    (u : User) :
  match requiredPermissions with
  | Some l =>
      if 0 <? length l then every_included l (default [] (permissions u))
      else true
  | None => true
  end = true <-> permissions_met requiredPermissions u.
Proof.
  destruct requiredPermissions as [l |]; simpl permissions_met.
  - apply permission_block_spec.
  - tauto.
Qed.

(** The component, for a signed-in user, in terms of its two blocks. *)
Lemma ProtectedRoute_blocks (auth : AuthState) (u : User)
    (requiredRole : option string) (requiredPermissions : option (list string)) :
  signed_in auth u ->
  ProtectedRoute auth requiredRole requiredPermissions =
    if negb match requiredRole with
            | Some required =>
                if truthy requiredRole && negb (bool_decide (role u = required))
                then negb (lessThan (roleLevel (role u)) (roleLevel required))
                else true
            | None => true
            end
    then RoleDenied
    else if match requiredPermissions with
            | Some l =>
                if 0 <? length l
                then every_included l (default [] (permissions u)) else true
            | None => true
            end
         then Children else PermissionsDenied.
Proof.
  intros (Hl & Ha & Hu). unfold ProtectedRoute. rewrite Hl, Ha, Hu.
  destruct (negb _); [reflexivity |].
  destruct requiredPermissions as [l |]; [| reflexivity].
  destruct (0 <? length l); reflexivity.
Qed.

Lemma ProtectedRoute_Children_iff (auth : AuthState)
    (requiredRole : option string) (requiredPermissions : option (list string)) :
  ProtectedRoute auth requiredRole requiredPermissions = Children
  <-> exists u, signed_in auth u /\ role_met requiredRole u
                /\ permissions_met requiredPermissions u.
Proof.
  split.
  - intros H.
    destruct (loading auth) eqn:Hl;
      [unfold ProtectedRoute in H; rewrite Hl in H; discriminate |].
    destruct (isAuthenticated auth) eqn:Ha;
      [| unfold ProtectedRoute in H; rewrite Hl, Ha in H; discriminate].
    destruct (user auth) as [u |] eqn:Hu;
      [| unfold ProtectedRoute in H; rewrite Hl, Ha, Hu in H; discriminate].
    assert (Hin : signed_in auth u) by (repeat split; assumption).
    exists u. split; [exact Hin |].
    rewrite (ProtectedRoute_blocks auth u _ _ Hin) in H.
    rewrite <- role_met_block, <- permissions_met_block.
    destruct (match requiredRole with Some _ => _ | None => _ end);
      [| discriminate].
    destruct (match requiredPermissions with Some _ => _ | None => _ end);
      [split; reflexivity | discriminate].
  - intros (u & Hin & Hr & Hp).
    rewrite (ProtectedRoute_blocks auth u _ _ Hin).
    apply role_met_block in Hr. apply permissions_met_block in Hp.
    rewrite Hr, Hp. reflexivity.
Qed.

(** When the role block refuses. *)
Lemma ProtectedRoute_RoleDenied_iff (auth : AuthState) (u : User) (r : string)
    (perms : option (list string)) :
  signed_in auth u ->
  ProtectedRoute auth (Some r) perms <> RoleDenied <-> role_met (Some r) u.
Proof.
  intros Hin. rewrite <- role_met_block.
  apply (role_block_decides auth u r perms Hin).
Qed.

(** X1. The gate renders its children exactly when the store is not loading,
    holds an authenticated user, and that user meets the role requirement
    and the permission requirement (each met trivially when absent).  The
    role requirement is met by the required role itself; between two roles
    that name no inherited property, by a level at least as high; by any
    role when exactly one of the two names an inherited property; and
    between two such names, unless the text of the user's sorts first.
    While loading the gate renders the loading view whatever else holds,
    and without an authenticated user it renders the fallback whatever is
    required. *)
Theorem gate_outcomes (auth : AuthState) (requiredRole : option string)
    (requiredPermissions : option (list string)) :
  (ProtectedRoute auth requiredRole requiredPermissions = Children
   <-> exists u, signed_in auth u /\ role_met requiredRole u
                 /\ permissions_met requiredPermissions u)
  /\ (ProtectedRoute auth requiredRole requiredPermissions = LoadingView
      <-> loading auth = true)
  /\ (ProtectedRoute auth requiredRole requiredPermissions = FallbackView
      <-> loading auth = false
          /\ (isAuthenticated auth = false \/ user auth = None)).
Proof.
  split; [apply ProtectedRoute_Children_iff |].
  destruct (loading auth) eqn:Hl.
  { unfold ProtectedRoute. rewrite Hl. split; split; try tauto; try discriminate.
    intros [? _]. discriminate. }
  destruct (isAuthenticated auth) eqn:Ha; destruct (user auth) as [u |] eqn:Hu;
    try (unfold ProtectedRoute; rewrite Hl, Ha, ?Hu;
         split; split; try tauto; try discriminate; fail).
  - assert (Hin : signed_in auth u) by (repeat split; assumption).
    rewrite (ProtectedRoute_blocks auth u _ _ Hin).
    split; split; try discriminate.
    + destruct (negb _); [discriminate |].
      destruct (match requiredPermissions with Some _ => _ | None => _ end);
        discriminate.
    + destruct (negb _); [discriminate |].
      destruct (match requiredPermissions with Some _ => _ | None => _ end);
        discriminate.
    + intros [_ [H | H]]; discriminate.
Qed.

(** X2. Access is monotone among roles that name no inherited property: if
    the gate renders its children for one such user, it renders them, under
    the same requirements, for any signed-in user of such a role whose
    level is at least as high and who holds at least the same
    permissions. *)
Theorem gate_monotone (auth auth' : AuthState) (u u' : User)
    (requiredRole : option string) (requiredPermissions : option (list string)) :
  signed_in auth u -> signed_in auth' u' ->
  role u ∉ objectPrototype -> role u' ∉ objectPrototype ->
  rank (role u) <= rank (role u') ->
  (forall p, p ∈ default [] (permissions u) -> p ∈ default [] (permissions u')) ->
  ProtectedRoute auth requiredRole requiredPermissions = Children ->
  ProtectedRoute auth' requiredRole requiredPermissions = Children.
Proof.
  intros Hin Hin' Hu Hu' Hlevel Hperm H.
  apply ProtectedRoute_Children_iff in H.
  destruct H as (v & (_ & _ & Hv) & Hr & Hp).
  destruct Hin as (Hl & Ha & Hus). rewrite Hus in Hv. injection Hv as <-.
  apply ProtectedRoute_Children_iff. exists u'. split; [exact Hin' |]. split.
  - destruct requiredRole as [r |]; [| exact I]. simpl in *. right.
    rewrite (bool_decide_eq_false_2 _ Hu) in Hr.
    rewrite (bool_decide_eq_false_2 _ Hu').
    destruct (bool_decide (r ∈ objectPrototype)); [exact I |].
    destruct Hr as [-> | Hr]; lia.
  - destruct requiredPermissions as [l |]; simpl in *; [| exact I].
    intros p Hpl. apply Hperm, Hp, Hpl.
Qed.

Lemma gate_monotone_witness :
  signed_in (Sample.signedIn Sample.moderator) Sample.moderator
  /\ signed_in (Sample.signedIn (Sample.someUser UserRole.ADMIN
                                   [Permission.READ_PROFILE;
                                    Permission.READ_USERS;
                                    Permission.MANAGE_ROLES]))
       (Sample.someUser UserRole.ADMIN
          [Permission.READ_PROFILE; Permission.READ_USERS;
           Permission.MANAGE_ROLES])
  /\ ProtectedRoute
       (Sample.signedIn (Sample.someUser UserRole.ADMIN
                           [Permission.READ_PROFILE; Permission.READ_USERS;
                            Permission.MANAGE_ROLES]))
       (Some UserRole.PREMIUM) (Some [Permission.READ_USERS]) = Children.
Proof.
  assert (H1 : signed_in (Sample.signedIn Sample.moderator) Sample.moderator)
    by (repeat split; reflexivity).
  assert (H2 : signed_in
                 (Sample.signedIn (Sample.someUser UserRole.ADMIN
                                     [Permission.READ_PROFILE;
                                      Permission.READ_USERS;
                                      Permission.MANAGE_ROLES]))
                 (Sample.someUser UserRole.ADMIN
                    [Permission.READ_PROFILE; Permission.READ_USERS;
                     Permission.MANAGE_ROLES]))
    by (repeat split; reflexivity).
  split; [exact H1 |]. split; [exact H2 |].
  refine (gate_monotone _ _ _ _ (Some UserRole.PREMIUM)
            (Some [Permission.READ_USERS]) H1 H2 _ _ _ _ eq_refl).
  - apply (bool_decide_eq_false_1 _). vm_compute. reflexivity.
  - apply (bool_decide_eq_false_1 _). vm_compute. reflexivity.
  - vm_compute. lia.
  - simpl. intros p Hp. rewrite !elem_of_cons in Hp. rewrite !elem_of_cons.
    tauto.
Defined.

Lemma rank_known (r : string) (n : nat) :
  roleHierarchy !! r = Some n -> 1 <= rank r <= 5.
Proof.
  intros H. unfold rank. rewrite H.
  apply elem_of_list_to_map_2 in H. rewrite !elem_of_cons in H.
  repeat destruct H as [[= -> ->] | H]; try (inversion H; fail); simpl; lia.
Qed.

Lemma rank_le_5 (r : string) : rank r <= 5.
Proof.
  destruct (roleHierarchy !! r) as [n |] eqn:E.
  - apply (rank_known r n E).
  - rewrite (rank_unknown r E). lia.
Qed.

(** X3. Roles outside the hierarchy, and the top of it.  For a signed-in
    user: a required role that is not one of the five and names no inherited
    property is met by every user; a user whose own role is such a string is
    denied every required role of the five; a user whose role names an
    inherited property ([constructor], [toString], [__proto__], ...) is
    denied no required role that is not such a name itself, so none of the
    five; and a SUPER_ADMIN is never denied on role. *)
Theorem gate_roles_outside_hierarchy (auth : AuthState) (u : User) :
  signed_in auth u ->
  (forall r perms,
      roleHierarchy !! r = None -> r ∉ objectPrototype ->
      ProtectedRoute auth (Some r) perms <> RoleDenied)
  /\ (roleHierarchy !! role u = None -> role u ∉ objectPrototype ->
      forall r perms,
        roleHierarchy !! r <> None ->
        ProtectedRoute auth (Some r) perms = RoleDenied)
  /\ (role u ∈ objectPrototype ->
      forall r perms,
        r ∉ objectPrototype ->
        ProtectedRoute auth (Some r) perms <> RoleDenied)
  /\ (role u = UserRole.SUPER_ADMIN ->
      forall r perms, ProtectedRoute auth (Some r) perms <> RoleDenied).
Proof.
  intros Hin.
  split; [| split; [| split]].
  - intros r perms Hr Hno.
    apply (ProtectedRoute_RoleDenied_iff auth u r perms Hin). simpl. right.
    rewrite (bool_decide_eq_false_2 _ Hno).
    destruct (bool_decide (role u ∈ objectPrototype)); [exact I |].
    rewrite (rank_unknown r Hr). lia.
  - intros Hu Hno r perms Hr.
    destruct (roleHierarchy !! r) as [n |] eqn:E; [| now contradiction Hr].
    pose proof (rank_known r n E) as Hrank.
    pose proof (roleHierarchy_not_inherited r n E) as Hrno.
    assert (Hnot : ~ role_met (Some r) u).
    { simpl.
      rewrite (bool_decide_eq_false_2 _ Hno), (bool_decide_eq_false_2 _ Hrno).
      rewrite (rank_unknown _ Hu).
      intros [-> | Hd]; [congruence | lia]. }
    destruct (ProtectedRoute_RoleDenied_iff auth u r perms Hin) as [Hfwd _].
    destruct (ProtectedRoute auth (Some r) perms);
      try reflexivity; contradiction Hnot; apply Hfwd; discriminate.
  - intros Hu r perms Hno.
    apply (ProtectedRoute_RoleDenied_iff auth u r perms Hin). simpl. right.
    rewrite (bool_decide_eq_true_2 _ Hu), (bool_decide_eq_false_2 _ Hno).
    exact I.
  - intros Hu r perms.
    apply (ProtectedRoute_RoleDenied_iff auth u r perms Hin). simpl. right.
    rewrite Hu.
    replace (bool_decide (UserRole.SUPER_ADMIN ∈ objectPrototype)) with false
      by (vm_compute; reflexivity).
    destruct (bool_decide (r ∈ objectPrototype)); [exact I |].
    pose proof (rank_le_5 r).
    replace (rank UserRole.SUPER_ADMIN) with 5 by reflexivity. lia.
Qed.

Lemma gate_roles_outside_hierarchy_witness :
  signed_in (Sample.signedIn (Sample.someUser "toString" []))
    (Sample.someUser "toString" [])
  /\ ProtectedRoute (Sample.signedIn (Sample.someUser "toString" []))
       (Some UserRole.SUPER_ADMIN) None <> RoleDenied.
Proof.
  assert (H : signed_in (Sample.signedIn (Sample.someUser "toString" []))
                (Sample.someUser "toString" []))
    by (repeat split; reflexivity).
  split; [exact H |].
  destruct (gate_roles_outside_hierarchy _ _ H) as (_ & _ & Hmember & _).
  apply Hmember.
  - apply (bool_decide_eq_true_1 _). vm_compute. reflexivity.
  - apply (bool_decide_eq_false_1 _). vm_compute. reflexivity.
Defined.

End Gate.

(** ** The reducer, over sequences of actions *)

Section ReducerFrame.
Import Store.

(** X4. Only SET_USER and LOGOUT change who is signed in: across any
    sequence of the other actions (SET_LOADING, SET_TOKEN, SET_REFRESH_TOKEN,
    SET_ERROR, CLEAR_ERROR) the user and the three derived flags stay as
    they were. *)
Theorem identity_changes_only_by_setUser_or_logout (actions : list AuthAction)
    (s : AuthState) :
  Forall (fun a => keeps_identity a = true) actions ->
  user (dispatchAll s actions) = user s
  /\ isAuthenticated (dispatchAll s actions) = isAuthenticated s
  /\ isAdmin (dispatchAll s actions) = isAdmin s
  /\ isSuperAdmin (dispatchAll s actions) = isSuperAdmin s.
Proof.
  revert s. induction actions as [| a actions IH]; intros s Hall.
  - repeat split.
  - apply Forall_cons in Hall. destruct Hall as [Ha Hall].
    change (dispatchAll s (a :: actions))
      with (dispatchAll (authReducer s a) actions).
    destruct (IH (authReducer s a) Hall) as (-> & -> & -> & ->).
    destruct a; try discriminate Ha; repeat split.
Qed.

Lemma identity_changes_only_by_setUser_or_logout_witness :
  Forall (fun a => keeps_identity a = true)
    [SET_TOKEN (Some "t2"); SET_ERROR (Some "oops"); CLEAR_ERROR;
     SET_LOADING true]
  /\ user (dispatchAll (Sample.signedIn Sample.moderator)
             [SET_TOKEN (Some "t2"); SET_ERROR (Some "oops"); CLEAR_ERROR;
              SET_LOADING true])
     = Some Sample.moderator.
Proof.
  assert (H : Forall (fun a => keeps_identity a = true)
                [SET_TOKEN (Some "t2"); SET_ERROR (Some "oops"); CLEAR_ERROR;
                 SET_LOADING true])
    by (repeat constructor).
  split; [exact H |].
  exact (proj1 (identity_changes_only_by_setUser_or_logout _
                  (Sample.signedIn Sample.moderator) H)).
Defined.

End ReducerFrame.

(** ** The credential store across runs and reloads *)

Section Storage.
Import Api.

Ltac split_matches :=
  repeat match goal with
         | |- context [match ?x with _ => _ end] => destruct x
         end.

Lemma same_storage_elsewhere_refl (w : World) : same_storage_elsewhere w w.
Proof. split; [reflexivity | intros; reflexivity]. Qed.

Lemma same_storage_elsewhere_trans (w1 w2 w3 : World) :
  same_storage_elsewhere w1 w2 -> same_storage_elsewhere w2 w3 ->
  same_storage_elsewhere w1 w3.
Proof.
  unfold same_storage_elsewhere, tokenKey, refreshTokenKey.
  intros [Hc1 H1] [Hc2 H2]. split; [congruence |].
  intros k Hk Hk'. rewrite H2, H1; [reflexivity | assumption ..| |];
    rewrite Hc1; assumption.
Qed.

(** A world that differs only outside the service fields and the storage. *)
Lemma same_storage_elsewhere_fields (w w' : World) :
  this_config w' = this_config w -> localStorage w' = localStorage w ->
  same_storage_elsewhere w w'.
Proof. intros Hc Hl. split; [exact Hc | intros; now rewrite Hl]. Qed.

Lemma saveTokensToStorage_elsewhere (t r : option string) (w : World) :
  same_storage_elsewhere w (saveTokensToStorage t r w).
Proof.
  split; [reflexivity |]. intros k Hk Hk'. simpl.
  rewrite lookup_insert_ne by congruence. now rewrite lookup_insert_ne by congruence.
Qed.

Lemma clearTokensFromStorage_elsewhere (w : World) :
  same_storage_elsewhere w (clearTokensFromStorage w).
Proof.
  split; [reflexivity |]. intros k Hk Hk'. simpl.
  rewrite lookup_delete_ne by congruence. now rewrite lookup_delete_ne by congruence.
Qed.

Lemma resume_elsewhere (m : ServiceMethod) (o : ApiOutcome) (w : World) :
  same_storage_elsewhere w (fst (resume m o w)).
Proof.
  destruct m; destruct o; simpl; unfold session_resume; split_matches; simpl;
    first [ apply same_storage_elsewhere_refl
          | apply saveTokensToStorage_elsewhere
          | apply clearTokensFromStorage_elsewhere
          | idtac ].
  split; [reflexivity |]. intros k Hk Hk'. simpl.
  now rewrite lookup_insert_ne by congruence.
Qed.

Lemma after_elsewhere (p : ProviderMethod) (s : Settled) (w : World) :
  same_storage_elsewhere w (fst (after p s w)).
Proof.
  destruct p; simpl; unfold session_after; split_matches; simpl;
    apply same_storage_elsewhere_fields; reflexivity.
Qed.

Lemma complete_elsewhere (call : nat) (op : Op) (o : ApiOutcome) (w : World) :
  same_storage_elsewhere w (complete call op o w).
Proof.
  unfold complete. destruct op as [m | p].
  - pose proof (resume_elsewhere m o w) as H.
    destruct (resume m o w) as [w1 s]. simpl in H.
    apply (same_storage_elsewhere_trans _ _ _ H).
    apply same_storage_elsewhere_fields; reflexivity.
  - pose proof (resume_elsewhere (service_of p) o w) as H.
    destruct (resume (service_of p) o w) as [w1 s]. simpl in H.
    pose proof (after_elsewhere p s w1) as H'.
    destruct (after p s w1) as [w2 s']. simpl in H'.
    apply (same_storage_elsewhere_trans _ _ _ H).
    apply (same_storage_elsewhere_trans _ _ _ H').
    apply same_storage_elsewhere_fields; reflexivity.
Qed.

Lemma notifyTokenExpired_elsewhere (w : World) :
  same_storage_elsewhere w (notifyTokenExpired w).
Proof.
  unfold notifyTokenExpired. destruct (onTokenExpired _);
    apply same_storage_elsewhere_fields; reflexivity.
Qed.

Lemma afterRefresh_elsewhere (settle_k : ApiOutcome -> World -> World)
    (originalRequest : Request) (error : AxiosError) (k : Cont)
    (s : Settled) (w : World) :
  (forall o w', same_storage_elsewhere w' (settle_k o w')) ->
  same_storage_elsewhere w (afterRefresh settle_k originalRequest error k s w).
Proof.
  intros Hk. unfold afterRefresh.
  destruct s as [[| | [] | |] | t]; try apply Hk.
  - apply same_storage_elsewhere_fields; reflexivity.
  - eapply same_storage_elsewhere_trans; [| apply Hk].
    eapply same_storage_elsewhere_trans;
      [apply clearTokensFromStorage_elsewhere
      | apply notifyTokenExpired_elsewhere].
Qed.

Lemma resumeCall_elsewhere (k : Cont) :
  forall (o : ApiOutcome) (w : World),
    same_storage_elsewhere w (resumeCall k o w).
Proof.
  induction k as [call op | originalRequest error k IH]; intros o w.
  - apply complete_elsewhere.
  - rewrite resumeCall_Intercept401.
    eapply same_storage_elsewhere_trans; [apply (resume_elsewhere refreshAccessToken) |].
    now apply afterRefresh_elsewhere.
Qed.

Lemma step_elsewhere (e : Event) (w : World) :
  same_storage_elsewhere w (step w e).
Proof.
  destruct e as [op | id r]; simpl.
  - unfold invoke. destruct op as [m | p].
    + destruct (start m (next_call w)) as [config | s];
        apply same_storage_elsewhere_fields; reflexivity.
    + destruct (start _ _) as [config | s].
      * apply same_storage_elsewhere_fields; destruct p; reflexivity.
      * pose proof (after_elsewhere p s (before p (next_call w))) as H.
        destruct (after p s _) as [w2 s']. simpl in H.
        eapply same_storage_elsewhere_trans;
          [| eapply same_storage_elsewhere_trans; [exact H |]];
          apply same_storage_elsewhere_fields; destruct p; reflexivity.
  - unfold deliver. destruct (pending w !! id) as [[config k] |];
      [| apply same_storage_elsewhere_refl].
    eapply (same_storage_elsewhere_trans _ (unpark id w));
      [apply same_storage_elsewhere_fields; reflexivity |].
    unfold responseInterceptor. destruct (settle r) as [response | error];
      [apply resumeCall_elsewhere |].
    unfold onRejected. destruct (_ && _ && _); [| apply resumeCall_elsewhere].
    destruct (start refreshAccessToken (unpark id w)) as [refresh | s].
    + apply same_storage_elsewhere_fields; reflexivity.
    + apply afterRefresh_elsewhere. intros. apply resumeCall_elsewhere.
Qed.

(** X5. Whatever operations are called and whatever the server answers, in
    whatever order, the service reads and writes browser storage only at its
    two configured keys: every other key keeps its value (or its absence),
    and the configuration is never changed. *)
Theorem storage_touched_only_at_configured_keys (events : list Event) :
  forall (w : World) (k : string),
    k <> tokenKey w -> k <> refreshTokenKey w ->
    localStorage (run events w) !! k = localStorage w !! k
    /\ this_config (run events w) = this_config w.
Proof.
  assert (H : forall w, same_storage_elsewhere w (run events w)).
  { induction events as [| e events IH]; intros w.
    - apply same_storage_elsewhere_refl.
    - change (run (e :: events) w) with (run events (step w e)).
      eapply same_storage_elsewhere_trans; [apply step_elsewhere | apply IH]. }
  intros w k Hk Hk'. destruct (H w) as [Hc Hl]. split; [now apply Hl | exact Hc].
Qed.

Lemma storage_touched_only_at_configured_keys_witness :
  "theme" <> tokenKey SampleApi.service
  /\ "theme" <> refreshTokenKey SampleApi.service
  /\ localStorage
       (run [Call (Direct logout); Reply 0 NoReply] SampleApi.service)
     !! "theme"
     = localStorage SampleApi.service !! "theme".
Proof.
  assert (H1 : "theme" <> tokenKey SampleApi.service) by discriminate.
  assert (H2 : "theme" <> refreshTokenKey SampleApi.service) by discriminate.
  split; [exact H1 |]. split; [exact H2 |].
  exact (proj1 (storage_touched_only_at_configured_keys
                  [Call (Direct logout); Reply 0 NoReply]
                  SampleApi.service "theme" H1 H2)).
Defined.

Lemma saveTokensToStorage_lookup (t r : option string) (w : World) :
  localStorage (saveTokensToStorage t r w) !! refreshTokenKey w
  = Some (js_string r)
  /\ (tokenKey w <> refreshTokenKey w ->
      localStorage (saveTokensToStorage t r w) !! tokenKey w
      = Some (js_string t)).
Proof.
  unfold saveTokensToStorage. simpl. split; [apply lookup_insert_eq |].
  intros Hne. rewrite lookup_insert_ne by congruence. apply lookup_insert_eq.
Qed.

Lemma start_opens_session (m : ServiceMethod) (w : World) :
  opens_session m = true -> exists config, start m w = Awaiting config.
Proof. destruct m; simpl; try discriminate; eauto. Qed.

Lemma reload_token (w : World) :
  this_token (reload w) = localStorage w !! tokenKey w
  /\ this_refreshToken (reload w) = localStorage w !! refreshTokenKey w.
Proof. split; reflexivity. Qed.

(** X6. A session that is opened survives a reload.  When [register],
    [login] or [loginWithFirebase] is answered with a 2xx envelope whose
    [success] is true and that carries data, the method resolves with the
    user and the two tokens of the payload, holds these tokens, and a service
    constructed afresh over the same storage and configuration loads the
    refresh token that was sent and, provided the two storage keys differ,
    the access token that was sent (a field missing from the payload is
    stored, and loaded back, as the text "undefined"). *)
Theorem opened_session_survives_reload (m : ServiceMethod) (w : World)
    (status : Z) (response : ApiResponse) (d : Payload) :
  opens_session m = true ->
  settle (Replied status response) = inl response ->
  success response = true ->
  data response = Some d ->
  let w' := run [Call (Direct m); Reply (nextRequest w) (Replied status response)]
              w in
  outcomes w'
  = outcomes w
    ++ [(nextCall w, Direct m,
         Resolved (RSession (data_user d) (data_token d) (data_refreshToken d)))]
  /\ this_token w' = data_token d
  /\ this_refreshToken w' = data_refreshToken d
  /\ this_refreshToken (reload w') = Some (js_string (data_refreshToken d))
  /\ (tokenKey w <> refreshTokenKey w ->
      this_token (reload w') = Some (js_string (data_token d))).
Proof.
  intros Hm Hr Hs Hd. cbn zeta.
  destruct (start_opens_session m (next_call w) Hm) as [config Hstart].
  rewrite (call_reply m config _ w Hstart).
  rewrite (responseInterceptor_ok _ _ response) by exact Hr.
  cbn [resumeCall complete].
  assert (Hres : forall w0,
             resume m (Fulfilled response) w0
             = (saveTokensToStorage (data_token d) (data_refreshToken d) w0,
                Resolved (RSession (data_user d) (data_token d)
                            (data_refreshToken d)))).
  { intros w0. destruct m; try discriminate Hm; simpl; unfold session_resume;
      rewrite Hs, Hd; reflexivity. }
  rewrite Hres. split; [reflexivity |]. split; [reflexivity |].
  split; [reflexivity |].
  match goal with
  | |- context [saveTokensToStorage ?t ?r ?w0] =>
      destruct (saveTokensToStorage_lookup t r w0) as [Hrefresh Htoken]
  end.
  split; [exact Hrefresh | exact Htoken].
Qed.

Lemma opened_session_survives_reload_witness :
  let w' := run [Call (Direct (login "a@b.com" "Secret1!"));
                 Reply 0 (SampleApi.session Sample.moderator "t1" "r1")]
              SampleApi.anonymous in
  this_token w' = Some "t1"
  /\ this_refreshToken (reload w') = Some "r1"
  /\ this_token (reload w') = Some "t1".
Proof.
  cbn zeta.
  destruct (opened_session_survives_reload (login "a@b.com" "Secret1!")
              SampleApi.anonymous 200
              (SampleApi.envelope true
                 (Some (Fields (Some "t1") (Some "r1") (Some Sample.moderator)))
                 None None)
              (Fields (Some "t1") (Some "r1") (Some Sample.moderator))
              eq_refl eq_refl eq_refl eq_refl) as (_ & Ht & _ & Hr & Hk).
  split; [exact Ht |]. split; [exact Hr |].
  apply Hk. discriminate.
Defined.

(** X7. A session method that fails writes nothing.  When [register],
    [login] or [loginWithFirebase] is answered with a 2xx envelope whose
    [success] is false, or fails at the transport (other than with a 401
    while a refresh token is stored), it throws, and token, refresh token and storage are exactly what they
    were before the call: credentials of an earlier session are neither
    replaced nor cleared. *)
Theorem failed_session_writes_nothing (m : ServiceMethod) (w : World)
    (r : TransportResult) :
  opens_session m = true ->
  (match settle r with
   | inl response => success response = false
   | inr error => is401 error && truthy (this_refreshToken w) = false
   end) ->
  let w' := run [Call (Direct m); Reply (nextRequest w) r] w in
  (exists t, outcomes w' = outcomes w ++ [(nextCall w, Direct m, Threw t)])
  /\ this_token w' = this_token w
  /\ this_refreshToken w' = this_refreshToken w
  /\ localStorage w' = localStorage w.
Proof.
  intros Hm Hr. cbn zeta.
  destruct (start_opens_session m (next_call w) Hm) as [config Hstart].
  rewrite (call_reply m config _ w Hstart).
  destruct (settle r) as [response | error] eqn:Hsettle.
  - rewrite (responseInterceptor_ok _ _ response) by exact Hsettle.
    cbn [resumeCall complete].
    destruct m; try discriminate Hm; simpl; unfold session_resume;
      rewrite Hr; simpl; eauto.
  - rewrite (responseInterceptor_pass _ r error);
      [| exact Hsettle
       | unfold passes_through;
         replace (this_refreshToken _) with (this_refreshToken w)
           by reflexivity;
         now rewrite Hr].
    cbn [resumeCall complete].
    destruct m; try discriminate Hm; simpl; eauto.
Qed.

Lemma failed_session_writes_nothing_witness :
  let w' := run [Call (Direct (login "a@b.com" "wrong"));
                 Reply 0 (SampleApi.refused "Invalid credentials"
                            "INVALID_CREDENTIALS")]
              SampleApi.service in
  this_token w' = Some "old" /\ this_refreshToken w' = Some "r"
  /\ localStorage w' = SampleApi.storage.
Proof.
  cbn zeta.
  exact (proj2 (failed_session_writes_nothing (login "a@b.com" "wrong")
                  SampleApi.service
                  (SampleApi.refused "Invalid credentials" "INVALID_CREDENTIALS")
                  eq_refl eq_refl)).
Defined.

(** X8. A successful refresh replaces the access token only.  When the
    refresh call is answered with a 2xx envelope whose [success] is true and
    that carries data, [refreshAccessToken] resolves with true, the access
    token becomes the token of the payload, the refresh token stays what it
    was, and in storage only the access-token key is written: the
    refresh-token key keeps its value when the two keys differ. *)
Theorem refresh_replaces_access_token_only (w : World) (status : Z)
    (response : ApiResponse) (d : Payload) :
  truthy (this_refreshToken w) = true ->
  settle (Replied status response) = inl response ->
  success response = true ->
  data response = Some d ->
  let w' := run [Call (Direct refreshAccessToken);
                 Reply (nextRequest w) (Replied status response)] w in
  outcomes w'
  = outcomes w ++ [(nextCall w, Direct refreshAccessToken, Resolved (RBool true))]
  /\ this_token w' = data_token d
  /\ this_refreshToken w' = this_refreshToken w
  /\ localStorage w' !! tokenKey w = Some (js_string (data_token d))
  /\ (forall k, k <> tokenKey w -> localStorage w' !! k = localStorage w !! k).
Proof.
  intros Hrt Hr Hs Hd. cbn zeta.
  rewrite (call_reply refreshAccessToken _ _ w (start_refresh _ Hrt)).
  rewrite (responseInterceptor_ok _ _ response) by exact Hr.
  cbn [resumeCall complete resume]. rewrite Hs, Hd.
  split; [reflexivity |]. split; [reflexivity |]. split; [reflexivity |].
  split.
  - change (<[tokenKey w := js_string (data_token d)]> (localStorage w)
            !! tokenKey w = Some (js_string (data_token d))).
    apply lookup_insert_eq.
  - intros k Hk.
    change (<[tokenKey w := js_string (data_token d)]> (localStorage w) !! k
            = localStorage w !! k).
    apply lookup_insert_ne. congruence.
Qed.

Lemma refresh_replaces_access_token_only_witness :
  let w' := run [Call (Direct refreshAccessToken);
                 Reply 0 (SampleApi.refreshed "t2")] SampleApi.service in
  this_token w' = Some "t2" /\ this_refreshToken w' = Some "r"
  /\ localStorage w' !! "spirit_ai_token" = Some "t2".
Proof.
  cbn zeta.
  destruct (refresh_replaces_access_token_only SampleApi.service 200
              (SampleApi.envelope true (Some (Fields (Some "t2") None None))
                 None None)
              (Fields (Some "t2") None None) eq_refl eq_refl eq_refl eq_refl)
    as (_ & Ht & Hr & Hl & _).
  split; [exact Ht |]. split; [exact Hr | exact Hl].
Defined.

End Storage.

(** ** One 401, from interception to the caller *)

Section Retry.
Import Api.

(** What a method returns depends on how its call settled, not on the state
    of the service. *)
Lemma resume_result_independent (m : ServiceMethod) (o : ApiOutcome)
    (w w' : World) :
  snd (resume m o w) = snd (resume m o w').
Proof.
  destruct m; destruct o; simpl; unfold session_resume;
    repeat match goal with
           | |- context [match ?x with _ => _ end] => destruct x
           end; reflexivity.
Qed.

Lemma complete_direct (call : nat) (m : ServiceMethod) (o : ApiOutcome)
    (w : World) :
  outcomes (complete call (Direct m) o w)
  = outcomes w ++ [(call, Direct m, snd (resume m o w))].
Proof.
  cbn [complete].
  pose proof (resume_settled m o w) as H.
  destruct (resume m o w) as [w1 s] eqn:E. simpl.
  assert (Hsame : outcomes w1 = outcomes w).
  { replace w1 with (fst (resume m o w)) by now rewrite E.
    destruct m; destruct o; simpl; unfold session_resume;
      repeat match goal with
             | |- context [match ?x with _ => _ end] => destruct x
             end; reflexivity. }
  now rewrite Hsame.
Qed.

Lemma api_pending (config : Request) (k : Cont) (w : World) :
  pending (api config k w) !! nextRequest w
  = Some (requestInterceptor w config, k).
Proof. simpl. apply lookup_insert_eq. Qed.

Lemma requestInterceptor_bearer (w : World) (config : Request) :
  requestInterceptor w
    (with_Authorization (Some (bearer (this_token w))) config)
  = with_Authorization (Some (bearer (this_token w))) config.
Proof. unfold requestInterceptor. now destruct (truthy _). Qed.

(** A response to a call of [m] that the interceptor hands on. *)
Lemma deliver_settled (id call : nat) (config : Request) (m : ServiceMethod)
    (r : TransportResult) (w : World) :
  pending w !! id = Some (config, Return call (Direct m)) ->
  (forall error, settle r = inr error -> passes_through config error w) ->
  deliver id r w = complete call (Direct m) (settled_call r) (unpark id w).
Proof.
  intros Hp Hpass. unfold deliver, settled_call. rewrite Hp.
  destruct (settle r) as [response | error] eqn:Hr.
  - now rewrite (responseInterceptor_ok _ _ response).
  - rewrite (responseInterceptor_pass _ r error); [reflexivity | exact Hr |].
    apply (Hpass error eq_refl).
Qed.

(** X9. One 401 with a successful refresh, end to end.  A request of a
    service method that has not been retried comes back 401 while a refresh
    token is stored; the refresh call is answered successfully with a
    payload; the request issued again is answered with anything at all.
    Then exactly two network calls were made, the refresh call and the
    original request once more with the refreshed token as bearer and the
    retry mark; the expiry callback was not invoked; and the caller receives
    exactly what the method returns for that last answer, be it a success or
    a second failure, which is surfaced without another refresh. *)
Theorem unauthorized_refreshed_retried_once (w : World) (id call : nat)
    (config : Request) (m : ServiceMethod) (unauthorized refreshed : ApiResponse)
    (status : Z) (d : Payload) (r : TransportResult) :
  pending w !! id = Some (config, Return call (Direct m)) ->
  _retry config = false ->
  truthy (this_refreshToken w) = true ->
  settle (Replied status refreshed) = inl refreshed ->
  success refreshed = true ->
  data refreshed = Some d ->
  let w' := run [Reply id (Replied 401 unauthorized);
                 Reply (nextRequest w) (Replied status refreshed);
                 Reply (S (nextRequest w)) r] w in
  sent w'
  = sent w
    ++ [requestInterceptor w (refreshRequest w);
        {| method := method config; url := url config; body := body config;
           Authorization := Some (bearer (data_token d)); _retry := true |}]
  /\ outcomes w'
     = outcomes w ++ [(call, Direct m, snd (resume m (settled_call r) w))]
  /\ tokenExpiredCalls w' = tokenExpiredCalls w.
Proof.
  intros Hp Hretry Hrt Hr Hs Hd. cbn zeta.
  set (k := Return call (Direct m)).
  change (run [Reply id (Replied 401 unauthorized);
               Reply (nextRequest w) (Replied status refreshed);
               Reply (S (nextRequest w)) r] w)
    with (deliver (S (nextRequest w)) r
            (deliver (nextRequest w) (Replied status refreshed)
               (deliver id (Replied 401 unauthorized) w))).
  rewrite (deliver_intercepted id config k unauthorized w Hp Hretry Hrt).
  fold (intercepted id config k unauthorized w).
  rewrite (deliver_refresh _ _ _ _ _ _ _
             (intercepted_pending id config k unauthorized w) refreshed Hr).
  cbn [resume]. rewrite Hs, Hd. cbn [fst snd afterRefresh].
  set (w2 := with_credentials _ _ _ _).
  set (retried := with_Authorization (Some (bearer (this_token w2)))
                    (mark_retry config)).
  assert (Hp3 : pending (api retried k w2) !! S (nextRequest w)
                = Some (retried, Return call (Direct m))).
  { pose proof (api_pending retried k w2) as H.
    unfold retried at 2 in H. rewrite requestInterceptor_bearer in H.
    exact H. }
  rewrite (deliver_settled _ call retried m r _ Hp3).
  2:{ intros error _. unfold passes_through. simpl. apply andb_false_r. }
  destruct (complete_frame call (Direct m) (settled_call r)
              (unpark (S (nextRequest w)) (api retried k w2)))
    as (Hsent & _ & _ & Hexp & _).
  rewrite Hsent, Hexp, complete_direct.
  rewrite (resume_result_independent m (settled_call r) _ w).
  split; [| split; reflexivity].
  change (sent (unpark (S (nextRequest w)) (api retried k w2)))
    with (sent w2 ++ [requestInterceptor w2 retried]).
  unfold retried. rewrite requestInterceptor_bearer.
  change (sent w2) with (sent w ++ [requestInterceptor w (refreshRequest w)]).
  rewrite <- app_assoc. reflexivity.
Qed.

Lemma unauthorized_refreshed_retried_once_witness :
  truthy (this_refreshToken oneInFlight) = true
  /\ (let w' := run [Reply 0 SampleApi.unauthorized;
                     Reply 1 (SampleApi.refreshed "t2");
                     Reply 2 (Replied 200
                                (SampleApi.envelope true
                                   (Some (Profile Sample.moderator)) None None))]
                  oneInFlight in
      outcomes w'
      = [(0, Direct getProfile,
          Resolved (RData (Some (Profile Sample.moderator))))]
      /\ tokenExpiredCalls w' = 0).
Proof.
  split; [reflexivity |].
  exact (proj2 (unauthorized_refreshed_retried_once oneInFlight 0 0
                  (requestInterceptor SampleApi.service
                     (request GET "/api/users/profile" NoBody))
                  getProfile SampleApi.expired
                  (SampleApi.envelope true (Some (Fields (Some "t2") None None))
                     None None)
                  200 (Fields (Some "t2") None None)
                  (Replied 200
                     (SampleApi.envelope true (Some (Profile Sample.moderator))
                        None None))
                  eq_refl eq_refl eq_refl eq_refl eq_refl eq_refl)).
Defined.

(** X10. Without a stored refresh token a 401 is surfaced at once.  The
    interceptor makes no refresh call and no retry, does not invoke the
    expiry callback, and the caller receives what the method returns for the
    normalized 401 error; a method that lets rejections through throws it
    and leaves token and storage untouched. *)
Theorem unauthorized_without_refresh_token (w : World) (id call : nat)
    (config : Request) (m : ServiceMethod) (unauthorized : ApiResponse) :
  pending w !! id = Some (config, Return call (Direct m)) ->
  truthy (this_refreshToken w) = false ->
  let e := ThrownAuthError (handleError (ErrResponse 401 unauthorized)) in
  let w' := run [Reply id (Replied 401 unauthorized)] w in
  sent w' = sent w
  /\ tokenExpiredCalls w' = tokenExpiredCalls w
  /\ outcomes w'
     = outcomes w ++ [(call, Direct m, snd (resume m (Rejected e) w))]
  /\ (propagates m = true ->
      snd (resume m (Rejected e) w) = Threw e
      /\ this_token w' = this_token w
      /\ localStorage w' = localStorage w).
Proof.
  intros Hp Hrt. cbn zeta.
  change (run [Reply id (Replied 401 unauthorized)] w)
    with (deliver id (Replied 401 unauthorized) w).
  rewrite (deliver_settled id call config m _ w Hp).
  2:{ intros error _. unfold passes_through. rewrite Hrt.
      destruct (is401 error); reflexivity. }
  destruct (complete_frame call (Direct m)
              (settled_call (Replied 401 unauthorized)) (unpark id w))
    as (Hsent & _ & _ & Hexp & _).
  rewrite Hsent, Hexp, complete_direct.
  rewrite (resume_result_independent m _ (unpark id w) w).
  split; [reflexivity |]. split; [reflexivity |]. split; [reflexivity |].
  intros Hm. cbn [complete]. unfold settled_call. simpl settle. cbn iota.
  rewrite !resume_rejected by exact Hm. repeat split.
Qed.

Lemma unauthorized_without_refresh_token_witness :
  let w := run [Call (Direct getProfile)] SampleApi.anonymous in
  truthy (this_refreshToken w) = false
  /\ sent (run [Reply 0 SampleApi.unauthorized] w) = sent w.
Proof.
  cbn zeta. split; [reflexivity |].
  exact (proj1 (unauthorized_without_refresh_token
                  (run [Call (Direct getProfile)] SampleApi.anonymous) 0 0
                  (request GET "/api/users/profile" NoBody) getProfile
                  SampleApi.expired eq_refl eq_refl)).
Defined.

End Retry.

(** ** The provider around the service *)

Section ProviderCallbacks.
Import Api.

Lemma or_str_nonempty (a : option string) (b : string) :
  b <> "" -> or_str a b <> "".
Proof.
  intros Hb. unfold or_str. destruct a as [v |]; [| exact Hb].
  destruct (bool_decide_reflect (v = "")); assumption.
Qed.

(** The store and the credentials after the common tail of the provider's
    [login] and [register]. *)
Lemma session_flow (fallback fallback' : string) (o : ApiOutcome) (w : World) :
  fallback <> "" ->
  let w1 := fst (session_resume fallback' o w) in
  let s := snd (session_resume fallback' o w) in
  let w' := fst (session_after fallback s w1) in
  let result := snd (session_after fallback s w1) in
  loading (store w') = false
  /\ outcomes w' = outcomes w
  /\ (forall response d,
        o = Fulfilled response -> success response = true ->
        data response = Some d ->
        result = Resolved (RBool true)
        /\ user (store w') = data_user d
        /\ (isAuthenticated (store w') = true <-> data_user d <> None)
        /\ error (store w') = None
        /\ token (store w') = this_token w'
        /\ refreshToken (store w') = this_refreshToken w'
        /\ this_token w' = data_token d)
  /\ ((forall response,
         o = Fulfilled response ->
         success response = false \/ data response = None) ->
      result = Resolved (RBool false)
      /\ (exists msg, msg <> "" /\ error (store w') = Some msg)
      /\ user (store w') = user (store w)
      /\ isAuthenticated (store w') = isAuthenticated (store w)
      /\ isAdmin (store w') = isAdmin (store w)
      /\ token (store w') = token (store w)
      /\ refreshToken (store w') = refreshToken (store w)
      /\ this_token w' = this_token w
      /\ this_refreshToken w' = this_refreshToken w
      /\ localStorage w' = localStorage w).
Proof.
  intros Hf. cbn zeta.
  assert (Hmsg : forall x,
             exists msg, msg <> ""
                         /\ Some (or_str (Some x) fallback) = Some msg).
  { intros x. eexists. split; [| reflexivity]. now apply or_str_nonempty. }
  destruct o as [response | t]; unfold session_resume.
  - destruct (success response) eqn:Hs;
      [destruct (data response) as [d |] eqn:Hd |].
    + (* fulfilled with data *)
      simpl. split; [reflexivity |]. split; [reflexivity |]. split.
      * intros response' d' [= <-] _ Hd'. rewrite Hd in Hd'.
        injection Hd' as <-. repeat split; try reflexivity.
        -- destruct (data_user d); [discriminate | discriminate].
        -- destruct (data_user d); [reflexivity | intros H; now contradiction H].
      * intros Hno. destruct (Hno response eq_refl); congruence.
    + (* fulfilled without data: the destructuring throws *)
      simpl. split; [reflexivity |]. split; [reflexivity |]. split.
      * intros response' d' [= <-] _ Hd'. congruence.
      * intros _. split; [reflexivity |]. split;
          [first [ apply Hmsg
                 | exists typeErrorMessage; split; [discriminate | reflexivity] ] |].
        repeat split.
    + (* refused in the envelope *)
      simpl. split; [reflexivity |]. split; [reflexivity |]. split.
      * intros response' d' [= <-] Hs' _. congruence.
      * intros _. split; [reflexivity |]. split;
          [first [ apply Hmsg
                 | exists typeErrorMessage; split; [discriminate | reflexivity] ] |].
        repeat split.
  - simpl. split; [reflexivity |]. split; [reflexivity |]. split.
    + intros response' d' [=].
    + intros _. split; [reflexivity |]. split;
          [first [ apply Hmsg
                 | exists typeErrorMessage; split; [discriminate | reflexivity] ] |].
        repeat split.
Qed.

(** The provider's [login] and [register] from the point where the awaited
    service call has settled with [o]. *)
Lemma provider_session_complete (p : ProviderMethod) (call : nat)
    (o : ApiOutcome) (w : World) :
  provider_opens_session p = true ->
  let w' := complete call (ViaProvider p) o w in
  loading (store w') = false
  /\ (forall response d,
        o = Fulfilled response -> success response = true ->
        data response = Some d ->
        outcomes w' = outcomes w ++ [(call, ViaProvider p, Resolved (RBool true))]
        /\ user (store w') = data_user d
        /\ (isAuthenticated (store w') = true <-> data_user d <> None)
        /\ error (store w') = None
        /\ token (store w') = this_token w'
        /\ refreshToken (store w') = this_refreshToken w'
        /\ this_token w' = data_token d)
  /\ ((forall response,
         o = Fulfilled response ->
         success response = false \/ data response = None) ->
      outcomes w' = outcomes w ++ [(call, ViaProvider p, Resolved (RBool false))]
      /\ (exists msg, msg <> "" /\ error (store w') = Some msg)
      /\ user (store w') = user (store w)
      /\ isAuthenticated (store w') = isAuthenticated (store w)
      /\ isAdmin (store w') = isAdmin (store w)
      /\ token (store w') = token (store w)
      /\ refreshToken (store w') = refreshToken (store w)
      /\ this_token w' = this_token w
      /\ this_refreshToken w' = this_refreshToken w
      /\ localStorage w' = localStorage w).
Proof.
  intros Hp. cbn zeta.
  assert (Hflow : exists fallback fallback',
             fallback <> ""
             /\ complete call (ViaProvider p) o w
                = finish call (ViaProvider p)
                    (snd (session_after fallback
                            (snd (session_resume fallback' o w))
                            (fst (session_resume fallback' o w))))
                    (fst (session_after fallback
                            (snd (session_resume fallback' o w))
                            (fst (session_resume fallback' o w))))).
  { destruct p as [email password | userData | |]; try discriminate Hp.
    - exists "Login failed", "Login failed". split; [discriminate |].
      cbn [complete service_of resume after].
      destruct (session_resume _ o w) as [w1 s].
      cbn [fst snd]. now destruct (session_after _ s w1).
    - exists "Registration failed", "Registration failed".
      split; [discriminate |].
      cbn [complete service_of resume after].
      destruct (session_resume _ o w) as [w1 s].
      cbn [fst snd]. now destruct (session_after _ s w1). }
  destruct Hflow as (fallback & fallback' & Hf & ->).
  destruct (session_flow fallback fallback' o w Hf) as (Hl & Ho & Hok & Hko).
  split; [exact Hl |]. split.
  - intros response d He Hs Hd.
    destruct (Hok response d He Hs Hd) as (Hres & Hrest).
    split; [| exact Hrest].
    cbn [finish outcomes]. now rewrite Hres, Ho.
  - intros Hno. destruct (Hko Hno) as (Hres & Hrest).
    split; [| exact Hrest].
    cbn [finish outcomes]. now rewrite Hres, Ho.
Qed.

(** X11. [login] and [register] of the provider, from the call to the
    return, when the answer to the request is one that the interceptor hands
    on (a success, or any failure other than a 401 met while a refresh token
    is stored).  [loading] ends false and the callback resolves.  If the
    answer is a 2xx envelope with [success] true and data, it resolves with
    true, the store holds the user of the payload with [isAuthenticated]
    true exactly when the payload has one, no error, and mirrored tokens
    equal to the tokens the service now holds.  Otherwise it resolves with
    false, the store records a non-empty error message, and the user, the
    flags, the mirrored tokens and the credentials of the service are what
    they were before the call: a failed login does not sign the current
    user out. *)
Theorem provider_session_settles (p : ProviderMethod) (w : World)
    (r : TransportResult) :
  provider_opens_session p = true ->
  handed_on r w ->
  let w' := run [Call (ViaProvider p); Reply (nextRequest w) r] w in
  loading (store w') = false
  /\ (forall response d,
        settle r = inl response -> success response = true ->
        data response = Some d ->
        outcomes w'
        = outcomes w ++ [(nextCall w, ViaProvider p, Resolved (RBool true))]
        /\ user (store w') = data_user d
        /\ (isAuthenticated (store w') = true <-> data_user d <> None)
        /\ error (store w') = None
        /\ token (store w') = this_token w'
        /\ refreshToken (store w') = this_refreshToken w'
        /\ this_token w' = data_token d)
  /\ ((forall response,
         settle r = inl response ->
         success response = false \/ data response = None) ->
      outcomes w'
      = outcomes w ++ [(nextCall w, ViaProvider p, Resolved (RBool false))]
      /\ (exists msg, msg <> "" /\ error (store w') = Some msg)
      /\ user (store w') = user (store w)
      /\ isAuthenticated (store w') = isAuthenticated (store w)
      /\ isAdmin (store w') = isAdmin (store w)
      /\ token (store w') = token (store w)
      /\ refreshToken (store w') = refreshToken (store w)
      /\ this_token w' = this_token w
      /\ this_refreshToken w' = this_refreshToken w
      /\ localStorage w' = localStorage w).
Proof.
  intros Hp Hr. cbn zeta.
  assert (Hstart : exists config,
             start (service_of p) (before p (next_call w)) = Awaiting config).
  { destruct p; try discriminate Hp; eexists; reflexivity. }
  destruct Hstart as [config Hstart].
  destruct (invoke_awaiting (ViaProvider p) w config Hstart)
    as (Hpend & _ & _ & Hout & Ht & Hrt & Hls & _ & _ & Hst).
  change (run [Call (ViaProvider p); Reply (nextRequest w) r] w)
    with (deliver (nextRequest w) r (invoke (ViaProvider p) w)).
  rewrite (deliver_handed_on _ _ _ r _ Hpend).
  2:{ apply handed_on_passes. intros error He. rewrite Hrt. now apply Hr. }
  cbn [resumeCall].
  set (w0 := unpark (nextRequest w) (invoke (ViaProvider p) w)).
  assert (Hout0 : outcomes w0 = outcomes w) by exact Hout.
  assert (Ht0 : this_token w0 = this_token w) by exact Ht.
  assert (Hrt0 : this_refreshToken w0 = this_refreshToken w) by exact Hrt.
  assert (Hls0 : localStorage w0 = localStorage w) by exact Hls.
  assert (Hst0 : user (store w0) = user (store w)
                 /\ isAuthenticated (store w0) = isAuthenticated (store w)
                 /\ isAdmin (store w0) = isAdmin (store w)
                 /\ token (store w0) = token (store w)
                 /\ refreshToken (store w0) = refreshToken (store w)).
  { assert (H : store w0 = store (before p w)) by exact Hst. rewrite H.
    destruct p; try discriminate Hp; repeat split. }
  destruct Hst0 as (Hu0 & Ha0 & Had0 & Htk0 & Hrtk0).
  destruct (provider_session_complete p (nextCall w) (settled_call r) w0 Hp)
    as (Hl & Hok & Hko).
  split; [exact Hl |]. split.
  - intros response d Hs Hsucc Hd.
    assert (He : settled_call r = Fulfilled response)
      by (unfold settled_call; now rewrite Hs).
    destruct (Hok response d He Hsucc Hd) as (Ho & Hrest).
    split; [now rewrite Ho, Hout0 | exact Hrest].
  - intros Hno.
    assert (Hno' : forall response,
               settled_call r = Fulfilled response ->
               success response = false \/ data response = None).
    { intros response He. apply Hno. unfold settled_call in He.
      destruct (settle r) as [response' | error];
        [now injection He as -> | discriminate He]. }
    destruct (Hko Hno')
      as (Ho & Hmsg & H1 & H2 & H3 & H4 & H5 & H6 & H7 & H8).
    rewrite Ho, Hout0, H1, H2, H3, H4, H5, H6, H7, H8.
    repeat split; try assumption.
Qed.

Lemma provider_session_settles_witness :
  provider_opens_session (provider_login "a@b.com" "wrong") = true
  /\ handed_on (SampleApi.refused "Invalid credentials" "INVALID_CREDENTIALS")
       SampleApi.service
  /\ (let w' := run [Call (ViaProvider (provider_login "a@b.com" "wrong"));
                     Reply 0 (SampleApi.refused "Invalid credentials"
                                "INVALID_CREDENTIALS")]
                  SampleApi.service in
      loading (store w') = false
      /\ outcomes w'
         = [(0, ViaProvider (provider_login "a@b.com" "wrong"),
             Resolved (RBool false))]
      /\ this_token w' = Some "old").
Proof.
  assert (Hr : handed_on
                 (SampleApi.refused "Invalid credentials" "INVALID_CREDENTIALS")
                 SampleApi.service).
  { intros error He. discriminate He. }
  split; [reflexivity |]. split; [exact Hr |]. cbn zeta.
  destruct (provider_session_settles (provider_login "a@b.com" "wrong")
              SampleApi.service
              (SampleApi.refused "Invalid credentials" "INVALID_CREDENTIALS")
              eq_refl Hr) as (Hl & _ & Hfalse).
  split; [exact Hl |].
  destruct Hfalse as (Ho & _ & _ & _ & _ & _ & _ & Ht & _).
  { intros response [= <-]. left. reflexivity. }
  split; [exact Ho | exact Ht].
Defined.

(** X23. A sign-in attempted over a stale session.  [login] or [register]
    of the provider is answered 401 while a refresh token is stored, and
    the refresh that the interceptor makes fails (other than by a 401) or
    is refused.  The callback resolves with false and records a non-empty
    error; the service has lost its credentials, token, refresh token and
    both storage keys; and the store still holds the user it held, with the
    same flags and the same mirrored token. *)
Theorem provider_session_after_unauthorized (p : ProviderMethod) (w : World)
    (unauthorized : ApiResponse) (r : TransportResult) :
  provider_opens_session p = true ->
  truthy (this_refreshToken w) = true ->
  refresh_failed r ->
  let w' := run [Call (ViaProvider p);
                 Reply (nextRequest w) (Replied 401 unauthorized);
                 Reply (S (nextRequest w)) r] w in
  outcomes w'
  = outcomes w ++ [(nextCall w, ViaProvider p, Resolved (RBool false))]
  /\ credentials_cleared w'
  /\ (exists msg, msg <> "" /\ error (store w') = Some msg)
  /\ user (store w') = user (store w)
  /\ isAuthenticated (store w') = isAuthenticated (store w)
  /\ isAdmin (store w') = isAdmin (store w)
  /\ token (store w') = token (store w).
Proof.
  intros Hp Hrefresh Hr. cbn zeta.
  assert (Hstart : exists config,
             start (service_of p) (before p (next_call w)) = Awaiting config
             /\ _retry config = false).
  { destruct p; try discriminate Hp; eexists; split; reflexivity. }
  destruct Hstart as (config & Hstart & Hfresh).
  destruct (invoke_awaiting (ViaProvider p) w config Hstart)
    as (Hpend & Hnext & _ & Hout & _ & Hrt & _ & _ & _ & Hst).
  set (w0 := invoke (ViaProvider p) w) in *.
  set (k := Return (nextCall w) (ViaProvider p)) in *.
  change (run [Call (ViaProvider p);
               Reply (nextRequest w) (Replied 401 unauthorized);
               Reply (S (nextRequest w)) r] w)
    with (deliver (S (nextRequest w)) r
            (deliver (nextRequest w) (Replied 401 unauthorized) w0)).
  rewrite (deliver_intercepted _ _ k unauthorized w0 Hpend).
  2:{ now rewrite requestInterceptor_retry. }
  2:{ now rewrite Hrt. }
  fold (intercepted (nextRequest w) (requestInterceptor w config) k
          unauthorized w0).
  assert (Hparked :
            pending (intercepted (nextRequest w) (requestInterceptor w config)
                       k unauthorized w0) !! S (nextRequest w)
            = Some (requestInterceptor w0 (refreshRequest w0),
                    Intercept401 (mark_retry (requestInterceptor w config))
                      (ErrResponse 401 unauthorized) k)).
  { rewrite <- Hnext. apply intercepted_pending. }
  destruct (deliver_refresh_failed _ _ _ _ _ r _ Hparked Hr)
    as (w1 & -> & Hc1 & Ho1 & Hst1 & _ & _).
  unfold k. cbn [resumeCall].
  assert (Hst0 : user (store w1) = user (store w)
                 /\ isAuthenticated (store w1) = isAuthenticated (store w)
                 /\ isAdmin (store w1) = isAdmin (store w)
                 /\ token (store w1) = token (store w)).
  { assert (H : store w1 = store (before p w))
      by (rewrite Hst1; exact Hst).
    rewrite H. destruct p; try discriminate Hp; repeat split. }
  destruct Hst0 as (Hu0 & Ha0 & Had0 & Htk0).
  set (o := Rejected (ThrownAuthError (handleError (ErrResponse 401 unauthorized)))).
  destruct (provider_session_complete p (nextCall w) o w1 Hp)
    as (_ & _ & Hko).
  destruct Hko as (Ho & Hmsg & H1 & H2 & H3 & H4 & _ & H6 & H7 & H8).
  { intros response He. discriminate He. }
  destruct (complete_frame (nextCall w) (ViaProvider p) o w1)
    as (_ & _ & _ & _ & Hcf).
  split; [rewrite Ho, Ho1; exact (f_equal (fun l => l ++ _) Hout) |].
  split; [now apply (credentials_cleared_same w1) |].
  split; [exact Hmsg |].
  rewrite H1, H2, H3, H4. repeat split; assumption.
Qed.

Lemma provider_session_after_unauthorized_witness :
  provider_opens_session (provider_login "a@b.com" "Secret1!") = true
  /\ truthy (this_refreshToken SampleApi.service) = true
  /\ refresh_failed SampleApi.forbidden
  /\ (let w' := run [Call (ViaProvider (provider_login "a@b.com" "Secret1!"));
                     Reply 0 SampleApi.unauthorized;
                     Reply 1 SampleApi.forbidden] SampleApi.service in
      outcomes w'
      = [(0, ViaProvider (provider_login "a@b.com" "Secret1!"),
          Resolved (RBool false))]
      /\ credentials_cleared w').
Proof.
  assert (Hr : refresh_failed SampleApi.forbidden).
  { split; [intros error [= <-]; reflexivity | intros response [=]]. }
  split; [reflexivity |]. split; [reflexivity |]. split; [exact Hr |].
  cbn zeta.
  destruct (provider_session_after_unauthorized
              (provider_login "a@b.com" "Secret1!") SampleApi.service
              SampleApi.expired SampleApi.forbidden eq_refl eq_refl Hr)
    as (Ho & Hc & _).
  split; [exact Ho | exact Hc].
Defined.




End ProviderCallbacks.

(** ** Form validation *)

Section FormValidation.
Import Stdlib.Strings.Ascii.
Import Forms.

Lemma includes_char_any (c : ascii) (s : string) :
  includes_char c s = any_char (fun a => bool_decide (a = c)) s.
Proof. induction s as [| a s IH]; simpl; [reflexivity | now rewrite IH]. Qed.

Lemma lookahead_any (cls : ascii -> bool) (s : string) :
  lookahead cls s = true -> any_char cls s = true.
Proof.
  induction s as [| c s IH]; simpl; [discriminate |].
  destruct (cls c); [reflexivity |]. simpl.
  intros H. apply andb_true_iff in H. now apply IH.
Qed.

Lemma any_lookahead (cls : ascii -> bool) (s : string) :
  any_char lineTerminator s = false ->
  any_char cls s = true -> lookahead cls s = true.
Proof.
  induction s as [| c s IH]; simpl; [discriminate |].
  intros Hline. apply orb_false_iff in Hline. destruct Hline as [Hc Hs].
  destruct (cls c); [reflexivity |]. simpl. rewrite Hc. simpl. now apply IH.
Qed.

Lemma lookahead_append (cls : ascii -> bool) (s extra : string) :
  lookahead cls s = true -> lookahead cls (s +:+ extra) = true.
Proof.
  induction s as [| c s IH]; simpl; [discriminate |].
  destruct (cls c); [reflexivity |]. simpl.
  destruct (lineTerminator c); simpl; [discriminate | exact IH].
Qed.

Lemma length_append (s extra : string) :
  String.length (s +:+ extra) = String.length s + String.length extra.
Proof. induction s as [| c s IH]; simpl; [reflexivity | now rewrite IH]. Qed.

Lemma blank_false (s : string) : blank s = false <-> s <> "".
Proof. unfold blank. apply bool_decide_eq_false. Qed.

(** The chain of checks, read as a conjunction. *)
Lemma validateForm_None (formData : FormData) :
  validateForm formData = None
  <-> email formData <> "" /\ password formData <> ""
      /\ displayName formData <> ""
      /\ includes_char "@" (email formData) = true
      /\ 8 <= String.length (password formData)
      /\ password formData = confirmPassword formData
      /\ passwordRegex_test (password formData) = true.
Proof.
  unfold validateForm.
  destruct (blank (email formData)) eqn:He; simpl.
  { split; [discriminate |]. intros (H & _). apply blank_false in H. congruence. }
  destruct (blank (password formData)) eqn:Hp; simpl.
  { split; [discriminate |]. intros (_ & H & _). apply blank_false in H.
    congruence. }
  destruct (blank (displayName formData)) eqn:Hd; simpl.
  { split; [discriminate |]. intros (_ & _ & H & _). apply blank_false in H.
    congruence. }
  apply blank_false in He, Hp, Hd.
  destruct (includes_char "@" (email formData)) eqn:Hat; simpl;
    [| split; [discriminate | intros (_ & _ & _ & H & _); discriminate]].
  destruct (Nat.ltb_spec (String.length (password formData)) 8) as [Hlt | Hge];
    [split; [discriminate | intros (_ & _ & _ & _ & H & _); lia] |].
  destruct (bool_decide_reflect (password formData = confirmPassword formData))
    as [Heq | Hne]; simpl;
    [| split; [discriminate | intros (_ & _ & _ & _ & _ & H & _); congruence]].
  destruct (passwordRegex_test (password formData)) eqn:Hre; simpl.
  - split; [intros _; repeat split; assumption | reflexivity].
  - split; [discriminate | intros (_ & _ & _ & _ & _ & _ & H); discriminate].
Qed.

Lemma passwordRegex_test_spec (p : string) :
  passwordRegex_test p = true
  <-> lookahead lower p = true /\ lookahead upper p = true
      /\ lookahead digit p = true /\ lookahead special p = true
      /\ first_char allowed p = true.
Proof.
  unfold passwordRegex_test, first_char. rewrite !andb_true_iff. tauto.
Qed.

(** X13. What the registration form lets through.  A form that
    [validateForm] accepts has a non-empty e-mail containing "@", a
    non-empty display name, and a password of at least 8 characters, equal
    to its confirmation, that contains a lower-case letter, an upper-case
    letter, a digit and one of [@$!%*?&], and that begins with a letter, a
    digit or one of these.  For a password without line breaks these
    conditions are also sufficient. *)
Theorem validateForm_accepts (formData : FormData) :
  (validateForm formData = None -> well_formed formData)
  /\ (any_char lineTerminator (password formData) = false ->
      well_formed formData -> validateForm formData = None).
Proof.
  split.
  - intros H. apply validateForm_None in H.
    destruct H as (He & Hp & Hd & Hat & Hlen & Heq & Hre).
    apply passwordRegex_test_spec in Hre.
    destruct Hre as (H1 & H2 & H3 & H4 & H5).
    unfold well_formed. rewrite <- includes_char_any.
    repeat split; try assumption; now apply lookahead_any.
  - intros Hline (He & Hd & Hat & Hlen & Heq & H1 & H2 & H3 & H4 & H5).
    apply validateForm_None. rewrite <- includes_char_any in Hat.
    repeat split; try assumption.
    + intros Hp. rewrite Hp in Hlen. simpl in Hlen. lia.
    + apply passwordRegex_test_spec.
      repeat split; try assumption; now apply any_lookahead.
Qed.

Lemma validateForm_accepts_witness :
  validateForm {| email := "a@b.com"; password := "Secret1!";
                  confirmPassword := "Secret1!"; displayName := "A" |} = None
  /\ well_formed {| email := "a@b.com"; password := "Secret1!";
                    confirmPassword := "Secret1!"; displayName := "A" |}.
Proof.
  assert (H : validateForm {| email := "a@b.com"; password := "Secret1!";
                              confirmPassword := "Secret1!";
                              displayName := "A" |} = None) by reflexivity.
  split; [exact H |].
  exact (proj1 (validateForm_accepts _) H).
Defined.

(** X14. The password pattern is a check on the start of the password only.
    Whatever is appended to an accepted password (typed into both fields) is
    accepted too, whichever characters it contains; and a password whose
    first character is not a letter, a digit or one of [@$!%*?&] is rejected
    whatever follows. *)
Theorem password_pattern_checks_a_prefix (formData : FormData) :
  (validateForm formData = None ->
   forall extra,
     validateForm (with_password (password formData +:+ extra) formData) = None)
  /\ (first_char allowed (password formData) = false ->
      validateForm formData <> None).
Proof.
  split.
  - intros H extra. apply validateForm_None in H.
    destruct H as (He & Hp & Hd & Hat & Hlen & Heq & Hre).
    apply passwordRegex_test_spec in Hre.
    destruct Hre as (H1 & H2 & H3 & H4 & H5).
    apply validateForm_None. unfold with_password. simpl.
    repeat split; try assumption.
    + destruct (password formData); [now contradiction Hp | discriminate].
    + rewrite length_append. lia.
    + apply passwordRegex_test_spec.
      repeat split; try (now apply lookahead_append).
      destruct (password formData); [now contradiction Hp | exact H5].
  - intros Hfirst H. apply validateForm_None in H.
    destruct H as (_ & _ & _ & _ & _ & _ & Hre).
    apply passwordRegex_test_spec in Hre. destruct Hre as (_ & _ & _ & _ & H5).
    congruence.
Qed.

Lemma password_pattern_checks_a_prefix_witness :
  validateForm {| email := "a@b.com"; password := "Secret1!";
                  confirmPassword := "Secret1!"; displayName := "A" |} = None
  /\ validateForm {| email := "a@b.com"; password := "Secret1! #~ ";
                     confirmPassword := "Secret1! #~ "; displayName := "A" |}
     = None.
Proof.
  assert (H : validateForm {| email := "a@b.com"; password := "Secret1!";
                              confirmPassword := "Secret1!";
                              displayName := "A" |} = None) by reflexivity.
  split; [exact H |].
  exact (proj1 (password_pattern_checks_a_prefix _) H " #~ ").
Defined.

(** X15. What the forms pass on.  [RegisterForm] calls [register] only with
    a form that [validateForm] accepts, passing its e-mail, password and
    display name unchanged together with the default role, and otherwise
    shows the validation error without any call; and an e-mail and password
    accepted at registration are accepted by the checks of [LoginForm],
    which passes them to [login] unchanged. *)
Theorem forms_pass_validated_fields (formData : FormData) (defaultRole : string) :
  (forall data,
      register_handleSubmit formData defaultRole = inr data ->
      validateForm formData = None
      /\ Api.reg_email data = email formData
      /\ Api.reg_password data = password formData
      /\ Api.reg_displayName data = Some (displayName formData)
      /\ Api.reg_role data = Some defaultRole)
  /\ (forall message,
        register_handleSubmit formData defaultRole = inl message ->
        validateForm formData = Some message)
  /\ (validateForm formData = None ->
      login_handleSubmit (email formData) (password formData)
      = inr (email formData, password formData)).
Proof.
  unfold register_handleSubmit. split; [| split].
  - destruct (validateForm formData); [discriminate |].
    intros data [= <-]. repeat split.
  - destruct (validateForm formData); [| discriminate].
    now intros message [= <-].
  - intros H. apply validateForm_None in H.
    destruct H as (He & Hp & _ & Hat & _).
    unfold login_handleSubmit.
    apply blank_false in He, Hp. rewrite He, Hp, Hat. reflexivity.
Qed.

End FormValidation.

(** ** The users list of the admin hook *)

Section UsersList.
Import Api.

Lemma failure_message_nonempty (t : Thrown) (fallback : string) :
  fallback <> "" -> UseUsers.failure_message t fallback <> "".
Proof. intros H. unfold UseUsers.failure_message. now apply or_str_nonempty. Qed.

Lemma lookup_list_map {A B : Type} (f : A -> B) (l : list A) (i : nat) :
  map f l !! i = f <$> (l !! i).
Proof.
  revert i. induction l as [| a l IH]; intros [| i]; simpl; try reflexivity.
  apply IH.
Qed.

(** X16. [updateUser], when the service call succeeds, swaps in the server's
    copy in place: the list keeps its length, every entry carrying the given
    uid becomes the returned user, every other entry stays where it was, and
    nothing is added when no entry carries that uid.  If the returned user
    has the uid that was asked for, the list of uids is unchanged.  Error,
    loading and pagination are not touched. *)
Theorem updateUser_replaces_in_place (id : string) (updatedUser : User)
    (st : UseUsers.State) :
  let st' := fst (UseUsers.updateUser_resume id (UseUsers.Returned updatedUser) st) in
  snd (UseUsers.updateUser_resume id (UseUsers.Returned updatedUser) st) = true
  /\ length (UseUsers.users st') = length (UseUsers.users st)
  /\ (forall i u,
        UseUsers.users st !! i = Some u ->
        UseUsers.users st' !! i
        = Some (if bool_decide (uid u = id) then updatedUser else u))
  /\ ((forall u, u ∈ UseUsers.users st -> uid u <> id) ->
      UseUsers.users st' = UseUsers.users st)
  /\ (uid updatedUser = id ->
      map uid (UseUsers.users st') = map uid (UseUsers.users st))
  /\ UseUsers.error st' = UseUsers.error st
  /\ UseUsers.loading st' = UseUsers.loading st
  /\ UseUsers.pagination st' = UseUsers.pagination st.
Proof.
  cbn zeta. simpl. split; [reflexivity |].
  split; [apply length_map |].
  split.
  { intros i u Hi. rewrite lookup_list_map, Hi. reflexivity. }
  split.
  { intros Hnone. induction (UseUsers.users st) as [| u us IH]; [reflexivity |].
    simpl. rewrite IH.
    - rewrite bool_decide_eq_false_2; [reflexivity |].
      apply Hnone. apply list_elem_of_here.
    - intros v Hv. apply Hnone. now apply list_elem_of_further. }
  split; [| repeat split].
  intros Huid. rewrite map_map. apply map_ext. intros u.
  destruct (bool_decide_reflect (uid u = id)); congruence.
Qed.

(** X17. [deleteUser], when the service call succeeds, removes exactly the
    entries carrying the given uid: a user is in the new list exactly when
    it was in the old one with another uid, the order of the others is kept,
    and deleting the same uid again changes nothing.  The pagination,
    including its total, stays as it was. *)
Theorem deleteUser_removes_exactly (id : string) (st : UseUsers.State) :
  let st' := fst (UseUsers.deleteUser_resume id (UseUsers.Returned tt) st) in
  snd (UseUsers.deleteUser_resume id (UseUsers.Returned tt) st) = true
  /\ (forall u, u ∈ UseUsers.users st'
                <-> u ∈ UseUsers.users st /\ uid u <> id)
  /\ UseUsers.users st' `sublist_of` UseUsers.users st
  /\ fst (UseUsers.deleteUser_resume id (UseUsers.Returned tt) st') = st'
  /\ UseUsers.pagination st' = UseUsers.pagination st
  /\ UseUsers.error st' = UseUsers.error st.
Proof.
  cbn zeta. simpl. split; [reflexivity |].
  assert (Hfilter : forall l,
             List.filter (fun u => negb (bool_decide (uid u = id))) l
             = filter (fun u => uid u <> id) l).
  { induction l as [| u l IH]; [reflexivity |]. simpl.
    destruct (bool_decide_reflect (uid u = id)) as [He | Hne]; simpl.
    - rewrite filter_cons_False by tauto. exact IH.
    - rewrite filter_cons_True by assumption. now rewrite IH. }
  split.
  { intros u. rewrite Hfilter, list_elem_of_filter. tauto. }
  split.
  { rewrite Hfilter. apply sublist_filter. }
  split; [| split; reflexivity].
  unfold UseUsers.setUsers. simpl. f_equal.
  rewrite !Hfilter. apply list_filter_filter_l. tauto.
Qed.

(** X18. [changeUserRole], when the service call succeeds, rewrites the role
    of the entries carrying the given uid and nothing else: the list of uids
    is unchanged, each entry with that uid now has the new role and all its
    other fields as before, and each other entry is untouched. *)
Theorem changeUserRole_rewrites_role_only (id r : string) (st : UseUsers.State) :
  let st' := fst (UseUsers.changeUserRole_resume id r (UseUsers.Returned tt) st) in
  snd (UseUsers.changeUserRole_resume id r (UseUsers.Returned tt) st) = true
  /\ map uid (UseUsers.users st') = map uid (UseUsers.users st)
  /\ (forall i u,
        UseUsers.users st !! i = Some u ->
        exists u',
          UseUsers.users st' !! i = Some u'
          /\ role u' = (if bool_decide (uid u = id) then r else role u)
          /\ UseUsers.with_role (role u) u' = u)
  /\ UseUsers.pagination st' = UseUsers.pagination st
  /\ UseUsers.error st' = UseUsers.error st.
Proof.
  cbn zeta. simpl. split; [reflexivity |].
  split.
  { rewrite map_map. apply map_ext. intros u.
    destruct (bool_decide (uid u = id)); reflexivity. }
  split; [| split; reflexivity].
  intros i u Hi. rewrite lookup_list_map, Hi. simpl. eexists.
  split; [reflexivity |].
  destruct u. destruct (bool_decide _); simpl; split; reflexivity.
Qed.

(** X19. A mutation that does not succeed leaves the list alone.  For
    [updateUser], [changeUserRole] and [deleteUser]: without a truthy token
    no service call is made and the error is "Authentication required"; when
    the service call fails the callback returns false and records a
    non-empty error; in both cases users, pagination and loading are what
    they were. *)
Theorem failed_mutation_keeps_list (token : option string) (id r : string)
    (t : Thrown) (st : UseUsers.State) :
  (truthy token = false ->
   UseUsers.enter token st
   = UseUsers.Refused (UseUsers.setError (Some "Authentication required") st))
  /\ (truthy token = true ->
      UseUsers.enter token st = UseUsers.Called (UseUsers.setError None st))
  /\ (forall st' ok,
        (st', ok) = UseUsers.updateUser_resume id (UseUsers.Failed t) st
        \/ (st', ok) = UseUsers.changeUserRole_resume id r (UseUsers.Failed t) st
        \/ (st', ok) = UseUsers.deleteUser_resume id (UseUsers.Failed t) st ->
        ok = false
        /\ UseUsers.users st' = UseUsers.users st
        /\ UseUsers.pagination st' = UseUsers.pagination st
        /\ UseUsers.loading st' = UseUsers.loading st
        /\ exists msg, msg <> "" /\ UseUsers.error st' = Some msg).
Proof.
  split; [| split].
  - intros H. unfold UseUsers.enter. now rewrite H.
  - intros H. unfold UseUsers.enter. now rewrite H.
  - intros st' ok [H | [H | H]]; simpl in H; injection H as -> ->;
      (split; [reflexivity |]); (split; [reflexivity |]);
      (split; [reflexivity |]); (split; [reflexivity |]);
      (eexists; split; [| reflexivity]);
      apply failure_message_nonempty; discriminate.
Qed.

(** X20. [fetchUsers] and [searchUsers] never leave the table loading.  With
    a truthy token the callback clears the error and sets [loading], and
    however the service call settles [loading] ends false.  A successful
    search shows exactly the results and resets the pagination to a single
    page whose limit and total are the number of results; a successful fetch
    shows the users and the pagination of the server; a failure keeps users
    and pagination and records a non-empty error. *)
Theorem listing_settles (token : option string) (st : UseUsers.State) :
  truthy token = true ->
  exists st1,
    UseUsers.enter_loading token st = UseUsers.Called st1
    /\ UseUsers.loading st1 = true /\ UseUsers.error st1 = None
    /\ (forall us,
          let st' := UseUsers.searchUsers_resume (UseUsers.Returned us) st1 in
          UseUsers.loading st' = false /\ UseUsers.error st' = None
          /\ UseUsers.users st' = us
          /\ UseUsers.pagination st'
             = {| page := 1; limit := Z.of_nat (length us);
                  total := Z.of_nat (length us); totalPages := 1 |})
    /\ (forall us p,
          let st' := UseUsers.fetchUsers_resume (UseUsers.Returned (us, p)) st1 in
          UseUsers.loading st' = false /\ UseUsers.error st' = None
          /\ UseUsers.users st' = us /\ UseUsers.pagination st' = p)
    /\ (forall t st',
          st' = UseUsers.searchUsers_resume (UseUsers.Failed t) st1
          \/ st' = UseUsers.fetchUsers_resume (UseUsers.Failed t) st1 ->
          UseUsers.loading st' = false
          /\ UseUsers.users st' = UseUsers.users st
          /\ UseUsers.pagination st' = UseUsers.pagination st
          /\ exists msg, msg <> "" /\ UseUsers.error st' = Some msg).
Proof.
  intros Ht. unfold UseUsers.enter_loading. rewrite Ht. simpl.
  eexists. split; [reflexivity |]. split; [reflexivity |].
  split; [reflexivity |]. split; [| split].
  - intros us. cbn zeta. repeat split.
  - intros us p. cbn zeta. repeat split.
  - intros t st' [-> | ->]; simpl;
      (split; [reflexivity |]); (split; [reflexivity |]);
      (split; [reflexivity |]); (eexists; split; [| reflexivity]);
      apply failure_message_nonempty; discriminate.
Qed.

Lemma listing_settles_witness :
  truthy (Some "t1") = true
  /\ UseUsers.loading
       (UseUsers.searchUsers_resume (UseUsers.Returned [Sample.moderator])
          (UseUsers.setError None
             (UseUsers.setLoading true UseUsers.initial)))
     = false.
Proof.
  split; [reflexivity |].
  destruct (listing_settles (Some "t1") UseUsers.initial eq_refl)
    as (st1 & Hcall & _ & _ & Hsearch & _).
  injection Hcall as <-.
  exact (proj1 (Hsearch [Sample.moderator])).
Defined.

End UsersList.

(** ** More on normalisation and on the provider's refresh *)

Section Remaining.
Import Api.

Lemma mappedCodes_not_inherited (c : string) :
  c ∈ mappedCodes -> c ∉ objectPrototype.
Proof.
  unfold mappedCodes. intros H. rewrite !elem_of_cons in H.
  repeat destruct H as [-> | H]; try (inversion H; fail);
    apply (bool_decide_eq_false_1 _); vm_compute; reflexivity.
Qed.

(** X21. What [handleError] reports as code.  NETWORK_ERROR means that no
    response was received, and nothing else: it is reported exactly for an
    error with a request but no response.  For a response, each of the six
    server codes that [codeMap] lists is reported as itself; a server code
    that names a property the table inherits from [Object.prototype]
    ([constructor], [toString], ...) is reported as that inherited member,
    which is no string at all; and every other server code, NETWORK_ERROR
    and UNKNOWN_ERROR sent by the server included, is reported as
    UNKNOWN_ERROR. *)
Theorem network_error_means_no_response (error : AxiosError) :
  (code (handleError error) = AuthErrorCode.NETWORK_ERROR <-> error = ErrRequest)
  /\ (forall status envelope c,
        error = ErrResponse status envelope ->
        err_code <$> resp_error envelope = Some c ->
        (c ∈ mappedCodes -> code (handleError error) = CodeString c)
        /\ (c ∈ objectPrototype -> code (handleError error) = CodeMember c)
        /\ (c ∉ mappedCodes -> c ∉ objectPrototype ->
            code (handleError error) = AuthErrorCode.UNKNOWN_ERROR)).
Proof.
  split.
  - destruct error as [status envelope | | msg]; simpl.
    + split; [| discriminate]. intros H.
      destruct (mapErrorCode_spec
                  (or_str (err_code <$> resp_error envelope) "UNKNOWN_ERROR"))
        as [[Hin Heq] | [[_ Heq] | (_ & _ & Heq)]]; rewrite Heq in H.
      * injection H as H. rewrite H in Hin. unfold mappedCodes in Hin.
        rewrite !elem_of_cons in Hin.
        repeat (destruct Hin as [Hin | Hin]; [discriminate Hin |]).
        inversion Hin.
      * discriminate H.
      * discriminate H.
    + tauto.
    + split; discriminate.
  - intros status envelope c -> Hc. simpl. rewrite Hc. unfold or_str.
    destruct (bool_decide_reflect (c = "")) as [-> | Hne].
    + split; [| split].
      * unfold mappedCodes. rewrite !elem_of_cons.
        intros H. repeat (destruct H as [H | H]; [discriminate H |]).
        inversion H.
      * intros H. contradiction (empty_not_inherited H).
      * reflexivity.
    + destruct (mapErrorCode_spec c)
        as [[Hin Heq] | [[Hin Heq] | (Hout & Hno & Heq)]]; rewrite Heq.
      * split; [reflexivity |]. split.
        -- intros H. contradiction (mappedCodes_not_inherited c Hin H).
        -- intros H. now contradiction H.
      * split; [| split; [reflexivity |]].
        -- intros H. contradiction (mappedCodes_not_inherited c H Hin).
        -- intros _ H. now contradiction H.
      * split; [intros H; now contradiction Hout |].
        split; [intros H; now contradiction Hno | reflexivity].
Qed.

(** The provider's [refreshAccessToken] from the point where the awaited
    refresh call has settled with [o]. *)
Lemma provider_refresh_complete (call : nat) (o : ApiOutcome) (w : World) :
  let op := ViaProvider provider_refreshAccessToken in
  let w' := complete call op o w in
  (forall response d,
      o = Fulfilled response -> success response = true ->
      data response = Some d ->
      outcomes w' = outcomes w ++ [(call, op, Resolved (RBool true))]
      /\ token (store w') = data_token d
      /\ this_token w' = data_token d
      /\ user (store w') = user (store w)
      /\ isAuthenticated (store w') = isAuthenticated (store w)
      /\ refreshToken (store w') = refreshToken (store w)
      /\ this_refreshToken w' = this_refreshToken w)
  /\ ((forall response,
         o = Fulfilled response ->
         success response = false \/ data response = None) ->
      outcomes w' = outcomes w ++ [(call, op, Resolved (RBool false))]
      /\ store w' = loggedOut)
  /\ (forall response,
        o = Fulfilled response -> success response = false ->
        credentials_cleared w')
  /\ ((forall response, o = Fulfilled response -> success response = true) ->
      (forall response d, o = Fulfilled response -> data response <> Some d) ->
      this_token w' = this_token w
      /\ this_refreshToken w' = this_refreshToken w
      /\ localStorage w' = localStorage w
      /\ this_config w' = this_config w).
Proof.
  cbn zeta. cbn [complete service_of resume after].
  destruct o as [response | t].
  - destruct (success response) eqn:Hs;
      [destruct (data response) as [d |] eqn:Hd |].
    + simpl. split; [| split; [| split]].
      * intros response' d' [= <-] _ Hd'. rewrite Hd in Hd'.
        injection Hd' as <-. repeat split.
      * intros Hno. destruct (Hno response eq_refl); congruence.
      * intros response' [= <-] Hs'. congruence.
      * intros _ Hnd. contradiction (Hnd response d eq_refl Hd).
    + simpl. split; [| split; [| split]].
      * intros response' d' [= <-] _ Hd'. congruence.
      * intros _. split; reflexivity.
      * intros response' [= <-] Hs'. congruence.
      * intros _ _. repeat split.
    + simpl. split; [| split; [| split]].
      * intros response' d' [= <-] Hs' _. congruence.
      * intros _. split; reflexivity.
      * intros response' _ _.
        apply (credentials_cleared_same (clearTokensFromStorage w));
          try reflexivity.
        apply clearTokensFromStorage_cleared.
      * intros Hyes _. specialize (Hyes response eq_refl). congruence.
  - simpl. split; [| split; [| split]].
    + intros response' d' [=].
    + intros _. split; reflexivity.
    + intros response' [=].
    + intros _ _. repeat split.
Qed.

(** X22. [refreshAccessToken] of the provider, from the call to the return.
    Without a stored refresh token it resolves with false at once, without
    any network call; the store is reset to the logged-out state, and the
    service keeps the token and the storage it had.  With one, and an
    answer that the interceptor hands on: a 2xx envelope with [success] true
    and data makes it resolve with true, the mirrored token becoming the
    new token of the service while the user and the mirrored refresh token
    stay; every other answer makes it resolve with false and resets the
    store to the logged-out state, the service having cleared its
    credentials if the envelope said [success: false], and still holding
    them if the call failed at the transport.  When the refresh call is
    answered 401, the interceptor makes a refresh of its own; if that one
    fails other than by a 401, or is refused, the callback resolves with
    false, the store is logged out and the credentials are cleared. *)
Theorem provider_refresh_settles (w : World) :
  let op := ViaProvider provider_refreshAccessToken in
  (truthy (this_refreshToken w) = false ->
   let w' := run [Call op] w in
   outcomes w' = outcomes w ++ [(nextCall w, op, Resolved (RBool false))]
   /\ store w' = loggedOut
   /\ sent w' = sent w
   /\ this_token w' = this_token w
   /\ localStorage w' = localStorage w)
  /\ (truthy (this_refreshToken w) = true ->
      (forall r,
          handed_on r w ->
          let w' := run [Call op; Reply (nextRequest w) r] w in
          (forall response d,
              settle r = inl response -> success response = true ->
              data response = Some d ->
              outcomes w'
              = outcomes w ++ [(nextCall w, op, Resolved (RBool true))]
              /\ token (store w') = data_token d
              /\ this_token w' = data_token d
              /\ user (store w') = user (store w)
              /\ isAuthenticated (store w') = isAuthenticated (store w)
              /\ refreshToken (store w') = refreshToken (store w)
              /\ this_refreshToken w' = this_refreshToken w)
          /\ ((forall response,
                 settle r = inl response ->
                 success response = false \/ data response = None) ->
              outcomes w'
              = outcomes w ++ [(nextCall w, op, Resolved (RBool false))]
              /\ store w' = loggedOut)
          /\ (forall response,
                settle r = inl response -> success response = false ->
                credentials_cleared w')
          /\ (forall error,
                settle r = inr error ->
                this_token w' = this_token w
                /\ this_refreshToken w' = this_refreshToken w
                /\ localStorage w' = localStorage w))
      /\ (forall unauthorized r,
            refresh_failed r ->
            let w' := run [Call op;
                           Reply (nextRequest w) (Replied 401 unauthorized);
                           Reply (S (nextRequest w)) r] w in
            outcomes w'
            = outcomes w ++ [(nextCall w, op, Resolved (RBool false))]
            /\ store w' = loggedOut
            /\ credentials_cleared w')).
Proof.
  cbn zeta. split.
  - intros Hno. unfold run. simpl. unfold invoke. simpl.
    rewrite Hno. simpl. repeat split.
  - intros Hyes.
    assert (Hstart : start (service_of provider_refreshAccessToken)
                       (before provider_refreshAccessToken (next_call w))
                     = Awaiting (refreshRequest w)).
    { simpl. rewrite Hyes. reflexivity. }
    destruct (invoke_awaiting (ViaProvider provider_refreshAccessToken) w _
                Hstart)
      as (Hpend & Hnext & _ & Hout & Ht & Hrt & Hls & _ & _ & Hst).
    set (op := ViaProvider provider_refreshAccessToken) in *.
    set (w0 := invoke op w) in *.
    set (k := Return (nextCall w) op) in *.
    split.
    + intros r Hr.
      change (run [Call op; Reply (nextRequest w) r] w)
        with (deliver (nextRequest w) r w0).
      rewrite (deliver_handed_on _ _ _ r _ Hpend).
      2:{ apply handed_on_passes. intros error He. rewrite Hrt.
          now apply Hr. }
      unfold k. cbn [resumeCall].
      destruct (provider_refresh_complete (nextCall w) (settled_call r)
                  (unpark (nextRequest w) w0))
        as (Hok & Hko & Hrefused & Hkept).
      fold op in Hok, Hko, Hrefused, Hkept.
      assert (Hsettled : forall response,
                 settle r = inl response -> settled_call r = Fulfilled response)
        by (intros response Hs; unfold settled_call; now rewrite Hs).
      assert (Hback : forall response,
                 settled_call r = Fulfilled response -> settle r = inl response).
      { intros response He. unfold settled_call in He.
        destruct (settle r); [now injection He as -> | discriminate He]. }
      split; [| split; [| split]].
      * intros response d Hs Hsucc Hd.
        destruct (Hok response d (Hsettled _ Hs) Hsucc Hd)
          as (H1 & H2 & H3 & H4 & H5 & H6 & H7).
        rewrite H1, H2, H3, H4, H5, H6, H7.
        split; [exact (f_equal (fun l => l ++ _) Hout) |].
        repeat split; try assumption.
        -- exact (f_equal user Hst).
        -- exact (f_equal isAuthenticated Hst).
        -- exact (f_equal refreshToken Hst).
      * intros Hno. destruct Hko as (H1 & H2).
        { intros response He. apply Hno. now apply Hback. }
        rewrite H1, H2.
        split; [exact (f_equal (fun l => l ++ _) Hout) | reflexivity].
      * intros response Hs Hsucc.
        exact (Hrefused response (Hsettled _ Hs) Hsucc).
      * intros error Hs. destruct Hkept as (H1 & H2 & H3 & _).
        { intros response He. apply Hback in He. congruence. }
        { intros response d He. apply Hback in He. congruence. }
        rewrite H1, H2, H3. repeat split; assumption.
    + intros unauthorized r Hr.
      change (run [Call op; Reply (nextRequest w) (Replied 401 unauthorized);
                   Reply (S (nextRequest w)) r] w)
        with (deliver (S (nextRequest w)) r
                (deliver (nextRequest w) (Replied 401 unauthorized) w0)).
      rewrite (deliver_intercepted _ _ k unauthorized w0 Hpend).
      2:{ now rewrite requestInterceptor_retry. }
      2:{ now rewrite Hrt. }
      fold (intercepted (nextRequest w)
              (requestInterceptor w (refreshRequest w)) k unauthorized w0).
      assert (Hparked :
                pending (intercepted (nextRequest w)
                           (requestInterceptor w (refreshRequest w)) k
                           unauthorized w0) !! S (nextRequest w)
                = Some (requestInterceptor w0 (refreshRequest w0),
                        Intercept401
                          (mark_retry (requestInterceptor w (refreshRequest w)))
                          (ErrResponse 401 unauthorized) k)).
      { rewrite <- Hnext. apply intercepted_pending. }
      destruct (deliver_refresh_failed _ _ _ _ _ r _ Hparked Hr)
        as (w1 & -> & Hc1 & Ho1 & _).
      unfold k. cbn [resumeCall].
      set (o := Rejected
                  (ThrownAuthError (handleError (ErrResponse 401 unauthorized)))).
      destruct (provider_refresh_complete (nextCall w) o w1)
        as (_ & Hko & _ & Hkept).
      fold op in Hko, Hkept.
      destruct Hko as (H1 & H2); [intros response He; discriminate He |].
      destruct Hkept as (H3 & H4 & H5 & H6);
        [intros response He; discriminate He
        | intros response d He; discriminate He |].
      split; [rewrite H1, Ho1; exact (f_equal (fun l => l ++ _) Hout) |].
      split; [exact H2 |].
      now apply (credentials_cleared_same w1).
Qed.

(** X21 at a concrete input: a response whose envelope names the code
    [constructor]. *)
Lemma network_error_means_no_response_witness :
  "constructor" ∈ objectPrototype
  /\ code (handleError
             (ErrResponse 500 (SampleApi.refusal "boom" "constructor")))
     = CodeMember "constructor".
Proof.
  assert (H : "constructor" ∈ objectPrototype)
    by (apply (bool_decide_eq_true_1 _); vm_compute; reflexivity).
  split; [exact H |].
  destruct (network_error_means_no_response
              (ErrResponse 500 (SampleApi.refusal "boom" "constructor")))
    as (_ & Hcodes).
  destruct (Hcodes 500%Z (SampleApi.refusal "boom" "constructor")
              "constructor" eq_refl eq_refl) as (_ & Hmember & _).
  exact (Hmember H).
Defined.

(** X22 at a concrete input: the refresh call answered 401, and the refresh
    that the interceptor then makes answered 403. *)
Lemma provider_refresh_settles_witness :
  truthy (this_refreshToken SampleApi.service) = true
  /\ refresh_failed SampleApi.forbidden
  /\ (let w' := run [Call (ViaProvider provider_refreshAccessToken);
                     Reply 0 SampleApi.unauthorized;
                     Reply 1 SampleApi.forbidden] SampleApi.service in
      outcomes w'
      = [(0, ViaProvider provider_refreshAccessToken, Resolved (RBool false))]
      /\ store w' = loggedOut
      /\ credentials_cleared w').
Proof.
  assert (Hr : refresh_failed SampleApi.forbidden).
  { split; [intros error [= <-]; reflexivity | intros response [=]]. }
  split; [reflexivity |]. split; [exact Hr |].
  destruct (provider_refresh_settles SampleApi.service) as (_ & Hyes).
  destruct (Hyes eq_refl) as (_ & Hnested).
  exact (Hnested SampleApi.expired SampleApi.forbidden Hr).
Defined.

End Remaining.
